(** * The rule-based AMR oracle of [transition_amr_parser/data_oracle.py]

    A shallow embedding of [AMR_Oracle]: the gold graph and the parser
    configuration are records, Python dictionaries are finite maps, Python
    exceptions are the [Raise] outcomes of a small error monad, and the
    mutable fields of the oracle object are threaded explicitly.

    The graph class ([alignmentsToken2Node], [findSubGraph]) and the
    transition system ([AMRStateMachine] with its action methods) are
    collaborators whose code lives in other modules of the package; they
    enter the development as interfaces ([GraphOps], [MachineOps]). *)

From Stdlib Require Import ZArith String Ascii List Lia.
From stdpp Require Import base option list gmap strings sorting fin_maps.

Set Default Proof Using "Type".

(** ** Python outcomes *)

Inductive exn : Set :=
  | IndexError      (* l[-1] on an empty list, l[i] out of range *)
  | KeyError        (* d[k] for an absent key *)
  | ValueError      (* list.remove(x) when x is not in the list *)
  | GraphError.     (* whatever findSubGraph raises *)

Inductive result (A : Type) : Type :=
  | Ok (a : A)
  | Raise (e : exn).
Arguments Ok {A} a.
Arguments Raise {A} e.

#[global] Instance result_ret : MRet result := fun A a => Ok a.
#[global] Instance result_bind : MBind result := fun A B f m =>
  match m with
  | Ok a => f a
  | Raise e => Raise e
  end.

#[global] Instance result_fmap : FMap result := fun A B f m =>
  match m with
  | Ok a => Ok (f a)
  | Raise e => Raise e
  end.

Definition of_option {A} (e : exn) (o : option A) : result A :=
  match o with
  | Some a => Ok a
  | None => Raise e
  end.

(** ** Python sequences, strings and counters *)

(** [l[-1]] and [l[-2]]. *)
Definition py_last {A} (l : list A) : option A := last l.

Definition py_last2 {A} (l : list A) : option A :=
  match rev l with
  | _ :: x :: _ => Some x
  | _ => None
  end.

(** [l[i]] for an integer index: a negative index counts from the end. *)
Definition py_index {A} (l : list A) (i : Z) : option A :=
  if (0 <=? i)%Z then l !! Z.to_nat i
  else if (0 <=? Z.of_nat (length l) + i)%Z
       then l !! Z.to_nat (Z.of_nat (length l) + i)
       else None.

(** [l.pop(i)] for [0 <= i < len(l)]: the list without its [i]-th entry. *)
Definition py_pop {A} (l : list A) (i : nat) : list A := take i l ++ drop (S i) l.

(** [l.remove(x)]: drops the first occurrence, [ValueError] when absent. *)
Fixpoint py_remove (x : Z) (l : list Z) : result (list Z) :=
  match l with
  | [] => Raise ValueError
  | y :: l' => if bool_decide (x = y) then Ok l'
               else l'' ← py_remove x l'; Ok (y :: l'')
  end.

(** [sub in s] on strings. *)
Definition str_in (sub s : string) : bool :=
  match String.index 0 sub s with
  | Some _ => true
  | None => false
  end.

(** [s.startswith(p)]. *)
Definition startswith (s p : string) : bool := String.prefix p s.

(** A string holds the UTF-8 bytes of the Python text, in which a byte
    [10xxxxxx] continues the character begun before it. *)
Definition continuation (c : ascii) : bool :=
  match c with
  | Ascii _ _ _ _ _ _ b6 b7 => b7 && negb b6
  end.

(** [s[:n]]: the first [n] characters of [s], each with all its bytes. *)
Fixpoint take_chars (n : nat) (s : string) : string :=
  match s with
  | EmptyString => EmptyString
  | String c s' =>
      if continuation c then String c (take_chars n s')
      else match n with
           | 0 => EmptyString
           | S n' => String c (take_chars n' s')
           end
  end.

(** [tok[:2]] *)
Definition slice2 (tok : string) : string := take_chars 2 tok.

(** [sep.join(l)]. *)
Definition join (sep : string) (l : list string) : string := String.concat sep l.

(** A [collections.Counter] keyed by strings; [c[k] += 1]. *)
Abbreviation Counter := (gmap string nat).

Definition counter_incr (k : string) (c : Counter) : Counter :=
  <[k := S (default 0 (c !! k))]> c.

(** Truth value of an optional integer argument: [None] and [0] are falsy. *)
Definition truthy (a : option Z) : bool :=
  match a with
  | Some z => negb (z =? 0)%Z
  | None => false
  end.

(** ** Data model *)

Abbreviation edge := (Z * string * Z)%type.

(** The graph object: the gold graph and the predicted graph share the
    class.  Node ids and token positions are integers; the sentinel of the
    root is [-1]. *)
Module AMR.
Record t := mk {
  tokens : list string;
  nodes : gmap Z string;
  edges : list edge;
  root : Z;
  alignments : gmap Z (list Z)
}.

Definition set_alignments (al : gmap Z (list Z)) (a : t) : t :=
  mk (tokens a) (nodes a) (edges a) (root a) al.

(** [del a.nodes[k]] *)
Definition del_node (k : Z) (a : t) : result t :=
  match nodes a !! k with
  | Some _ => Ok (mk (tokens a) (delete k (nodes a)) (edges a) (root a) (alignments a))
  | None => Raise KeyError
  end.
End AMR.

(** What [findSubGraph] returns: an object with [root] and [edges]. *)
Module SubGraph.
Record t := mk { root : Z; edges : list edge }.
End SubGraph.

(** The fields of the parser configuration that the oracle reads (and, for
    [stack], [buffer] and [latent], writes). *)
Module SM.
Record t := mk {
  stack : list Z;
  buffer : list Z;
  latent : list Z;
  amr : AMR.t;
  actions : list string;
  merged_tokens : gmap Z (list Z);
  entities : list Z;
  is_confirmed : gset Z;
  swapped_words : gmap Z (list Z)
}.

Definition set_latent (l : list Z) (tr : t) : t :=
  mk (stack tr) (buffer tr) l (amr tr) (actions tr) (merged_tokens tr)
     (entities tr) (is_confirmed tr) (swapped_words tr).

(** [tr.stack = []; tr.buffer = []] *)
Definition clear (tr : t) : t :=
  mk [] [] (latent tr) (amr tr) (actions tr) (merged_tokens tr)
     (entities tr) (is_confirmed tr) (swapped_words tr).
End SM.

(** [self.stats]: a dictionary with one counter for each of nine fixed keys,
    none of which is ever added or deleted. *)
Module Stats.
Inductive kind : Set :=
  | CONFIRM | REDUCE | SWAP | LA | RA | ENTITY | MERGE | DEPENDENT | INTRODUCE.

Record t := mk {
  confirm : Counter;
  reduce : Counter;
  swap : Counter;
  la : Counter;
  ra : Counter;
  entity : Counter;
  merge : Counter;
  dependent : Counter;
  introduce : Counter
}.

Definition empty : t := mk ∅ ∅ ∅ ∅ ∅ ∅ ∅ ∅ ∅.

(** [stats[kind][descr] += 1] *)
Definition incr (k : kind) (descr : string) (s : t) : t :=
  match k with
  | CONFIRM => mk (counter_incr descr (confirm s)) (reduce s) (swap s) (la s) (ra s)
                  (entity s) (merge s) (dependent s) (introduce s)
  | REDUCE => mk (confirm s) (counter_incr descr (reduce s)) (swap s) (la s) (ra s)
                 (entity s) (merge s) (dependent s) (introduce s)
  | SWAP => mk (confirm s) (reduce s) (counter_incr descr (swap s)) (la s) (ra s)
               (entity s) (merge s) (dependent s) (introduce s)
  | LA => mk (confirm s) (reduce s) (swap s) (counter_incr descr (la s)) (ra s)
             (entity s) (merge s) (dependent s) (introduce s)
  | RA => mk (confirm s) (reduce s) (swap s) (la s) (counter_incr descr (ra s))
             (entity s) (merge s) (dependent s) (introduce s)
  | ENTITY => mk (confirm s) (reduce s) (swap s) (la s) (ra s)
                 (counter_incr descr (entity s)) (merge s) (dependent s) (introduce s)
  | MERGE => mk (confirm s) (reduce s) (swap s) (la s) (ra s)
                (entity s) (counter_incr descr (merge s)) (dependent s) (introduce s)
  | DEPENDENT => mk (confirm s) (reduce s) (swap s) (la s) (ra s)
                    (entity s) (merge s) (counter_incr descr (dependent s)) (introduce s)
  | INTRODUCE => mk (confirm s) (reduce s) (swap s) (la s) (ra s)
                    (entity s) (merge s) (dependent s) (counter_incr descr (introduce s))
  end.
End Stats.

(** The mutable fields of the oracle object ([self]) that derivation
    touches.  [self.amrs], [self.gold_amrs] and [self.transitions] only
    collect references and are left out. *)
Module Oracle.
Record t := mk {
  preds2Ints : gmap string nat;
  possiblePredicates : gmap string Counter;
  new_edge : string;
  new_node : string;
  entity_type : string;
  dep_id : option Z;
  swapped_words : gmap Z (list Z);
  possibleEntityTypes : Counter;
  stats : Stats.t
}.

Definition set_new_edge (r : string) (o : t) : t :=
  mk (preds2Ints o) (possiblePredicates o) r (new_node o) (entity_type o)
     (dep_id o) (swapped_words o) (possibleEntityTypes o) (stats o).

Definition set_new_node (n : string) (o : t) : t :=
  mk (preds2Ints o) (possiblePredicates o) (new_edge o) n (entity_type o)
     (dep_id o) (swapped_words o) (possibleEntityTypes o) (stats o).

Definition set_entity_type (e : string) (o : t) : t :=
  mk (preds2Ints o) (possiblePredicates o) (new_edge o) (new_node o) e
     (dep_id o) (swapped_words o) (possibleEntityTypes o) (stats o).

Definition set_dep_id (d : option Z) (o : t) : t :=
  mk (preds2Ints o) (possiblePredicates o) (new_edge o) (new_node o)
     (entity_type o) d (swapped_words o) (possibleEntityTypes o) (stats o).

Definition set_preds2Ints (p : gmap string nat) (o : t) : t :=
  mk p (possiblePredicates o) (new_edge o) (new_node o) (entity_type o)
     (dep_id o) (swapped_words o) (possibleEntityTypes o) (stats o).

Definition set_possiblePredicates (p : gmap string Counter) (o : t) : t :=
  mk (preds2Ints o) p (new_edge o) (new_node o) (entity_type o)
     (dep_id o) (swapped_words o) (possibleEntityTypes o) (stats o).

Definition set_possibleEntityTypes (c : Counter) (o : t) : t :=
  mk (preds2Ints o) (possiblePredicates o) (new_edge o) (new_node o)
     (entity_type o) (dep_id o) (swapped_words o) c (stats o).

Definition set_stats (s : Stats.t) (o : t) : t :=
  mk (preds2Ints o) (possiblePredicates o) (new_edge o) (new_node o)
     (entity_type o) (dep_id o) (swapped_words o) (possibleEntityTypes o) s.

(** [AMR_Oracle.__init__] *)
Definition init : t := mk ∅ ∅ "" "" "" None ∅ ∅ Stats.empty.

(** [self.stats[kind][descr] += 1] *)
Definition count (kind : Stats.kind) (descr : string) (o : t) : t :=
  set_stats (Stats.incr kind descr (stats o)) o.
End Oracle.

(** ** Collaborators *)

(** Methods of the graph class used by the oracle.  [alignmentsToken2Node]
    answers from a memo table that the oracle resets whenever it edits the
    alignments, so it is read here as a function of the graph. *)
Class GraphOps := {
  alignmentsToken2Node : AMR.t → Z → list Z;
  findSubGraph : AMR.t → list Z → result SubGraph.t
}.

(** The constructor and the action methods of [AMRStateMachine]. *)
Class MachineOps := {
  new_machine : list string → nat → result SM.t;
  MERGE : SM.t → result SM.t;
  ENTITY : string → SM.t → result SM.t;
  CONFIRM : string → SM.t → result SM.t;
  DEPENDENT : string → string → option Z → SM.t → result SM.t;
  INTRODUCE : SM.t → result SM.t;
  LA : string → SM.t → result SM.t;
  RA : string → SM.t → result SM.t;
  REDUCE : SM.t → result SM.t;
  SWAP : SM.t → result SM.t;
  SHIFT : SM.t → result SM.t;
  CLOSE : AMR.t → SM.t → result SM.t
}.

(** ** The predicates of the oracle *)

Section oracle.
Context {G : GraphOps}.

(** The gold node a token stands for: the only aligned node, or the root
    of the aligned subgraph. *)
Definition subgraph_root (gold_amr : AMR.t) (al : list Z) : result Z :=
  g ← findSubGraph gold_amr al; Ok (SubGraph.root g).

(** [AMR_Oracle.tryMerge]; [None] is the default of [first] and [second]. *)
Definition tryMerge (transitions : SM.t) (amr gold_amr : AMR.t)
    (first second : option Z) : bool :=
  let args :=
    match first, second with
    | Some f, Some s =>
        if truthy first && truthy second then Some (f, s) else None
    | _, _ => None
    end in
  let args :=
    match args with
    | Some fs => Some fs
    | None =>
        match py_last (SM.stack transitions), py_last2 (SM.stack transitions) with
        | Some f, Some s => Some (f, s)
        | _, _ => None           (* len(transitions.stack) < 2 *)
        end
    end in
  match args with
  | None => false
  | Some (first, second) =>
      if bool_decide (first = second) then false
      else
        let first_alignment := alignmentsToken2Node gold_amr first in
        let second_alignment := alignmentsToken2Node gold_amr second in
        if bool_decide (first_alignment = []) || bool_decide (second_alignment = [])
        then false
        else if bool_decide (first_alignment = second_alignment) then true
        else negb (bool_decide
               ((list_to_set first_alignment : gset Z)
                  ∩ list_to_set second_alignment = ∅))
  end.

(** The loop of [isHead] over the gold edges. *)
Fixpoint isHead_scan (amr_edges : list edge) (x y source target : Z)
    (gold_edges : list edge) : bool * string :=
  match gold_edges with
  | [] => (false, ""%string)
  | (s, r, t) :: rest =>
      if bool_decide (source = s) && bool_decide (target = t)
         && negb (bool_decide ((x, r, y) ∈ amr_edges))
      then (true, r)
      else isHead_scan amr_edges x y source target rest
  end.

(** [AMR_Oracle.isHead] *)
Definition isHead (amr gold_amr : AMR.t) (x y : Z) : result (bool * string) :=
  let x_alignment := alignmentsToken2Node gold_amr x in
  let y_alignment := alignmentsToken2Node gold_amr y in
  if bool_decide (y_alignment = []) || bool_decide (x_alignment = [])
  then Ok (false, ""%string)
  else
    source ← (if bool_decide (1 < length x_alignment)
              then subgraph_root gold_amr x_alignment
              else of_option IndexError (x_alignment !! 0));
    target ← (if bool_decide (1 < length y_alignment)
              then subgraph_root gold_amr y_alignment
              else of_option IndexError (y_alignment !! 0));
    Ok (isHead_scan (AMR.edges amr) x y source target (AMR.edges gold_amr)).

(** The test that guards LA, RA, SWAP and INTRODUCE: "check if we should
    MERGE instead", the stack top against the next buffer item. *)
Definition merge_pending (transitions : SM.t) (amr gold_amr : AMR.t) (stack0 : Z) : bool :=
  match py_last (SM.buffer transitions) with
  | Some buffer0 => tryMerge transitions amr gold_amr (Some stack0) (Some buffer0)
  | None => false                  (* len(transitions.buffer) == 0 *)
  end.

(** The gold node of an alignment in [tryConfirm], [tryReduce] and
    [tryDependent]: [tok_alignment[0]] when it is a singleton. *)
Definition gold_node (gold_amr : AMR.t) (tok_alignment : list Z) : result Z :=
  if bool_decide (length tok_alignment = 1)
  then of_option IndexError (tok_alignment !! 0)
  else subgraph_root gold_amr tok_alignment.

(** The bookkeeping of [tryConfirm] on [self.possiblePredicates] and
    [self.preds2Ints]. *)
Definition record_predicate (old_node new_node : string) (self : Oracle.t) : Oracle.t :=
  let pp := Oracle.possiblePredicates self in
  let pp := match pp !! old_node with
            | None => <[old_node := ∅]> pp
            | Some _ => pp
            end in
  let p2i := Oracle.preds2Ints self in
  let p2i := match p2i !! new_node with
             | None => <[new_node := size p2i]> p2i
             | Some _ => p2i
             end in
  let pp := <[old_node := counter_incr new_node (default ∅ (pp !! old_node))]> pp in
  Oracle.set_possiblePredicates pp (Oracle.set_preds2Ints p2i self).

(** [AMR_Oracle.tryConfirm] *)
Definition tryConfirm (self : Oracle.t) (transitions : SM.t) (amr gold_amr : AMR.t)
    : result (bool * Oracle.t) :=
  match py_last (SM.stack transitions) with
  | None => Ok (false, self)
  | Some stack0 =>
      let tok_alignment := alignmentsToken2Node gold_amr stack0 in
      last_action ← of_option IndexError (py_last (SM.actions transitions));
      if negb (str_in "DEPENDENT" last_action)
         && negb (bool_decide (length tok_alignment = 1))
      then Ok (false, self)
      else if bool_decide (stack0 ∈ SM.entities transitions)
      then Ok (false, self)
      else
        gold_id ← gold_node gold_amr tok_alignment;
        let isPred := negb (bool_decide (stack0 ∈ SM.is_confirmed transitions)) in
        if isPred then
          new_node ← of_option KeyError (AMR.nodes gold_amr !! gold_id);
          old_node ← of_option KeyError (AMR.nodes amr !! stack0);
          Ok (true, Oracle.set_new_node new_node (record_predicate old_node new_node self))
        else Ok (false, self)
  end.

(** [AMR_Oracle.tryLA] *)
Definition tryLA (self : Oracle.t) (transitions : SM.t) (amr gold_amr : AMR.t)
    : result (bool * Oracle.t) :=
  match py_last (SM.stack transitions), py_last2 (SM.stack transitions) with
  | Some stack0, Some stack1 =>
      if merge_pending transitions amr gold_amr stack0 then Ok (false, self)
      else
        let head := stack0 in
        let dependent := stack1 in
        '(isLeftHead, labelL) ← isHead amr gold_amr head dependent;
        if (isLeftHead : bool) then Ok (true, Oracle.set_new_edge labelL self)
        else Ok (false, self)
  | _, _ => Ok (false, self)       (* len(transitions.stack) < 2 *)
  end.

(** [AMR_Oracle.tryRA] *)
Definition tryRA (self : Oracle.t) (transitions : SM.t) (amr gold_amr : AMR.t)
    : result (bool * Oracle.t) :=
  match py_last (SM.stack transitions), py_last2 (SM.stack transitions) with
  | Some stack0, Some stack1 =>
      if merge_pending transitions amr gold_amr stack0 then Ok (false, self)
      else
        let head := stack1 in
        let dependent := stack0 in
        '(isRightHead, labelR) ← isHead amr gold_amr head dependent;
        if (isRightHead : bool) then Ok (true, Oracle.set_new_edge labelR self)
        else Ok (false, self)
  | _, _ => Ok (false, self)
  end.

(** [AMR_Oracle.tryReduce], as the driver (its only caller) calls it:
    without [node_id], so that the node examined is the stack top. *)
Definition tryReduce (transitions : SM.t) (amr gold_amr : AMR.t) : result bool :=
  match py_last (SM.stack transitions) with
  | None => Ok false
  | Some stack0 =>
      let node_id := stack0 in
      let tok_alignment := alignmentsToken2Node gold_amr node_id in
      if bool_decide (length tok_alignment = 0) then Ok true
      else if match py_last (SM.buffer transitions) with
              | Some buffer0 =>
                  bool_decide (alignmentsToken2Node gold_amr buffer0 = tok_alignment)
              | None => false
              end
      then Ok false
      else
        gold_id ← gold_node gold_amr tok_alignment;
        let pred_edges :=
          filter (fun e : edge => e.1.2 ≠ "entity"%string) (AMR.edges amr) in
        let countSource :=
          length (filter (fun e : edge => e.1.1 = node_id) pred_edges) in
        let countTarget :=
          length (filter (fun e : edge => e.2 = node_id) pred_edges) in
        let countSourceGold :=
          length (filter (fun e : edge => e.1.1 = gold_id) (AMR.edges gold_amr)) in
        let countTargetGold :=
          length (filter (fun e : edge => e.2 = gold_id) (AMR.edges gold_amr)) in
        let is_entity := bool_decide (node_id ∈ SM.entities transitions) in
        let countSource :=
          if is_entity
          then countSource
               + length (filter (fun e : edge => e.1.1 = gold_id ∧ e.2 ∈ tok_alignment)
                                (AMR.edges gold_amr))
          else countSource in
        let countTarget :=
          if is_entity
          then countTarget
               + length (filter (fun e : edge => e.2 = gold_id ∧ e.1.1 ∈ tok_alignment)
                                (AMR.edges gold_amr))
          else countTarget in
        Ok (bool_decide (countSourceGold = countSource)
            && bool_decide (countTargetGold = countTarget))
  end.

(** [stack0 in d and stack1 in d.get(stack0)] *)
Definition swapped_past (d : gmap Z (list Z)) (stack0 stack1 : Z) : bool :=
  match d !! stack0 with
  | Some l => bool_decide (stack1 ∈ l)
  | None => false
  end.

(** The loop of [trySWAP] over the stack, bottom first. *)
Fixpoint swap_scan (amr gold_amr : AMR.t) (stack0 stack1 : Z)
    (tok_alignment : list Z) (toks : list Z) : result bool :=
  match toks with
  | [] => Ok false
  | tok :: rest =>
      if bool_decide (tok = stack1) || bool_decide (tok = stack0)
      then swap_scan amr gold_amr stack0 stack1 tok_alignment rest
      else
        '(isHeadL, _) ← isHead amr gold_amr stack0 tok;
        if (isHeadL : bool) then Ok true
        else
          '(isHeadR, _) ← isHead amr gold_amr tok stack0;
          if (isHeadR : bool) then Ok true
          else if bool_decide (alignmentsToken2Node gold_amr tok = tok_alignment)
          then Ok true
          else swap_scan amr gold_amr stack0 stack1 tok_alignment rest
  end.

(** [AMR_Oracle.trySWAP] *)
Definition trySWAP (transitions : SM.t) (amr gold_amr : AMR.t) : result bool :=
  match py_last (SM.stack transitions), py_last2 (SM.stack transitions) with
  | Some stack0, Some stack1 =>
      if swapped_past (SM.swapped_words transitions) stack0 stack1 then Ok false
      else if swapped_past (SM.swapped_words transitions) stack1 stack0 then Ok false
      else if merge_pending transitions amr gold_amr stack0 then Ok false
      else
        let tok_alignment := alignmentsToken2Node gold_amr stack0 in
        swap_scan amr gold_amr stack0 stack1 tok_alignment (SM.stack transitions)
  | _, _ => Ok false
  end.

(** The loop of [tryDependent] over the gold edges. *)
Fixpoint dependent_scan (self : Oracle.t) (amr gold_amr : AMR.t) (stack0 source : Z)
    (tok_alignment : list Z) (gold_edges : list edge) : result (bool * Oracle.t) :=
  match gold_edges with
  | [] => Ok (false, self)
  | (s, r, t) :: rest =>
      if bool_decide (s = source) && bool_decide (r ∈ [":polarity"; ":mode"]%string)
      then
        if bool_decide ((stack0, r) ∈ map (fun e : edge => (e.1.1, e.1.2)) (AMR.edges amr))
        then dependent_scan self amr gold_amr stack0 source tok_alignment rest
        else if negb (bool_decide (t ∈ tok_alignment))
                && match AMR.alignments gold_amr !! t with
                   | Some l => negb (bool_decide (l = []))
                   | None => false
                   end
        then dependent_scan self amr gold_amr stack0 source tok_alignment rest
        else
          label ← of_option KeyError (AMR.nodes gold_amr !! t);
          Ok (true, Oracle.set_new_node label (Oracle.set_new_edge r self))
      else dependent_scan self amr gold_amr stack0 source tok_alignment rest
  end.

(** [AMR_Oracle.tryDependent] *)
Definition tryDependent (self : Oracle.t) (transitions : SM.t) (amr gold_amr : AMR.t)
    : result (bool * Oracle.t) :=
  match py_last (SM.stack transitions) with
  | None => Ok (false, self)
  | Some stack0 =>
      let tok_alignment := alignmentsToken2Node gold_amr stack0 in
      if bool_decide (tok_alignment = []) then Ok (false, self)
      else
        source ← gold_node gold_amr tok_alignment;
        dependent_scan self amr gold_amr stack0 source tok_alignment (AMR.edges gold_amr)
  end.

(** [AMR_Oracle.tryEntity] *)
Definition tryEntity (self : Oracle.t) (transitions : SM.t) (amr gold_amr : AMR.t)
    : result (bool * Oracle.t) :=
  match py_last (SM.stack transitions) with
  | None => Ok (false, self)
  | Some stack0 =>
      if bool_decide (stack0 ∈ SM.entities transitions) then Ok (false, self)
      else
        let tok_alignment := alignmentsToken2Node gold_amr stack0 in
        if bool_decide (length tok_alignment ≤ 1) then Ok (false, self)
        else if match py_last2 (SM.stack transitions) with
                | Some id => tryMerge transitions amr gold_amr (Some stack0) (Some id)
                | None => false
                end
        then Ok (false, self)
        else if existsb (fun id => tryMerge transitions amr gold_amr (Some stack0) (Some id))
                        (rev (SM.buffer transitions))
        then Ok (false, self)
        else
          g ← findSubGraph gold_amr tok_alignment;
          let edges := SubGraph.edges g in
          if bool_decide (edges = []) then Ok (false, self)
          else if bool_decide (length tok_alignment = 2)
                  && match edges with
                     | [(_, r, _)] => bool_decide (r ∈ [":mode"; ":polarity"]%string)
                     | _ => false
                     end
          then Ok (false, self)
          else
            let final_nodes :=
              filter (fun n => ¬ Exists (fun e : edge => e.1.1 = n) edges) tok_alignment in
            new_nodes ← mapM (fun n => of_option KeyError (AMR.nodes gold_amr !! n))
                             (filter (fun n => n ∉ final_nodes) tok_alignment);
            let entity_type := join "," new_nodes in
            Ok (true,
                Oracle.set_possibleEntityTypes
                  (counter_incr entity_type (Oracle.possibleEntityTypes self))
                  (Oracle.set_entity_type entity_type self))
  end.

(** [transitions.latent.append(transitions.latent.pop(idx))] *)
Definition promote (latent : list Z) (idx : nat) : result (list Z) :=
  x ← of_option IndexError (latent !! idx);
  Ok (py_pop latent idx ++ [x]).

(** The loop of [tryIntroduce] over [reversed(transitions.latent)]. *)
Fixpoint introduce_scan (amr gold_amr : AMR.t) (stack0 : Z) (latent : list Z)
    (idx : nat) (rlatent : list Z) : result (option (list Z)) :=
  match rlatent with
  | [] => Ok None
  | latentk :: rest =>
      '(isHeadL, _) ← isHead amr gold_amr stack0 latentk;
      if (isHeadL : bool) then l ← promote latent idx; Ok (Some l)
      else
        '(isHeadR, _) ← isHead amr gold_amr latentk stack0;
        if (isHeadR : bool) then l ← promote latent idx; Ok (Some l)
        else introduce_scan amr gold_amr stack0 latent (Nat.pred idx) rest
  end.

(** [AMR_Oracle.tryIntroduce]; the only predicate that edits the
    configuration (it reorders [latent] when it succeeds).  The test
    [if not transitions.stack and transitions.latent] of the source comes
    after the stack was found non-empty and never fires. *)
Definition tryIntroduce (transitions : SM.t) (amr gold_amr : AMR.t)
    : result (bool * SM.t) :=
  match py_last (SM.stack transitions) with
  | None => Ok (false, transitions)
  | Some stack0 =>
      if bool_decide (SM.latent transitions = []) then Ok (false, transitions)
      else if merge_pending transitions amr gold_amr stack0 then Ok (false, transitions)
      else
        let idx := length (SM.latent transitions) - 1 in
        r ← introduce_scan amr gold_amr stack0 (SM.latent transitions) idx
              (rev (SM.latent transitions));
        match r with
        | Some l => Ok (true, SM.set_latent l transitions)
        | None => Ok (false, transitions)
        end
  end.

End oracle.

(** ** The driver *)

(** What one pass through the loop body did: the action it applied (with
    the arguments handed to the configuration), or the forced exit. *)
Inductive Action : Type :=
  | A_MERGE
  | A_ENTITY (entity_type : string)
  | A_CONFIRM (node_label : string)
  | A_DEPENDENT (edge_label node_label : string) (node_id : option Z)
  | A_INTRODUCE
  | A_LA (edge_label : string)
  | A_RA (edge_label : string)
  | A_REDUCE
  | A_SWAP
  | A_SHIFT.

Inductive Flow : Type :=
  | Continue (a : Action)
  | Break.

Section driver.
Context {G : GraphOps} {M : MachineOps}.

(** [tr.amr.nodes[k]] where [k] is [stack0] or [stack1]: the string ['NA']
    that stands for a missing stack item is no key of the dictionary. *)
Definition node_label (a : AMR.t) (k : option Z) : result string :=
  match k with
  | Some k => of_option KeyError (AMR.nodes a !! k)
  | None => Raise KeyError
  end.

(** [[tr.amr.tokens[x-1] for x in tr.merged_tokens[stack0]]] *)
Definition merged_toks (tr : SM.t) (stack0 : option Z) : result (list string) :=
  m ← of_option KeyError (stack0 ≫= fun k => SM.merged_tokens tr !! k);
  mapM (fun x : Z => of_option IndexError (py_index (AMR.tokens (SM.amr tr)) (x - 1))) m.

(** The body of [while tr.buffer or tr.stack] in [AMR_Oracle.runOracle]. *)
Definition step (self : Oracle.t) (tr : SM.t) (gold_amr : AMR.t)
    : result (Flow * Oracle.t * SM.t) :=
  let stack0 := py_last (SM.stack tr) in
  let stack1 := py_last2 (SM.stack tr) in
  if tryMerge tr (SM.amr tr) gold_amr None None then
    tr ← MERGE tr;
    toks ← merged_toks tr stack0;
    let self := Oracle.count Stats.MERGE (join "," toks) self in
    Ok (Continue A_MERGE, self, tr)
  else
  '(b, self) ← tryEntity self tr (SM.amr tr) gold_amr;
  if (b : bool) then
    toks ← (if bool_decide (is_Some (stack0 ≫= fun k => SM.merged_tokens tr !! k))
            then merged_toks tr stack0
            else l ← node_label (SM.amr tr) stack0; Ok [l]);
    let descr := (join "," toks ++ " (" ++ Oracle.entity_type self ++ ")")%string in
    let self := Oracle.count Stats.ENTITY descr self in
    let entity_type := Oracle.entity_type self in
    tr ← ENTITY entity_type tr;
    Ok (Continue (A_ENTITY entity_type), self, tr)
  else
  '(b, self) ← tryConfirm self tr (SM.amr tr) gold_amr;
  if (b : bool) then
    l ← node_label (SM.amr tr) stack0;
    let self := Oracle.count Stats.CONFIRM (l ++ " => " ++ Oracle.new_node self)%string self in
    let new_node := Oracle.new_node self in
    tr ← CONFIRM new_node tr;
    Ok (Continue (A_CONFIRM new_node), self, tr)
  else
  '(b, self) ← tryDependent self tr (SM.amr tr) gold_amr;
  if (b : bool) then
    let a := A_DEPENDENT (Oracle.new_edge self) (Oracle.new_node self)
                         (Oracle.dep_id self) in
    tr ← DEPENDENT (Oracle.new_edge self) (Oracle.new_node self) (Oracle.dep_id self) tr;
    let self := Oracle.set_dep_id None self in
    tok ← node_label (SM.amr tr) stack0;
    let self := Oracle.count Stats.DEPENDENT
             (Oracle.new_edge self ++ " " ++ Oracle.new_node self)%string self in
    Ok (Continue a, self, tr)
  else
  '(b, tr) ← tryIntroduce tr (SM.amr tr) gold_amr;
  if (b : bool) then
    tok1 ← node_label (SM.amr tr) (py_last (SM.latent tr));
    tok2 ← node_label (SM.amr tr) stack0;
    let self := Oracle.count Stats.INTRODUCE (tok1 ++ " " ++ tok2)%string self in
    tr ← INTRODUCE tr;
    Ok (Continue A_INTRODUCE, self, tr)
  else
  '(b, self) ← tryLA self tr (SM.amr tr) gold_amr;
  if (b : bool) then
    let new_edge := Oracle.new_edge self in
    tr ← LA new_edge tr;
    tok1 ← node_label (SM.amr tr) stack0;
    tok2 ← node_label (SM.amr tr) stack1;
    let self := Oracle.count Stats.LA (tok1 ++ " " ++ new_edge ++ " " ++ tok2)%string self in
    Ok (Continue (A_LA new_edge), self, tr)
  else
  '(b, self) ← tryRA self tr (SM.amr tr) gold_amr;
  if (b : bool) then
    let new_edge := Oracle.new_edge self in
    tr ← RA new_edge tr;
    tok1 ← node_label (SM.amr tr) stack1;
    tok2 ← node_label (SM.amr tr) stack0;
    let self := Oracle.count Stats.RA (tok1 ++ " " ++ new_edge ++ " " ++ tok2)%string self in
    Ok (Continue (A_RA new_edge), self, tr)
  else
  b ← tryReduce tr (SM.amr tr) gold_amr;
  if (b : bool) then
    tok ← node_label (SM.amr tr) stack0;
    let self := Oracle.count Stats.REDUCE tok self in
    tr ← REDUCE tr;
    Ok (Continue A_REDUCE, self, tr)
  else
  b ← trySWAP tr (SM.amr tr) gold_amr;
  if (b : bool) then
    tr ← SWAP tr;
    tok1 ← node_label (SM.amr tr) stack1;
    tok2 ← node_label (SM.amr tr) stack0;
    let self := Oracle.count Stats.SWAP ("swapped: " ++ tok1 ++ " stack0: " ++ tok2)%string self in
    Ok (Continue A_SWAP, self, tr)
  else
  if negb (bool_decide (SM.buffer tr = [])) then
    tr ← SHIFT tr;
    Ok (Continue A_SHIFT, self, tr)
  else
    Ok (Break, self, SM.clear tr).

(** The loop [while tr.buffer or tr.stack], run for at most [fuel] passes.
    The boolean tells whether the loop was left (by its condition or by
    [break]); the list is the sequence of actions applied. *)
Fixpoint derive (fuel : nat) (self : Oracle.t) (tr : SM.t) (gold_amr : AMR.t)
    : result (bool * list Action * Oracle.t * SM.t) :=
  if bool_decide (SM.buffer tr = []) && bool_decide (SM.stack tr = [])
  then Ok (true, [], self, tr)
  else
    match fuel with
    | 0 => Ok (false, [], self, tr)
    | S fuel =>
        '(flow, self, tr) ← step self tr gold_amr;
        match flow with
        | Break => Ok (true, [], self, tr)
        | Continue a =>
            '(exited, acts, self, tr) ← derive fuel self tr gold_amr;
            Ok (exited, a :: acts, self, tr)
        end
    end.

(** The loop followed by [tr.CLOSE(training=True, gold_amr=gold_amr, ...)].
    [None] stands for a loop still running after [fuel] passes. *)
Definition derive_close (fuel : nat) (self : Oracle.t) (tr : SM.t) (gold_amr : AMR.t)
    : result (option (list Action * Oracle.t * SM.t)) :=
  '(exited, acts, self, tr) ← derive fuel self tr gold_amr;
  if (exited : bool) then
    tr ← CLOSE gold_amr tr;
    Ok (Some (acts, self, tr))
  else Ok None.

(** *** The order of the predicates, named *)

(** The boolean a predicate returns in the configuration [tr]. *)
Definition holds (p : Stats.kind) (self : Oracle.t) (tr : SM.t) (gold_amr : AMR.t)
    : result bool :=
  match p with
  | Stats.MERGE => Ok (tryMerge tr (SM.amr tr) gold_amr None None)
  | Stats.ENTITY => fst <$> tryEntity self tr (SM.amr tr) gold_amr
  | Stats.CONFIRM => fst <$> tryConfirm self tr (SM.amr tr) gold_amr
  | Stats.DEPENDENT => fst <$> tryDependent self tr (SM.amr tr) gold_amr
  | Stats.INTRODUCE => fst <$> tryIntroduce tr (SM.amr tr) gold_amr
  | Stats.LA => fst <$> tryLA self tr (SM.amr tr) gold_amr
  | Stats.RA => fst <$> tryRA self tr (SM.amr tr) gold_amr
  | Stats.REDUCE => tryReduce tr (SM.amr tr) gold_amr
  | Stats.SWAP => trySWAP tr (SM.amr tr) gold_amr
  end.


(** What a pass and a run show to the outside: the actions applied and the
    configuration, without the oracle object. *)
Definition step_outcome (r : result (Flow * Oracle.t * SM.t)) : result (Flow * SM.t) :=
  (fun x => (x.1.1, x.2)) <$> r.

Definition derive_outcome (r : result (bool * list Action * Oracle.t * SM.t))
    : result (bool * list Action * SM.t) :=
  (fun x => (x.1.1.1, x.1.1.2, x.2)) <$> r.

(** A derivation stall: nothing left in the buffer, something left on the
    stack, and none of the nine predicates applies. *)
Definition stall (self : Oracle.t) (tr : SM.t) (gold_amr : AMR.t) : Prop :=
  SM.buffer tr = [] ∧ SM.stack tr ≠ [] ∧
  ∀ p : Stats.kind, holds p self tr gold_amr = Ok false.

End driver.

(** The predicate that decides on an action; SHIFT has none. *)
Definition kind_of (a : Action) : option Stats.kind :=
  match a with
  | A_MERGE => Some Stats.MERGE
  | A_ENTITY _ => Some Stats.ENTITY
  | A_CONFIRM _ => Some Stats.CONFIRM
  | A_DEPENDENT _ _ _ => Some Stats.DEPENDENT
  | A_INTRODUCE => Some Stats.INTRODUCE
  | A_LA _ => Some Stats.LA
  | A_RA _ => Some Stats.RA
  | A_REDUCE => Some Stats.REDUCE
  | A_SWAP => Some Stats.SWAP
  | A_SHIFT => None
  end.


(** ** One sentence of [runOracle] *)

Section sentence.
Context {G : GraphOps} {M : MachineOps}.

(** The body of the loop "clean alignments" for the token [tok] at index
    [i] (position [i+1]). *)
Definition clean_token (gold_amr : AMR.t) (i : nat) (tok : string) : result AMR.t :=
  let pos := (Z.of_nat i + 1)%Z in
  let align := alignmentsToken2Node gold_amr pos in
  if bool_decide (length align = 2) then
    let edges :=
      filter (fun e : edge => e.1.1 ∈ align ∧ e.2 ∈ align) (AMR.edges gold_amr) in
    if bool_decide (edges = []) then
      a0 ← of_option IndexError (align !! 0);
      a1 ← of_option IndexError (align !! 1);
      label1 ← of_option KeyError (AMR.nodes gold_amr !! a1);
      first ← (if startswith label1 (slice2 tok) then Ok true
               else
                 al0 ← of_option KeyError (AMR.alignments gold_amr !! a0);
                 al1 ← of_option KeyError (AMR.alignments gold_amr !! a1);
                 Ok (bool_decide (length al1 < length al0)));
      let remove := if (first : bool) then 0 else 1 in
      node ← of_option IndexError (align !! remove);
      al ← of_option KeyError (AMR.alignments gold_amr !! node);
      al' ← py_remove pos al;
      Ok (AMR.set_alignments (<[node := al']> (AMR.alignments gold_amr)) gold_amr)
    else Ok gold_amr
  else Ok gold_amr.

(** [for i, tok in enumerate(gold_amr.tokens): ...] *)
Fixpoint clean_from (i : nat) (toks : list string) (gold_amr : AMR.t) : result AMR.t :=
  match toks with
  | [] => Ok gold_amr
  | tok :: rest =>
      gold_amr ← clean_token gold_amr i tok;
      clean_from (S i) rest gold_amr
  end.

Definition clean_alignments (gold_amr : AMR.t) : result AMR.t :=
  clean_from 0 (AMR.tokens gold_amr) gold_amr.

(** The block "add root". *)
Definition add_root (gold_amr : AMR.t) : AMR.t :=
  AMR.mk (AMR.tokens gold_amr ++ ["<ROOT>"%string])
         (<[(-1)%Z := "<ROOT>"%string]> (AMR.nodes gold_amr))
         (AMR.edges gold_amr ++ [((-1)%Z, "root"%string, AMR.root gold_amr)])
         (AMR.root gold_amr)
         (<[(-1)%Z := [(-1)%Z]]> (AMR.alignments gold_amr)).

(** The body of [for sent_idx, gold_amr in enumerate(self.gold_amrs)] with
    [add_unaligned = 0], as [main] calls [runOracle]; writing the output
    files is left out.  [None] stands for a loop still running after [fuel]
    passes. *)
Definition runOracle_sentence (fuel : nat) (self : Oracle.t) (gold_amr : AMR.t)
    : result (option (list Action * Oracle.t * SM.t * AMR.t)) :=
  tr ← new_machine (AMR.tokens gold_amr) 0;
  gold_amr ← clean_alignments gold_amr;
  let gold_amr := add_root gold_amr in
  r ← derive_close fuel self tr gold_amr;
  match r with
  | Some (acts, self, tr) =>
      gold_amr ← AMR.del_node (-1) gold_amr;
      Ok (Some (acts, self, tr, gold_amr))
  | None => Ok None
  end.

(** What the run of a sentence shows to the outside: the actions, the final
    configuration and the gold graph, without the oracle object. *)
Definition sentence_outcome (r : result (option (list Action * Oracle.t * SM.t * AMR.t)))
    : result (option (list Action * SM.t * AMR.t)) :=
  match r with
  | Ok (Some (acts, _, tr, gold_amr)) => Ok (Some (acts, tr, gold_amr))
  | Ok None => Ok None
  | Raise e => Raise e
  end.

(** *** The cleanup rule as the specification words it *)

(** A token position aligned to exactly the two nodes [a0], [a1], with no
    gold edge inside the pair. *)
Definition ambiguous (gold_amr : AMR.t) (pos a0 a1 : Z) : Prop :=
  alignmentsToken2Node gold_amr pos = [a0; a1] ∧
  Forall (fun e : edge => ¬ (e.1.1 ∈ [a0; a1] ∧ e.2 ∈ [a0; a1])) (AMR.edges gold_amr).

(** [gold_amr'] is [gold_amr] with one occurrence of [pos] taken out of the
    alignment list of [node], and nothing else changed. *)
Definition removes_link (gold_amr gold_amr' : AMR.t) (pos node : Z) : Prop :=
  ∃ al al', AMR.alignments gold_amr !! node = Some al ∧
            py_remove pos al = Ok al' ∧
            gold_amr' = AMR.set_alignments (<[node := al']> (AMR.alignments gold_amr))
                                           gold_amr.

(** The node that the specification prefers to unlink: one "whose label
    does NOT share a 2-character prefix with the token text and whose
    alignment set is not already the larger of the two". *)
Definition stated_preference (gold_amr : AMR.t) (tok : string) (n other : Z) : bool :=
  match AMR.nodes gold_amr !! n, AMR.alignments gold_amr !! n,
        AMR.alignments gold_amr !! other with
  | Some label, Some al, Some al_other =>
      negb (startswith label (slice2 tok))
      && negb (bool_decide (length al_other < length al))
  | _, _, _ => false
  end.

(** The specification's choice: the preferred node when the preference
    singles one out, and "tie-break removes the second node's link". *)
Definition stated_choice (gold_amr : AMR.t) (tok : string) (a0 a1 : Z) : Z :=
  if stated_preference gold_amr tok a0 a1 && negb (stated_preference gold_amr tok a1 a0)
  then a0 else a1.

(** The cleanup rule as the specification states it, for the token [tok]
    at index [i]. *)
Definition stated_cleanup (gold_amr : AMR.t) (i : nat) (tok : string) : Prop :=
  ∀ a0 a1, ambiguous gold_amr (Z.of_nat i + 1) a0 a1 →
    ∃ gold_amr', clean_token gold_amr i tok = Ok gold_amr' ∧
      removes_link gold_amr gold_amr' (Z.of_nat i + 1) (stated_choice gold_amr tok a0 a1).

(** The stall rule as the specification states it: both collections are
    emptied and the stall is counted, that is, the pass leaves a mark in
    the oracle object, where the statistics of a run are kept. *)
Definition stated_stall (self : Oracle.t) (tr : SM.t) (gold_amr : AMR.t) : Prop :=
  stall self tr gold_amr →
  ∃ self' tr', step self tr gold_amr = Ok (Break, self', tr') ∧
    SM.stack tr' = [] ∧ SM.buffer tr' = [] ∧ self' ≠ self.

End sentence.

(** ** Reference collaborators

    Concrete instances of the two interfaces, used to run the oracle on
    examples. *)

Module Model.

(** Modelled from the spec: [alignmentsToken2Node] of the graph class, which
    "returns the (possibly empty) set of node ids aligned to a token"; the
    ids are listed in increasing order. *)
Definition alignmentsToken2Node (a : AMR.t) (token_id : Z) : list Z :=
  merge_sort Z.le
    (map fst (filter (fun kv : Z * list Z => token_id ∈ kv.2)
                     (map_to_list (AMR.alignments a)))).

(** Modelled from the spec: [findSubGraph] of the graph class, which returns
    the induced subgraph with its root, "the node in the set with no
    incoming edge from another member of the set"; it raises when there is
    no unique such node. *)
Definition findSubGraph (a : AMR.t) (ids : list Z) : result SubGraph.t :=
  let edges := filter (fun e : edge => e.1.1 ∈ ids ∧ e.2 ∈ ids) (AMR.edges a) in
  match filter (fun n => ¬ Exists (fun e : edge => e.2 = n ∧ e.1.1 ≠ n) edges) ids with
  | [r] => Ok (SubGraph.mk r edges)
  | _ => Raise GraphError
  end.

#[export] Instance graph : GraphOps := Build_GraphOps alignmentsToken2Node findSubGraph.

(** Modelled from the spec: the constructor of [AMRStateMachine], which is
    "created fresh per sentence": an empty stack, the token positions in the
    buffer with position 1 on top and the root sentinel at the bottom. *)
Definition new_machine (tokens : list string) (add_unaligned : nat) : result SM.t :=
  let positions := map (fun i => (Z.of_nat i + 1)%Z) (seq 0 (length tokens)) in
  Ok (SM.mk [] ((-1)%Z :: rev positions) []
        (AMR.mk (tokens ++ ["<ROOT>"%string])
                (<[(-1)%Z := "<ROOT>"%string]> (list_to_map (zip positions tokens)))
                [] (-1)%Z ∅)
        [] ∅ [] ∅ ∅).

Definition log (a : string) (stack buffer : list Z) (amr : AMR.t) (tr : SM.t) : SM.t :=
  SM.mk stack buffer (SM.latent tr) amr (SM.actions tr ++ [a]) (SM.merged_tokens tr)
        (SM.entities tr) (SM.is_confirmed tr) (SM.swapped_words tr).

Definition add_edge (e : edge) (a : AMR.t) : AMR.t :=
  AMR.mk (AMR.tokens a) (AMR.nodes a) (AMR.edges a ++ [e]) (AMR.root a) (AMR.alignments a).

Definition set_node (k : Z) (l : string) (a : AMR.t) : AMR.t :=
  AMR.mk (AMR.tokens a) (<[k := l]> (AMR.nodes a)) (AMR.edges a) (AMR.root a)
         (AMR.alignments a).

(** Modelled from the spec: SHIFT, "move buffer[-1] to stack[-1]". *)
Definition SHIFT (tr : SM.t) : result SM.t :=
  match rev (SM.buffer tr) with
  | [] => Raise IndexError
  | b0 :: rb => Ok (log "SHIFT" (SM.stack tr ++ [b0]) (rev rb) (SM.amr tr) tr)
  end.

(** Modelled from the spec: REDUCE, "delete token from stack[-1]". *)
Definition REDUCE (tr : SM.t) : result SM.t :=
  match rev (SM.stack tr) with
  | [] => Raise IndexError
  | _ :: rs => Ok (log "REDUCE" (rev rs) (SM.buffer tr) (SM.amr tr) tr)
  end.

(** Modelled from the spec: CONFIRM, "assign a node concept"; the item joins
    [is_confirmed], the "ids whose concept label has been finalized". *)
Definition CONFIRM (node_label : string) (tr : SM.t) : result SM.t :=
  stack0 ← of_option IndexError (py_last (SM.stack tr));
  let tr := log "CONFIRM" (SM.stack tr) (SM.buffer tr)
                (set_node stack0 node_label (SM.amr tr)) tr in
  Ok (SM.mk (SM.stack tr) (SM.buffer tr) (SM.latent tr) (SM.amr tr) (SM.actions tr)
            (SM.merged_tokens tr) (SM.entities tr) ({[stack0]} ∪ SM.is_confirmed tr)
            (SM.swapped_words tr)).

(** Modelled from the spec: SWAP, "move stack[-2] to buffer"; the pair is
    recorded in [swapped_words], "id -> set of ids it has been swapped
    past". *)
Definition SWAP (tr : SM.t) : result SM.t :=
  match rev (SM.stack tr) with
  | stack0 :: stack1 :: rs =>
      let tr := log "SWAP" (rev rs ++ [stack0]) (SM.buffer tr ++ [stack1]) (SM.amr tr) tr in
      Ok (SM.mk (SM.stack tr) (SM.buffer tr) (SM.latent tr) (SM.amr tr) (SM.actions tr)
                (SM.merged_tokens tr) (SM.entities tr) (SM.is_confirmed tr)
                (<[stack1 := default [] (SM.swapped_words tr !! stack1) ++ [stack0]]>
                   (SM.swapped_words tr)))
  | _ => Raise IndexError
  end.

(** Modelled from the spec: LA(label), "stack[-1] parent of stack[-2]". *)
Definition LA (edge_label : string) (tr : SM.t) : result SM.t :=
  match rev (SM.stack tr) with
  | stack0 :: stack1 :: _ =>
      Ok (log "LA" (SM.stack tr) (SM.buffer tr)
              (add_edge (stack0, edge_label, stack1) (SM.amr tr)) tr)
  | _ => Raise IndexError
  end.

(** Modelled from the spec: RA(label), "stack[-2] parent of stack[-1]". *)
Definition RA (edge_label : string) (tr : SM.t) : result SM.t :=
  match rev (SM.stack tr) with
  | stack0 :: stack1 :: _ =>
      Ok (log "RA" (SM.stack tr) (SM.buffer tr)
              (add_edge (stack1, edge_label, stack0) (SM.amr tr)) tr)
  | _ => Raise IndexError
  end.

(** Modelled from the spec: MERGE, "merge two tokens (for MWEs)": the second
    item is absorbed into the top one, whose entry in [merged_tokens] lists
    the "absorbed token indices". *)
Definition MERGE (tr : SM.t) : result SM.t :=
  match rev (SM.stack tr) with
  | stack0 :: stack1 :: rs =>
      let own k := default [k] (SM.merged_tokens tr !! k) in
      let tr := log "MERGE" (rev rs ++ [stack0]) (SM.buffer tr) (SM.amr tr) tr in
      Ok (SM.mk (SM.stack tr) (SM.buffer tr) (SM.latent tr) (SM.amr tr) (SM.actions tr)
                (<[stack0 := own stack1 ++ own stack0]> (SM.merged_tokens tr))
                (SM.entities tr) (SM.is_confirmed tr) (SM.swapped_words tr))
  | _ => Raise IndexError
  end.

(** Modelled from the spec: ENTITY(type), "form a named entity": the top
    item takes the entity type as its label and joins [entities]. *)
Definition ENTITY (entity_type : string) (tr : SM.t) : result SM.t :=
  stack0 ← of_option IndexError (py_last (SM.stack tr));
  let tr := log "ENTITY" (SM.stack tr) (SM.buffer tr)
                (set_node stack0 entity_type (SM.amr tr)) tr in
  Ok (SM.mk (SM.stack tr) (SM.buffer tr) (SM.latent tr) (SM.amr tr) (SM.actions tr)
            (SM.merged_tokens tr) (SM.entities tr ++ [stack0]) (SM.is_confirmed tr)
            (SM.swapped_words tr)).

(** Modelled from the spec: DEPENDENT(edge,node), "Add a node which is a
    dependent of stack[-1]"; without [node_id] the node gets a fresh id. *)
Definition DEPENDENT (edge_label node_label : string) (node_id : option Z) (tr : SM.t)
    : result SM.t :=
  stack0 ← of_option IndexError (py_last (SM.stack tr));
  let fresh :=
    (1 + foldr Z.max (Z.of_nat (length (AMR.tokens (SM.amr tr))))
               (map fst (map_to_list (AMR.nodes (SM.amr tr)))))%Z in
  let new_id := default fresh node_id in
  Ok (log "DEPENDENT" (SM.stack tr) (SM.buffer tr)
          (add_edge (stack0, edge_label, new_id) (set_node new_id node_label (SM.amr tr)))
          tr).

(** Modelled from the spec: INTRODUCE, which "reintroduces the most recently
    matching latent node onto the stack". *)
Definition INTRODUCE (tr : SM.t) : result SM.t :=
  match rev (SM.latent tr) with
  | [] => Raise IndexError
  | l0 :: rl =>
      Ok (SM.set_latent (rev rl)
            (log "INTRODUCE" (SM.stack tr ++ [l0]) (SM.buffer tr) (SM.amr tr) tr))
  end.

(** Modelled from the spec: CLOSE, "complete AMR, run post-processing"; only
    the entry in the action log is kept. *)
Definition CLOSE (gold_amr : AMR.t) (tr : SM.t) : result SM.t :=
  Ok (log "CLOSE" (SM.stack tr) (SM.buffer tr) (SM.amr tr) tr).

#[export] Instance machine : MachineOps :=
  Build_MachineOps new_machine MERGE ENTITY CONFIRM DEPENDENT INTRODUCE LA RA REDUCE SWAP
                   SHIFT CLOSE.

End Model.

(** ** Example inputs *)

Module Examples.
Import Model.

(** "the dog runs", aligned one to one, with run-01 -ARG0-> dog. *)
Definition dog_runs : AMR.t :=
  AMR.mk ["the"; "dog"; "runs"]%string
         (list_to_map [(1, "the"); (2, "dog"); (3, "run-01")]%Z%string)
         [(3, "ARG0"%string, 2)%Z] 3%Z
         (list_to_map [(1, [1]); (2, [2]); (3, [3])]%Z).

(** The gold graph of [dog_runs] as the loop sees it. *)
Definition dog_runs_rooted : AMR.t := add_root dog_runs.

(** A configuration of the machine with a given stack, buffer and log. *)
Definition config (stack buffer : list Z) (actions : list string)
    (confirmed : list Z) (swapped : list (Z * list Z)) : SM.t :=
  SM.mk stack buffer []
        (AMR.mk ["the"; "dog"; "runs"; "<ROOT>"]%string
                (list_to_map [(1, "the"); (2, "dog"); (3, "runs"); (-1, "<ROOT>")]%Z%string)
                [] (-1)%Z ∅)
        actions ∅ [] (list_to_set confirmed) (list_to_map swapped).

(** "the" has just been shifted. *)
Definition after_shift : SM.t := config [1%Z] [-1; 3; 2]%Z ["SHIFT"%string] [] [].

(** "dog" and "runs" are on the stack, both confirmed. *)
Definition dog_and_runs : SM.t :=
  config [2; 3]%Z [(-1)%Z] ["SHIFT"; "CONFIRM"; "SHIFT"; "CONFIRM"]%string [2; 3]%Z [].

(** The same stack after "dog" was swapped past "runs". *)
Definition once_swapped : SM.t :=
  config [2; 3]%Z [(-1)%Z] ["SWAP"; "SHIFT"]%string [2; 3]%Z [(2%Z, [3%Z])].

(** One token linked to two unrelated nodes; the first node is also linked
    to the second token. *)
Definition two_nodes : AMR.t :=
  AMR.mk ["cat"; "sat"]%string
         (list_to_map [(1, "dog"); (2, "bird")]%Z%string)
         [] 1%Z
         (list_to_map [(1, [1; 2]); (2, [1])]%Z).

(** One token that starts with a character of two bytes, linked to two
    unrelated nodes; the label of the second node shares the first
    character with the token, but not the second. *)
Definition accented : AMR.t :=
  AMR.mk ["éa"]%string
         (list_to_map [(1, "x"); (2, "éb")]%Z%string)
         [] 1%Z
         (list_to_map [(1, [1]); (2, [1])]%Z).

(** A gold graph with an edge to a node that no token is aligned to. *)
Definition unreachable : AMR.t :=
  add_root
    (AMR.mk ["a"%string]
            (list_to_map [(10, "a-01"); (11, "b")]%Z%string)
            [(10, "ARG0"%string, 11)%Z] 10%Z
            (list_to_map [(10%Z, [1%Z])])).

(** The configuration in which the derivation of [unreachable] stalls. *)
Definition stalled : SM.t :=
  SM.mk [1%Z] [] []
        (AMR.mk ["a"; "<ROOT>"]%string
                (list_to_map [(1, "a-01"); (-1, "<ROOT>")]%Z%string)
                [((-1)%Z, "root"%string, 1%Z)] (-1)%Z ∅)
        ["SHIFT"; "CONFIRM"; "SHIFT"; "CONFIRM"; "LA"; "REDUCE"]%string
        ∅ [] {[1%Z; (-1)%Z]} ∅.

(** "New York": two tokens aligned to the same four nodes. *)
Definition new_york : AMR.t :=
  AMR.mk ["New"; "York"]%string
         (list_to_map [(1, "city"); (2, "name"); (3, "New"); (4, "York")]%Z%string)
         [(1, ":name"%string, 2); (2, ":op1"%string, 3); (2, ":op2"%string, 4)]%Z 1%Z
         (list_to_map [(1, [1; 2]); (2, [1; 2]); (3, [1; 2]); (4, [1; 2])]%Z).

(** Four tokens where "c" governs "a" across "b". *)
Definition crossing : AMR.t :=
  AMR.mk ["a"; "b"; "c"; "d"]%string
         (list_to_map [(1, "a"); (2, "b"); (3, "c"); (4, "d")]%Z%string)
         [(3, ":x"%string, 1); (4, ":y"%string, 2)]%Z 4%Z
         (list_to_map [(1, [1]); (2, [2]); (3, [3]); (4, [4])]%Z).

(** "go" with a negation that no token realizes. *)
Definition not_go : AMR.t :=
  add_root
    (AMR.mk ["go"%string]
            (list_to_map [(1, "go-01"); (2, "-")]%Z%string)
            [(1, ":polarity"%string, 2)%Z] 1%Z
            (list_to_map [(1%Z, [1%Z])])).

(** The configuration a sentence starts with. *)
Definition fresh (tokens : list string) : SM.t :=
  match new_machine tokens 0 with
  | Ok tr => tr
  | Raise _ => SM.mk [] [] [] (AMR.mk [] ∅ [] 0%Z ∅) [] ∅ [] ∅ ∅
  end.

(** An oracle object that has been used before. *)
Definition used : Oracle.t :=
  Oracle.count Stats.LA "run-01 ARG0 dog"
    (Oracle.set_new_node "dog" (Oracle.set_new_edge "ARG0" Oracle.init)).

End Examples.

(** ** Further notions used by the properties below *)

Section more_notions.
Context {G : GraphOps}.

(** The gold node of an alignment as [isHead] resolves it: the root of the
    aligned subgraph when there is more than one node, the first node
    otherwise. *)
Definition head_root (gold_amr : AMR.t) (al : list Z) : result Z :=
  if bool_decide (1 < length al) then subgraph_root gold_amr al
  else of_option IndexError (al !! 0).

End more_notions.

(** A dictionary holds no key twice. *)
Definition is_dict {K V} (d : list (K * V)) : Prop := NoDup (map fst d).

(** The table [preds2Ints] numbers the labels it holds with 0, 1, 2, ...
    without gaps or repetitions. *)
Definition numbered (m : gmap string nat) : Prop :=
  (∀ k v, m !! k = Some v → v < size m)
  ∧ (∀ k1 k2 v, m !! k1 = Some v → m !! k2 = Some v → k1 = k2).

(** [gold_amr'] is [gold_amr] with some token positions taken out of
    alignment lists, and nothing else changed. *)
Definition only_unlinked (gold_amr gold_amr' : AMR.t) : Prop :=
  AMR.tokens gold_amr' = AMR.tokens gold_amr
  ∧ AMR.nodes gold_amr' = AMR.nodes gold_amr
  ∧ AMR.edges gold_amr' = AMR.edges gold_amr
  ∧ AMR.root gold_amr' = AMR.root gold_amr
  ∧ ∀ n, match AMR.alignments gold_amr' !! n, AMR.alignments gold_amr !! n with
         | Some al', Some al => sublist al' al
         | None, None => True
         | _, _ => False
         end.

(** ** The corpus loop of [runOracle] *)

Section corpus.
Context {G : GraphOps} {M : MachineOps}.

(** [for sent_idx, gold_amr in enumerate(self.gold_amrs)] with [start = 0]:
    the sentences are run one after the other on the same oracle object.
    The result lists, for each sentence, the actions, the final
    configuration and the gold graph; [None] stands for a sentence whose
    loop is still running after [fuel] passes. *)
Fixpoint runOracle (fuel : nat) (self : Oracle.t) (gold_amrs : list AMR.t)
    : result (option (list (list Action * SM.t * AMR.t) * Oracle.t)) :=
  match gold_amrs with
  | [] => Ok (Some ([], self))
  | gold_amr :: rest =>
      r ← runOracle_sentence fuel self gold_amr;
      match r with
      | None => Ok None
      | Some (acts, self, tr, gold_amr) =>
          r' ← runOracle fuel self rest;
          match r' with
          | None => Ok None
          | Some (outs, self) => Ok (Some ((acts, tr, gold_amr) :: outs, self))
          end
      end
  end.

End corpus.

(** ** The alignment utilities of [align_cfg]

    [align_cfg/amr_utils.py] and [align_cfg/evaluation.py] work on graph
    objects of their own reader.  Node ids are of any type with decidable
    equality; a dictionary is the list of its items in insertion order, the
    order in which Python iterates over it. *)

From stdpp Require pretty.

Module Align.

Inductive exn : Set :=
  | KeyError          (* d[k] for an absent key *)
  | IndexError        (* l[0] on an empty list, l[i] out of range *)
  | AttributeError    (* None.keys() *)
  | AssertionError.   (* a failed assert *)

Inductive outcome (A : Type) : Type :=
  | Ok (a : A)
  | Raise (e : exn).
Arguments Ok {A} a.
Arguments Raise {A} e.

#[global] Instance outcome_ret : MRet outcome := fun A a => Ok a.
#[global] Instance outcome_bind : MBind outcome := fun A B f m =>
  match m with
  | Ok a => f a
  | Raise e => Raise e
  end.

Section dicts.
Context {K : Type} `{EqDecision K}.

(** [d[k]] *)
Fixpoint get {V} (d : list (K * V)) (k : K) : outcome V :=
  match d with
  | [] => Raise KeyError
  | (k', v) :: d' => if decide (k = k') then Ok v else get d' k
  end.

(** [k in d] *)
Definition has {V} (d : list (K * V)) (k : K) : bool :=
  bool_decide (k ∈ map fst d).

(** [del d[k]] for a key of [d] *)
Definition del {V} (d : list (K * V)) (k : K) : list (K * V) :=
  filter (fun kv => kv.1 ≠ k) d.

End dicts.

(** [l[0]] and [l[-1]] *)
Definition first (l : list Z) : outcome Z :=
  match l with
  | x :: _ => Ok x
  | [] => Raise IndexError
  end.

Definition final (l : list Z) : outcome Z :=
  match last l with
  | Some x => Ok x
  | None => Raise IndexError
  end.

(** *** [amr_utils.safe_read] *)

(** The graph objects that [read_amr2] returns, as far as [safe_read]
    looks at them: [root] and [alignments] may be [None], and so may the
    alignment of a node. *)
Record graph (K : Type) := mk_graph {
  g_tokens : list string;
  g_nodes : list (K * string);
  g_edges : list (K * string * K);
  g_root : option K;
  g_alignments : option (list (K * option (list Z)))
}.
Arguments mk_graph {K} _ _ _ _ _.
Arguments g_tokens {K} _.
Arguments g_nodes {K} _.
Arguments g_edges {K} _.
Arguments g_root {K} _.
Arguments g_alignments {K} _.

Section safe_read.
Context {K : Type} `{EqDecision K}.

(** The block [if remove_none_edges] for one graph: an edge stays when its
    target is a node. *)
Definition prune_edges (amr : graph K) : graph K :=
  mk_graph (g_tokens amr) (g_nodes amr)
           (filter (fun e : K * string * K => has (g_nodes amr) e.2 = true) (g_edges amr))
           (g_root amr) (g_alignments amr).

(** [for k in node_ids] of the block [if remove_empty_align], over the
    keys listed before the loop. *)
Fixpoint prune_keys (nodes : list (K * string)) (node_ids : list K)
    (alignments : list (K * option (list Z))) : outcome (list (K * option (list Z))) :=
  match node_ids with
  | [] => Ok alignments
  | k :: rest =>
      v ← get alignments k;
      match v with
      | None => prune_keys nodes rest (del alignments k)
      | Some _ =>
          if has nodes k then prune_keys nodes rest alignments
          else prune_keys nodes rest (del alignments k)
      end
  end.

Definition prune_alignments (amr : graph K) : outcome (graph K) :=
  match g_alignments amr with
  | None => Raise AttributeError
  | Some al =>
      al' ← prune_keys (g_nodes amr) (map fst al) al;
      Ok (mk_graph (g_tokens amr) (g_nodes amr) (g_edges amr) (g_root amr) (Some al'))
  end.

(** The final block "Check". *)
Definition check (amr : graph K) : outcome unit :=
  if bool_decide (0 < length (g_tokens amr)) then
    match g_root amr with
    | Some _ => Ok tt
    | None => Raise AssertionError
    end
  else Raise AssertionError.

(** The blocks [if max_length > 0], [if check_for_edges] and
    [if remove_none_edges], in this order. *)
Definition stage_corpus (max_length : Z) (check_for_edges remove_none_edges : bool)
    (corpus : list (graph K)) : list (graph K) :=
  let corpus :=
    if bool_decide (0 < max_length)%Z
    then filter (fun amr => ¬ (max_length < Z.of_nat (length (g_tokens amr)))%Z) corpus
    else corpus in
  let corpus :=
    if check_for_edges
    then filter (fun amr => length (g_edges amr) ≠ 0) corpus
    else corpus in
  if remove_none_edges then map prune_edges corpus else corpus.

(** The block [if remove_empty_align and corpus[0].alignments is not None]. *)
Definition prune_corpus (remove_empty_align : bool) (corpus : list (graph K))
    : outcome (list (graph K)) :=
  if remove_empty_align then
    match corpus with
    | [] => Raise IndexError                   (* corpus[0] *)
    | amr0 :: _ =>
        match g_alignments amr0 with
        | Some _ => mapM prune_alignments corpus
        | None => Ok corpus
        end
    end
  else Ok corpus.

(** [safe_read], from the corpus that [read_amr2] has read; the counters
    it only prints are left out. *)
Definition safe_read (corpus : list (graph K)) (max_length : Z)
    (check_for_edges remove_empty_align remove_none_edges : bool)
    : outcome (list (graph K)) :=
  corpus ← prune_corpus remove_empty_align
             (stage_corpus max_length check_for_edges remove_none_edges corpus);
  _ ← mapM check corpus;
  Ok corpus.

End safe_read.

(** *** [amr_utils.get_tree_edges] *)

(** What [helper] reads and writes: the set [seen], with the node added
    last in front, and the list [new_edges] of tuples
    [(s, y, t, prefix, new_prefix)]. *)
Abbreviation visited K := (list K * list (K * string * K * string * string))%type.

Section tree_edges.
Context {K : Type} `{EqDecision K}.

(** [d[k].append(v)] on a [defaultdict(list)]: a new key is entered after
    the ones already there. *)
Fixpoint append_at {V} (d : list (K * list V)) (k : K) (v : V) : list (K * list V) :=
  match d with
  | [] => [(k, [v])]
  | (k', vs) :: d' =>
      if decide (k = k') then (k', vs ++ [v]) :: d' else (k', vs) :: append_at d' k v
  end.

(** [d[k] = v]: the value of a key already there is replaced in place. *)
Fixpoint setitem {V} (d : list (K * V)) (k : K) (v : V) : list (K * V) :=
  match d with
  | [] => [(k, v)]
  | (k', v') :: d' => if decide (k = k') then (k', v) :: d' else (k', v') :: setitem d' k v
  end.

(** The first loop of [get_tree_edges]: the edges by their source. *)
Definition node_TO_edges (edges : list (K * string * K)) : list (K * list (K * string * K)) :=
  foldl (fun d e => append_at d e.1.1 e) [] edges.

(** [for i, e in enumerate(node_TO_edges[root])], from the [i]-th edge on;
    [helper] is the recursive call.  [None] stands for a call that has not
    returned within the depth allowed. *)
Fixpoint visit (helper : K → string → visited K → option (outcome (visited K)))
    (root : K) (prefix : string) (es : list (K * string * K)) (i : nat) (st : visited K)
    : option (outcome (visited K)) :=
  match es with
  | [] => Some (Ok st)
  | (s, y, t) :: rest =>
      if decide (s = root) then
        if bool_decide (t ∈ st.1) then visit helper root prefix rest (S i) st
        else
          let seen := t :: st.1 in
          let new_prefix := (prefix +:+ "." +:+ pretty.pretty i)%string in
          let new_edges := st.2 ++ [(s, y, t, prefix, new_prefix)] in
          match helper t new_prefix (seen, new_edges) with
          | Some (Ok st) => visit helper root prefix rest (S i) st
          | r => r
          end
      else Some (Raise AssertionError)
  end.

(** [helper(root, prefix)], with calls nested at most [depth] deep. *)
Fixpoint helper (depth : nat) (node_TO_edges : list (K * list (K * string * K)))
    (root : K) (prefix : string) (st : visited K) : option (outcome (visited K)) :=
  match depth with
  | 0 => None
  | S depth =>
      if has node_TO_edges root then
        match get node_TO_edges root with
        | Ok es => visit (helper depth node_TO_edges) root prefix es 0 st
        | Raise e => Some (Raise e)
        end
      else Some (Ok st)
  end.

(** [get_tree_edges(amr)].  A root that is [None] is no source of an edge,
    so that [helper] returns at once. *)
Definition get_tree_edges (depth : nat) (amr : graph K)
    : option (outcome (list (K * string * K * string * string))) :=
  let node_TO_edges := node_TO_edges (g_edges amr) in
  match g_root amr with
  | Some root =>
      match helper depth node_TO_edges root "0" ([root], []) with
      | Some (Ok st) => Some (Ok st.2)
      | Some (Raise e) => Some (Raise e)
      | None => None
      end
  | None => Some (Ok [])
  end.

(** The target of an edge of the result. *)
Definition target (e : K * string * K * string * string) : K := e.1.1.2.

(** [v] can be reached from [u] along edges of the graph. *)
Definition reaches (edges : list (K * string * K)) : K → K → Prop :=
  rtc (fun u v => ∃ y, (u, y, v) ∈ edges).

End tree_edges.

(** *** [amr_utils.convert_amr_to_tree] *)

(** [sorted(l, key=...)], where [lt x y] tells that the key of [x] is below
    the key of [y]: items with equal keys keep their order. *)
Fixpoint insert_by {A} (lt : A → A → bool) (x : A) (l : list A) : list A :=
  match l with
  | [] => [x]
  | y :: l' => if lt x y then x :: y :: l' else y :: insert_by lt x l'
  end.

Definition sorted_by {A} (lt : A → A → bool) (l : list A) : list A :=
  foldl (fun acc x => insert_by lt x acc) [] l.

(** The dictionary [tree].  Node ids are strings, which Python compares
    by code points, as [String.compare] does on their bytes. *)
Record tree := mk_tree {
  t_root : option string;
  t_node_to_children : list (string * list string);
  t_edge_to_label : list (string * string * string);
  t_edges : list (string * string);
  t_node_ids : list string
}.

(** [get_node_ids] *)
Definition get_node_ids (amr : graph string) : list string :=
  sorted_by String.ltb (map fst (g_nodes amr)).

(** The order of the keys [(a, b)] of [sortkey]. *)
Definition sortkey_lt (x y : string * string * string * string * string) : bool :=
  String.ltb x.1.2 y.1.2 || (String.eqb x.1.2 y.1.2 && String.ltb x.2 y.2).

(** [for e in sorted(safe_edges, key=sortkey)] *)
Fixpoint tree_loop (es : list (string * string * string * string * string)) (tr : tree)
    : outcome tree :=
  match es with
  | [] => Ok tr
  | (s, y, t, a, b) :: rest =>
      if String.leb a b then
        tree_loop rest
          (mk_tree (t_root tr)
                   (append_at (t_node_to_children tr) s t)
                   (setitem (t_edge_to_label tr) (s, t) y)
                   (t_edges tr ++ [(s, t)])
                   (t_node_ids tr))
      else Raise AssertionError
  end.

(** [convert_amr_to_tree(amr)], with the depth allowed to [helper]. *)
Definition convert_amr_to_tree (depth : nat) (amr : graph string) : option (outcome tree) :=
  let tree := mk_tree (g_root amr) [] [] [] (get_node_ids amr) in
  match get_tree_edges depth amr with
  | Some (Ok safe_edges) => Some (tree_loop (sorted_by sortkey_lt safe_edges) tree)
  | Some (Raise e) => Some (Raise e)
  | None => None
  end.

(** *** The recall metrics of [evaluation.py] *)

(** The graph objects handed to [Metric.update], which reads [tokens],
    [nodes] and [alignments] (a dictionary from node ids to lists of token
    positions). *)
Record amr (K : Type) := mk_amr {
  tokens : list string;
  nodes : list (K * string);
  alignments : list (K * list Z)
}.
Arguments mk_amr {K} _ _ _.
Arguments tokens {K} _.
Arguments nodes {K} _.
Arguments alignments {K} _.

(** [Metric.state], a [defaultdict(list)], and [state[key].append(v)]. *)
Abbreviation state := (gmap string (list Z)).

Definition record (key : string) (v : Z) (s : state) : state :=
  <[key := default [] (s !! key) ++ [v]]> s.

(** [collections.Counter(tokens)[text]] *)
Definition text_count (tokens : list string) (text : string) : nat :=
  length (filter (fun t => t = text) tokens).

Section metrics.
Context {K : Type} `{EqDecision K}.

(** The loop of [CorpusRecall.update]. *)
Fixpoint corpus_recall_loop (gold_align pred_align : list (K * list Z)) (keys : list K)
    (total correct : Z) : outcome (Z * Z) :=
  match keys with
  | [] => Ok (total, correct)
  | node_id :: rest =>
      pl ← get pred_align node_id;
      p0 ← first pl;
      let p := (p0 - 1)%Z in
      gl ← get gold_align node_id;
      g0 ← first gl;
      let g := (g0 - 1)%Z in
      let total := (total + 1)%Z in
      let correct := if bool_decide (p = g) then (correct + 1)%Z else correct in
      corpus_recall_loop gold_align pred_align rest total correct
  end.

(** [CorpusRecall.update] *)
Definition CorpusRecall_update (s : state) (gold pred : amr K) : outcome state :=
  r ← corpus_recall_loop (alignments gold) (alignments pred) (map fst (alignments gold)) 0 0;
  Ok (record "correct" r.2 (record "total" r.1 s)).

(** The loop of [CorpusRecall_ExcludeNode.update]. *)
Fixpoint exclude_loop (exclude : list string) (gold : amr K) (pred_align : list (K * list Z))
    (keys : list K) (total correct skipped : Z) : outcome (Z * Z * Z) :=
  match keys with
  | [] => Ok (total, correct, skipped)
  | node_id :: rest =>
      node_name ← get (nodes gold) node_id;
      if bool_decide (node_name ∈ exclude)
      then exclude_loop exclude gold pred_align rest total correct (skipped + 1)%Z
      else
        pl ← get pred_align node_id;
        p0 ← first pl;
        let p := (p0 - 1)%Z in
        gl ← get (alignments gold) node_id;
        g0 ← first gl;
        let g := (g0 - 1)%Z in
        let total := (total + 1)%Z in
        let correct := if bool_decide (p = g) then (correct + 1)%Z else correct in
        exclude_loop exclude gold pred_align rest total correct skipped
  end.

(** [CorpusRecall_ExcludeNode.update] *)
Definition ExcludeNode_update (exclude : list string) (s : state) (gold pred : amr K)
    : outcome state :=
  r ← exclude_loop exclude gold (alignments pred) (map fst (alignments gold)) 0 0 0;
  Ok (record "skipped" r.2 (record "correct" r.1.2 (record "total" r.1.1 s))).

(** The loop of [CorpusRecall_DuplicateText.update]. *)
Fixpoint duplicate_loop (gold : amr K) (pred_align : list (K * list Z)) (keys : list K)
    (total correct duplicate fixed : Z) : outcome (Z * Z * Z * Z) :=
  match keys with
  | [] => Ok (total, correct, duplicate, fixed)
  | node_id :: rest =>
      pl ← get pred_align node_id;
      p0 ← first pl;
      let p := (p0 - 1)%Z in
      gl ← get (alignments gold) node_id;
      g0 ← first gl;
      let g := (g0 - 1)%Z in
      text_name ← match py_index (tokens gold) g with
                  | Some t => Ok t
                  | None => Raise IndexError
                  end;
      let dup := bool_decide (1 < text_count (tokens gold) text_name) in
      let duplicate := if dup then (duplicate + 1)%Z else duplicate in
      let fix_it := dup && negb (bool_decide (p = g)) in
      let fixed := if fix_it then (fixed + 1)%Z else fixed in
      let p := if fix_it then g else p in
      let total := (total + 1)%Z in
      let correct := if bool_decide (p = g) then (correct + 1)%Z else correct in
      duplicate_loop gold pred_align rest total correct duplicate fixed
  end.

(** [CorpusRecall_DuplicateText.update] *)
Definition DuplicateText_update (s : state) (gold pred : amr K) : outcome state :=
  r ← duplicate_loop gold (alignments pred) (map fst (alignments gold)) 0 0 0 0;
  Ok (record "fixed" r.2
        (record "duplicate" r.1.2 (record "correct" r.1.1.2 (record "total" r.1.1.1 s)))).

(** [CorpusRecall_IgnoreURL.update] *)
Definition IgnoreURL_update (s : state) (gold pred : amr K) : outcome state :=
  let sentence := join " " (tokens gold) in
  if str_in "http" sentence then Ok (record "skipped" 1 s)
  else
    r ← corpus_recall_loop (alignments gold) (alignments pred) (map fst (alignments gold)) 0 0;
    Ok (record "correct" r.2 (record "total" r.1 s)).

(** The loop of [CorpusRecall_WithGoldSpans.update]. *)
Fixpoint spans_loop (gold_align pred_align : list (K * list Z)) (keys : list K)
    (total correct : Z) : outcome (Z * Z) :=
  match keys with
  | [] => Ok (total, correct)
  | node_id :: rest =>
      pl ← get pred_align node_id;
      if bool_decide (length pl = 1) then
        pl ← get pred_align node_id;
        p0 ← first pl;
        let p := (p0 - 1)%Z in
        gl ← get gold_align node_id;
        g0 ← first gl;
        let g0 := (g0 - 1)%Z in
        gl ← get gold_align node_id;
        g1 ← final gl;
        let g1 := (g1 - 1)%Z in
        let total := (total + 1)%Z in
        let correct :=
          if bool_decide (g0 ≤ p)%Z && bool_decide (p ≤ g1)%Z then (correct + 1)%Z
          else correct in
        spans_loop gold_align pred_align rest total correct
      else Raise AssertionError
  end.

(** [CorpusRecall_WithGoldSpans.update] *)
Definition WithGoldSpans_update (s : state) (gold pred : amr K) : outcome state :=
  r ← spans_loop (alignments gold) (alignments pred) (map fst (alignments gold)) 0 0;
  Ok (record "correct" r.2 (record "total" r.1 s)).

(** The flags that the loop of [CorpusRecall_WithDupsAndSpans.update]
    carries along with its two counts. *)
Record flags := mk_flags { is_span : bool; is_duplicate : bool; is_fixed : bool }.

(** The loop of [CorpusRecall_WithDupsAndSpans.update]. *)
Fixpoint dups_spans_loop (gold : amr K) (pred_align : list (K * list Z)) (keys : list K)
    (total correct : Z) (fl : flags) : outcome (Z * Z * flags) :=
  match keys with
  | [] => Ok (total, correct, fl)
  | node_id :: rest =>
      pl ← get pred_align node_id;
      if bool_decide (length pl = 1) then
        pl ← get pred_align node_id;
        p0 ← first pl;
        let p := (p0 - 1)%Z in
        gl ← get (alignments gold) node_id;
        g0 ← first gl;
        let g0 := (g0 - 1)%Z in
        gl ← get (alignments gold) node_id;
        g1 ← final gl;
        let g1 := (g1 - 1)%Z in
        gl ← get (alignments gold) node_id;
        let span := if bool_decide (0 < length gl) then true else is_span fl in
        let is_correct := bool_decide (g0 ≤ p)%Z && bool_decide (p ≤ g1)%Z in
        text_name ← match py_index (tokens gold) g0 with
                    | Some t => Ok t
                    | None => Raise IndexError
                    end;
        let dup := bool_decide (1 < text_count (tokens gold) text_name) in
        let duplicate := if dup then true else is_duplicate fl in
        let fixed := if dup && negb is_correct then true else is_fixed fl in
        let is_correct := if dup then true else is_correct in
        let correct := if is_correct then (correct + 1)%Z else correct in
        let total := (total + 1)%Z in
        dups_spans_loop gold pred_align rest total correct (mk_flags span duplicate fixed)
      else Raise AssertionError
  end.

Definition to_int (b : bool) : Z := if b then 1%Z else 0%Z.

(** [CorpusRecall_WithDupsAndSpans.update] *)
Definition WithDupsAndSpans_update (s : state) (gold pred : amr K) : outcome state :=
  r ← dups_spans_loop gold (alignments pred) (map fst (alignments gold)) 0 0
        (mk_flags false false false);
  let fl := r.2 in
  let is_duplicate_and_fixed := is_duplicate fl && is_fixed fl in
  let is_both := is_span fl && is_duplicate fl in
  let is_both_and_fixed := is_both && is_fixed fl in
  Ok (record "is_both_and_fixed" (to_int is_both_and_fixed)
        (record "is_both" (to_int is_both)
           (record "is_span" (to_int (is_span fl))
              (record "is_duplicate_and_fixed" (to_int is_duplicate_and_fixed)
                 (record "is_duplicate" (to_int (is_duplicate fl))
                    (record "correct" r.1.2 (record "total" r.1.1 s))))))).

End metrics.

End Align.

(** ** What [get_tree_edges] keeps while it walks

    [edges] are the edges of the graph and [r0] is its root. *)

Section tree_invariants.
Context {K : Type} `{EqDecision K}.
Variables (edges : list (K * string * K)) (r0 : K).

(** Every tuple stems from an edge of the graph. *)
Definition from_graph (out : list (K * string * K * string * string)) : Prop :=
  ∀ s y t a b, (s, y, t, a, b) ∈ out → (s, y, t) ∈ edges.

(** The node [s] was entered with the prefix [a]: it is the root, entered
    with ['0'], or the target of a tuple of [l] whose new prefix is [a]. *)
Definition hangs (l : list (K * string * K * string * string)) (s : K) (a : string) : Prop :=
  (s = r0 ∧ a = "0"%string) ∨ ∃ s' y' a', (s', y', s, a', a) ∈ l.

(** Every tuple extends the prefix with which its source was entered by
    the tuples before it, by the position that its edge has among the
    edges of the graph that leave its source. *)
Definition preorder (out : list (K * string * K * string * string)) : Prop :=
  ∀ l1 s y t a b l2, out = l1 ++ (s, y, t, a, b) :: l2 →
    (∃ i : nat, b = (a +:+ "." +:+ pretty.pretty i)%string
                ∧ filter (fun e : K * string * K => e.1.1 = s) edges !! i = Some (s, y, t))
    ∧ hangs l1 s a.

(** What holds of [new_edges] whenever [helper] is entered or left. *)
Definition grown (out : list (K * string * K * string * string)) : Prop :=
  from_graph out ∧ NoDup (r0 :: map Align.target out) ∧ preorder out.

(** The set [seen] that goes with [new_edges]. *)
Definition seen_of (out : list (K * string * K * string * string)) : list K :=
  rev (map Align.target out) ++ [r0].

(** Every edge that leaves [v] leads to a node of [seen]. *)
Definition closed (out : list (K * string * K * string * string)) (v : K) : Prop :=
  ∀ y t, (v, y, t) ∈ edges → t ∈ r0 :: map Align.target out.

(** What a call of [helper] at depth [depth] does, for [visit] to rely on. *)
Definition helper_spec (depth : nat)
    (h : K → string → Align.visited K → option (Align.outcome (Align.visited K))) : Prop :=
  ∀ root prefix out,
    grown out → hangs out root prefix → length edges < depth + length out →
    ∃ ext,
      h root prefix (seen_of out, out) = Some (Align.Ok (seen_of (out ++ ext), out ++ ext))
      ∧ grown (out ++ ext)
      ∧ closed (out ++ ext) root
      ∧ ∀ v, v ∈ map Align.target ext → closed (out ++ ext) v.

End tree_invariants.

(** ** Further example inputs *)

Module Cases.

(** The gold graph of "New York" as the loop sees it. *)
Definition new_york_rooted : AMR.t := add_root Examples.new_york.

(** "New" is on the stack and "York" is next in the buffer. *)
Definition before_merge : SM.t :=
  SM.mk [1%Z] [-1; 2]%Z []
        (AMR.mk ["New"; "York"; "<ROOT>"]%string
                (list_to_map [(1, "New"); (2, "York"); (-1, "<ROOT>")]%Z%string)
                [] (-1)%Z ∅)
        ["SHIFT"%string] ∅ [] ∅ ∅.

(** "runs" below "dog": the stack of [Examples.dog_and_runs] the other way
    round. *)
Definition runs_and_dog : SM.t :=
  Examples.config [3; 2]%Z [(-1)%Z] ["SHIFT"; "CONFIRM"; "SHIFT"; "CONFIRM"]%string
                  [2; 3]%Z [].

(** "go" is on the stack and confirmed. *)
Definition go_confirmed : SM.t :=
  SM.mk [1%Z] [(-1)%Z] []
        (AMR.mk ["go"; "<ROOT>"]%string
                (list_to_map [(1, "go-01"); (-1, "<ROOT>")]%Z%string)
                [] (-1)%Z ∅)
        ["SHIFT"; "CONFIRM"]%string ∅ [] {[1%Z]} ∅.

(** "New" and "York" have been merged into the item 2. *)
Definition merged : SM.t :=
  SM.mk [2%Z] [(-1)%Z] []
        (AMR.mk ["New"; "York"; "<ROOT>"]%string
                (list_to_map [(1, "New"); (2, "York"); (-1, "<ROOT>")]%Z%string)
                [] (-1)%Z ∅)
        ["SHIFT"; "SHIFT"; "MERGE"]%string (list_to_map [(2%Z, [1; 2]%Z)]) [] ∅ ∅.

(** "runs" is on the stack while "dog" and "the" wait in [latent]. *)
Definition with_latent : SM.t :=
  SM.mk [3%Z] [(-1)%Z] [2; 1]%Z
        (AMR.mk ["the"; "dog"; "runs"; "<ROOT>"]%string
                (list_to_map [(1, "the"); (2, "dog"); (3, "run-01"); (-1, "<ROOT>")]%Z%string)
                [] (-1)%Z ∅)
        ["SHIFT"; "CONFIRM"]%string ∅ [] {[3%Z]} ∅.

(** The gold graph of [Examples.crossing] as the loop sees it. *)
Definition crossing_rooted : AMR.t := add_root Examples.crossing.

(** "a", "b" and "c" are on the stack, all confirmed: "b" stands between
    "c" and its dependent "a". *)
Definition blocked_arc : SM.t :=
  SM.mk [1; 2; 3]%Z [-1; 4]%Z []
        (AMR.mk ["a"; "b"; "c"; "d"; "<ROOT>"]%string
                (list_to_map [(1, "a"); (2, "b"); (3, "c"); (4, "d"); (-1, "<ROOT>")]%Z%string)
                [] (-1)%Z ∅)
        ["SHIFT"; "CONFIRM"; "SHIFT"; "CONFIRM"; "SHIFT"; "CONFIRM"]%string
        ∅ [] {[1%Z; 2%Z; 3%Z]} ∅.

(** A corpus for [safe_read]: the second graph has an edge to a node that
    does not exist and an alignment for a node that does not exist. *)
Definition read_corpus : list (Align.graph string) :=
  [Align.mk_graph ["the"; "dog"]%string [("d", "dog")]%string [] (Some "d"%string)
                  (Some [("d"%string, Some [2%Z])]);
   Align.mk_graph ["dogs"; "run"]%string [("r", "run-01"); ("d", "dog")]%string
                  [("r", ":ARG0", "d"); ("r", ":ARG1", "x")]%string (Some "r"%string)
                  (Some [("r"%string, Some [2%Z]); ("x"%string, Some [1%Z]);
                         ("d"%string, None)]);
   Align.mk_graph ["a"; "very"; "long"; "sentence"]%string [("s", "sentence")]%string []
                  (Some "s"%string) (Some [("s"%string, Some [4%Z])])].

(** Gold and predicted alignments of "the dog saw the cat". *)
Definition gold_alignment : Align.amr string :=
  Align.mk_amr ["the"; "dog"; "saw"; "the"; "cat"]%string
               [("s", "see-01"); ("d", "dog"); ("c", "cat"); ("t", "the")]%string
               [("s"%string, [3%Z]); ("d"%string, [1; 2]%Z); ("c"%string, [5%Z]);
                ("t"%string, [4%Z])].

Definition pred_alignment : Align.amr string :=
  Align.mk_amr ["the"; "dog"; "saw"; "the"; "cat"]%string
               [("s", "see-01"); ("d", "dog"); ("c", "cat"); ("t", "the")]%string
               [("s"%string, [3%Z]); ("d"%string, [2%Z]); ("c"%string, [4%Z]);
                ("t"%string, [1%Z])].

(** A graph with a cycle between "a" and "b", two ways to "c", and an
    edge to "d", which is no node. *)
Definition cyclic : Align.graph string :=
  Align.mk_graph ["a"; "b"; "c"]%string
                 [("b", "bark-01"); ("a", "and"); ("c", "cat")]%string
                 [("a", ":op1", "b"); ("b", ":ARG0", "a"); ("a", ":op2", "c");
                  ("b", ":ARG1", "c"); ("c", ":mod", "d")]%string
                 (Some "a"%string) None.

End Cases.

(** * Properties *)

(** ** Outcomes *)

Lemma bind_Ok {A B} (m : result A) (f : A → result B) (b : B) :
  (m ≫= f) = Ok b → ∃ a, m = Ok a ∧ f a = Ok b.
Proof. destruct m as [a|e]; [eauto | discriminate]. Qed.

Lemma py_remove_elem (x : Z) (l : list Z) :
  x ∈ l → ∃ l', py_remove x l = Ok l'.
Proof.
  induction l as [|y l IH]; [by intros ?%elem_of_nil|].
  intros Hx. cbn. case_bool_decide; [eauto|].
  apply elem_of_cons in Hx as [->|Hx]; [done|].
  destruct (IH Hx) as [l' ->]. cbn. eauto.
Qed.

(** ** The subgraph resolver *)

Section resolver_properties.
Context {G : GraphOps}.

Lemma isHead_scan_unassigned amr_edges x y source target gold_edges r :
  isHead_scan amr_edges x y source target gold_edges = (true, r) →
  ((x, r, y) ∉ amr_edges) ∧ ((source, r, target) ∈ gold_edges).
Proof.
  induction gold_edges as [|[[s r'] t] rest IH]; cbn; [discriminate|].
  destruct (bool_decide (source = s) && bool_decide (target = t)
            && negb (bool_decide ((x, r', y) ∈ amr_edges))) eqn:Hc.
  - intros [= <-].
    apply andb_prop in Hc as [[Hs%bool_decide_eq_true Ht%bool_decide_eq_true]%andb_prop
                                Hn%negb_true_iff%bool_decide_eq_false].
    subst. split; [done | by left].
  - intros [? ?]%IH. split; [done | by right].
Qed.

(** C2. Whenever [isHead] answers [(True, r)] for the items [x] and [y],
    the edge [(x, r, y)] is not in the predicted graph: an edge that has
    been predicted is not reported as derivable again. *)
Theorem isHead_never_reports_predicted_edge (amr gold_amr : AMR.t) (x y : Z) (r : string) :
  isHead amr gold_amr x y = Ok (true, r) →
  (x, r, y) ∉ AMR.edges amr.
Proof.
  unfold isHead.
  destruct (_ || _); [discriminate|].
  intros (source & _ & (target & _ & [= Hscan])%bind_Ok)%bind_Ok.
  by apply isHead_scan_unassigned in Hscan as [? _].
Qed.

End resolver_properties.

Lemma isHead_never_reports_predicted_edge_witness :
  @isHead Model.graph (SM.amr Examples.dog_and_runs) Examples.dog_runs_rooted 3 2
    = Ok (true, "ARG0"%string)
  ∧ (3%Z, "ARG0"%string, 2%Z) ∉ AMR.edges (SM.amr Examples.dog_and_runs).
Proof.
  split; [vm_compute; reflexivity|].
  apply (isHead_never_reports_predicted_edge (G := Model.graph)
           (SM.amr Examples.dog_and_runs) Examples.dog_runs_rooted 3 2 "ARG0").
  vm_compute; reflexivity.
Defined.

(** ** The predicates *)

Section predicate_properties.
Context {G : GraphOps}.

(** The set intersection of [tryMerge] only asks whether the two
    alignments share a node. *)
Lemma overlap_shared_node (first_alignment second_alignment : list Z) :
  (list_to_set first_alignment : gset Z) ∩ list_to_set second_alignment ≠ ∅
  ↔ ∃ n, n ∈ first_alignment ∧ n ∈ second_alignment.
Proof.
  split.
  - intros [n Hn%elem_of_intersection]%set_choose_L. exists n.
    by rewrite !elem_of_list_to_set in Hn.
  - intros (n & H1 & H2) Hempty.
    apply (not_elem_of_empty (C := gset Z) n). rewrite <- Hempty.
    apply elem_of_intersection. by rewrite !elem_of_list_to_set.
Qed.

(** With both arguments given and non-zero, [tryMerge] looks at them and
    not at the stack. *)
Lemma tryMerge_explicit (transitions : SM.t) (amr gold_amr : AMR.t) (a b : Z) :
  a ≠ 0%Z → b ≠ 0%Z →
  tryMerge transitions amr gold_amr (Some a) (Some b)
  = if bool_decide (a = b) then false
    else
      let fa := alignmentsToken2Node gold_amr a in
      let sa := alignmentsToken2Node gold_amr b in
      if bool_decide (fa = []) || bool_decide (sa = []) then false
      else if bool_decide (fa = sa) then true
      else negb (bool_decide ((list_to_set fa : gset Z) ∩ list_to_set sa = ∅)).
Proof.
  intros Ha%Z.eqb_neq Hb%Z.eqb_neq. unfold tryMerge, truthy.
  by rewrite Ha, Hb.
Qed.

(** With a zero among the arguments, Python reads them as missing and
    [tryMerge] falls back on the top two stack items. *)
Lemma tryMerge_zero (transitions : SM.t) (amr gold_amr : AMR.t) (a b : Z) :
  a = 0%Z ∨ b = 0%Z →
  tryMerge transitions amr gold_amr (Some a) (Some b)
  = tryMerge transitions amr gold_amr None None.
Proof.
  unfold tryMerge, truthy. intros [-> | ->]; cbn; [done|].
  by rewrite andb_false_r.
Qed.

(** C10. [tryMerge] gives the same answer for [(first=a, second=b)] and for
    [(first=b, second=a)], and for items [a], [b] (token positions, which
    start at 1, or the root sentinel -1; never 0, which Python takes for a
    missing argument) it answers [False] when [a = b] or when one of them
    has an empty alignment. *)
Theorem tryMerge_symmetric (transitions : SM.t) (amr gold_amr : AMR.t) (a b : Z) :
  tryMerge transitions amr gold_amr (Some a) (Some b)
  = tryMerge transitions amr gold_amr (Some b) (Some a)
  ∧ (a ≠ 0%Z → b ≠ 0%Z →
     a = b ∨ alignmentsToken2Node gold_amr a = []
           ∨ alignmentsToken2Node gold_amr b = [] →
     tryMerge transitions amr gold_amr (Some a) (Some b) = false).
Proof.
  split.
  - destruct (decide (a = 0%Z)) as [Ha|Ha]; [|destruct (decide (b = 0%Z)) as [Hb|Hb]].
    + rewrite !tryMerge_zero by auto. done.
    + rewrite !tryMerge_zero by auto. done.
    + rewrite !tryMerge_explicit by done. cbn zeta.
      rewrite (orb_comm (bool_decide (alignmentsToken2Node gold_amr a = []))).
      rewrite (comm_L (∩) (list_to_set (alignmentsToken2Node gold_amr a) : gset Z)).
      repeat case_bool_decide; congruence.
  - intros Ha Hb Hc. rewrite tryMerge_explicit by done. cbn zeta.
    destruct Hc as [->|[->| ->]].
    + by rewrite bool_decide_eq_true_2.
    + by case_bool_decide.
    + case_bool_decide; [done|]. by rewrite orb_true_r.
Qed.

(** C6. When the top two stack items are recorded in [swapped_words] as
    swapped past each other, in either direction, [trySWAP] answers
    [False]. *)
Theorem trySWAP_blocks_swapped_pair (transitions : SM.t) (amr gold_amr : AMR.t) (a b : Z) :
  py_last (SM.stack transitions) = Some a →
  py_last2 (SM.stack transitions) = Some b →
  (∃ l, SM.swapped_words transitions !! a = Some l ∧ b ∈ l)
  ∨ (∃ l, SM.swapped_words transitions !! b = Some l ∧ a ∈ l) →
  trySWAP transitions amr gold_amr = Ok false.
Proof.
  intros Ha Hb Hsw. unfold trySWAP, swapped_past. rewrite Ha, Hb.
  destruct Hsw as [(l & -> & Hin) | (l & Hl & Hin)].
  - by rewrite bool_decide_eq_true_2.
  - rewrite Hl, (bool_decide_eq_true_2 _ Hin).
    by destruct (SM.swapped_words transitions !! a) as [l'|]; [destruct (bool_decide _)|].
Qed.


End predicate_properties.


Lemma tryMerge_symmetric_witness :
  (1 ≠ 0)%Z ∧ (1 ≠ 0)%Z
  ∧ @tryMerge Model.graph Examples.dog_and_runs (SM.amr Examples.dog_and_runs)
               Examples.dog_runs_rooted (Some 1%Z) (Some 1%Z)
    = false.
Proof.
  split; [lia|]. split; [lia|].
  apply (tryMerge_symmetric (G := Model.graph) Examples.dog_and_runs
           (SM.amr Examples.dog_and_runs) Examples.dog_runs_rooted 1 1);
    [lia | lia | left; reflexivity].
Defined.

Lemma trySWAP_blocks_swapped_pair_witness :
  @trySWAP Model.graph Examples.once_swapped (SM.amr Examples.once_swapped)
           Examples.dog_runs_rooted = Ok false.
Proof.
  apply (trySWAP_blocks_swapped_pair (G := Model.graph) _ _ _ 3%Z 2%Z).
  - reflexivity.
  - reflexivity.
  - right. exists [3%Z]. split; [vm_compute; reflexivity | by left].
Defined.

(** ** What a predicate does to the oracle object

    Each predicate that takes [self] decides from the configuration and
    the gold graph alone; [self] only receives the parameters of the
    action, and only on success. *)

Ltac case_head :=
  match goal with
  | |- ∃ _, ∀ _, (if ?c then _ else _) = _ => destruct c
  | |- ∃ _, ∀ _, mbind _ ?m = _ => destruct m; cbn
  | |- ∃ _, ∀ _, (match ?c with _ => _ end) = _ => destruct c
  end.

Ltac decided :=
  match goal with
  | |- ∃ _, ∀ _, Ok (false, _) = _ => by exists (Ok None)
  | |- ∃ _, ∀ _, Raise ?e = _ => by exists (Raise e)
  end.

Section scratch_properties.
Context {G : GraphOps}.

Lemma tryEntity_decides (transitions : SM.t) (amr gold_amr : AMR.t) :
  ∃ d : result (option string), ∀ self,
    tryEntity self transitions amr gold_amr
    = match d with
      | Ok (Some entity_type) =>
          Ok (true,
              Oracle.set_possibleEntityTypes
                (counter_incr entity_type (Oracle.possibleEntityTypes self))
                (Oracle.set_entity_type entity_type self))
      | Ok None => Ok (false, self)
      | Raise e => Raise e
      end.
Proof.
  unfold tryEntity.
  repeat (first [decided | case_head]).
  match goal with
  | |- ∃ _, ∀ _, Ok (true, _ (_ (join ?s ?l) _) _) = _ => by exists (Ok (Some (join s l)))
  end.
Qed.

Lemma tryConfirm_decides (transitions : SM.t) (amr gold_amr : AMR.t) :
  ∃ d : result (option (string * string)), ∀ self,
    tryConfirm self transitions amr gold_amr
    = match d with
      | Ok (Some (old_node, new_node)) =>
          Ok (true, Oracle.set_new_node new_node (record_predicate old_node new_node self))
      | Ok None => Ok (false, self)
      | Raise e => Raise e
      end.
Proof.
  unfold tryConfirm.
  repeat (first [decided | case_head]).
  match goal with
  | |- ∃ _, ∀ _, Ok (true, Oracle.set_new_node ?n (record_predicate ?o _ _)) = _ =>
      by exists (Ok (Some (o, n)))
  end.
Qed.

Lemma dependent_scan_decides (amr gold_amr : AMR.t) (stack0 source : Z)
    (tok_alignment : list Z) (gold_edges : list edge) :
  ∃ d : result (option (string * string)), ∀ self,
    dependent_scan self amr gold_amr stack0 source tok_alignment gold_edges
    = match d with
      | Ok (Some (r, label)) =>
          Ok (true, Oracle.set_new_node label (Oracle.set_new_edge r self))
      | Ok None => Ok (false, self)
      | Raise e => Raise e
      end.
Proof.
  induction gold_edges as [|[[s r] t] rest IH]; cbn; [decided|].
  destruct (_ && _); [|done].
  destruct (bool_decide _); [done|].
  destruct (_ && _); [done|].
  destruct (AMR.nodes gold_amr !! t) as [label|]; cbn; [|decided].
  by exists (Ok (Some (r, label))).
Qed.

Lemma tryDependent_decides (transitions : SM.t) (amr gold_amr : AMR.t) :
  ∃ d : result (option (string * string)), ∀ self,
    tryDependent self transitions amr gold_amr
    = match d with
      | Ok (Some (r, label)) =>
          Ok (true, Oracle.set_new_node label (Oracle.set_new_edge r self))
      | Ok None => Ok (false, self)
      | Raise e => Raise e
      end.
Proof.
  unfold tryDependent.
  destruct (py_last _) as [stack0|]; [|decided].
  destruct (bool_decide _); [decided|].
  destruct (gold_node _ _) as [source|e]; cbn; [|decided].
  apply dependent_scan_decides.
Qed.

Lemma tryLA_decides (transitions : SM.t) (amr gold_amr : AMR.t) :
  ∃ d : result (option string), ∀ self,
    tryLA self transitions amr gold_amr
    = match d with
      | Ok (Some label) => Ok (true, Oracle.set_new_edge label self)
      | Ok None => Ok (false, self)
      | Raise e => Raise e
      end.
Proof.
  unfold tryLA.
  destruct (py_last _) as [stack0|]; [|decided].
  destruct (py_last2 _) as [stack1|]; [|decided].
  destruct (merge_pending _ _ _ _); [decided|].
  destruct (isHead _ _ _ _) as [[[] label]|e]; cbn; [|decided|decided].
  by exists (Ok (Some label)).
Qed.

Lemma tryRA_decides (transitions : SM.t) (amr gold_amr : AMR.t) :
  ∃ d : result (option string), ∀ self,
    tryRA self transitions amr gold_amr
    = match d with
      | Ok (Some label) => Ok (true, Oracle.set_new_edge label self)
      | Ok None => Ok (false, self)
      | Raise e => Raise e
      end.
Proof.
  unfold tryRA.
  destruct (py_last _) as [stack0|]; [|decided].
  destruct (py_last2 _) as [stack1|]; [|decided].
  destruct (merge_pending _ _ _ _); [decided|].
  destruct (isHead _ _ _ _) as [[[] label]|e]; cbn; [|decided|decided].
  by exists (Ok (Some label)).
Qed.

(** [tryIntroduce] leaves the configuration alone unless it succeeds, and
    then only [latent] is reordered. *)
Lemma tryIntroduce_latent (transitions : SM.t) (amr gold_amr : AMR.t) (b : bool) (tr' : SM.t) :
  tryIntroduce transitions amr gold_amr = Ok (b, tr') →
  if b then ∃ l, tr' = SM.set_latent l transitions else tr' = transitions.
Proof.
  unfold tryIntroduce.
  destruct (py_last _) as [stack0|]; [|by intros [= <- <-]].
  destruct (bool_decide _); [by intros [= <- <-]|].
  destruct (merge_pending _ _ _ _); [by intros [= <- <-]|].
  destruct (introduce_scan _ _ _ _ _ _) as [[l|]|e]; cbn; [| |discriminate].
  - intros [= <- <-]. eauto.
  - by intros [= <- <-].
Qed.

End scratch_properties.

(** ** The loop body *)

Ltac run_branch :=
  repeat match goal with
  | |- mbind _ ?m = Ok _ → _ => destruct m eqn:?; cbn; [|discriminate]
  | |- (if ?c then _ else _) = Ok _ → _ => destruct c eqn:?; cbn
  end.




(** Runs both sides of a comparison of two passes through a branch. *)
Ltac same_branch :=
  repeat match goal with
  | |- match mbind _ ?m with _ => _ end => destruct m; cbn
  | |- match (if ?c then _ else _) with _ => _ end => destruct c; cbn
  end.

Section step_properties.
Context {G : GraphOps} {M : MachineOps}.


(** A pass keeps [dep_id] at [None], and hands [None] to DEPENDENT. *)
Lemma step_dep_id (self : Oracle.t) (tr : SM.t) (gold_amr : AMR.t)
    (flow : Flow) (self' : Oracle.t) (tr' : SM.t) :
  Oracle.dep_id self = None →
  step self tr gold_amr = Ok (flow, self', tr') →
  Oracle.dep_id self' = None
  ∧ ∀ edge_label node_label node_id,
      flow = Continue (A_DEPENDENT edge_label node_label node_id) → node_id = None.
Proof.
  intros Hdep. unfold step.
  destruct (tryMerge tr (SM.amr tr) gold_amr None None).
  { run_branch. intros [= <- <- <-]. by split. }
  destruct (tryEntity_decides tr (SM.amr tr) gold_amr) as [dE ->].
  destruct dE as [[ty|]|e]; cbn; [| |discriminate].
  { run_branch; intros [= <- <- <-]; by split. }
  destruct (tryConfirm_decides tr (SM.amr tr) gold_amr) as [dC ->].
  destruct dC as [[[old new]|]|e]; cbn; [| |discriminate].
  { run_branch; intros [= <- <- <-]; by split. }
  destruct (tryDependent_decides tr (SM.amr tr) gold_amr) as [dD ->].
  destruct dD as [[[r label]|]|e]; cbn; [| |discriminate].
  { run_branch; intros [= <- <- <-]. split; [done|]. intros ??? [= _ _ <-]. done. }
  destruct (tryIntroduce tr (SM.amr tr) gold_amr) as [[[] trI]|e]; cbn; [| |discriminate].
  { run_branch; intros [= <- <- <-]; by split. }
  destruct (tryLA_decides trI (SM.amr trI) gold_amr) as [dL ->].
  destruct dL as [[labelL|]|e]; cbn; [| |discriminate].
  { run_branch; intros [= <- <- <-]; by split. }
  destruct (tryRA_decides trI (SM.amr trI) gold_amr) as [dR ->].
  destruct dR as [[labelR|]|e]; cbn; [| |discriminate].
  { run_branch; intros [= <- <- <-]; by split. }
  destruct (tryReduce trI (SM.amr trI) gold_amr) as [[]|e]; cbn; [| |discriminate].
  { run_branch; intros [= <- <- <-]; by split. }
  destruct (trySWAP trI (SM.amr trI) gold_amr) as [[]|e]; cbn; [| |discriminate].
  { run_branch; intros [= <- <- <-]; by split. }
  run_branch; intros [= <- <- <-]; by split.
Qed.

(** C9. [dep_id] is [None] when the oracle is created and [tryDependent]
    never assigns it; in a derivation that starts with [dep_id] at [None],
    [dep_id] is [None] again after any number of passes, and every
    DEPENDENT action was invoked with [node_id = None]. *)
Theorem dep_id_stays_none (fuel : nat) (self : Oracle.t) (tr : SM.t) (gold_amr : AMR.t)
    (exited : bool) (acts : list Action) (self' : Oracle.t) (tr' : SM.t) :
  Oracle.dep_id self = None →
  derive fuel self tr gold_amr = Ok (exited, acts, self', tr') →
  Oracle.dep_id Oracle.init = None
  ∧ (∀ self0 tr0 amr0 gold0 b self1,
       tryDependent self0 tr0 amr0 gold0 = Ok (b, self1) →
       Oracle.dep_id self1 = Oracle.dep_id self0)
  ∧ Oracle.dep_id self' = None
  ∧ ∀ edge_label node_label node_id,
      A_DEPENDENT edge_label node_label node_id ∈ acts → node_id = None.
Proof.
  intros Hdep Hrun. split; [done|]. split.
  { intros self0 tr0 amr0 gold0 b self1.
    destruct (tryDependent_decides tr0 amr0 gold0) as [d ->].
    destruct d as [[[r label]|]|e]; [| |discriminate]; by intros [= <- <-]. }
  revert self tr exited acts self' tr' Hdep Hrun.
  induction fuel as [|fuel IH]; intros self tr exited acts self' tr' Hdep; cbn.
  - destruct (_ && _); intros [= <- <- <- <-]; (split; [done|]);
      by intros ??? ?%elem_of_nil.
  - destruct (_ && _).
    { intros [= <- <- <- <-]. split; [done|]. by intros ??? ?%elem_of_nil. }
    destruct (step self tr gold_amr) as [[[flow self1] tr1]|e] eqn:Hstep; cbn; [|discriminate].
    destruct (step_dep_id _ _ _ _ _ _ Hdep Hstep) as [Hdep1 Hact].
    destruct flow as [a|].
    + destruct (derive fuel self1 tr1 gold_amr) as [[[[ex1 acts1] self2] tr2]|e] eqn:Hrest;
        cbn; [|discriminate].
      intros [= <- <- <- <-].
      destruct (IH _ _ _ _ _ _ Hdep1 Hrest) as [Hdep2 Hacts].
      split; [done|]. intros el nl id [<-|Hin]%elem_of_cons; [by eapply Hact | by eapply Hacts].
    + intros [= <- <- <- <-]. split; [done|]. by intros ??? ?%elem_of_nil.
Qed.

(** Two passes from the same configuration, with oracle objects that
    agree on [dep_id], do the same. *)
Lemma step_oracle_independent (self1 self2 : Oracle.t) (tr : SM.t) (gold_amr : AMR.t) :
  Oracle.dep_id self1 = Oracle.dep_id self2 →
  match step self1 tr gold_amr, step self2 tr gold_amr with
  | Ok (flow1, self1', tr1), Ok (flow2, self2', tr2) =>
      flow1 = flow2 ∧ tr1 = tr2 ∧ Oracle.dep_id self1' = Oracle.dep_id self2'
  | Raise e1, Raise e2 => e1 = e2
  | _, _ => False
  end.
Proof.
  intros Hdep. unfold step.
  destruct (tryMerge tr (SM.amr tr) gold_amr None None).
  { by same_branch. }
  destruct (tryEntity_decides tr (SM.amr tr) gold_amr) as [dE HE]. rewrite !HE.
  destruct dE as [[ty|]|e]; cbn; [|clear HE|done].
  { by same_branch. }
  destruct (tryConfirm_decides tr (SM.amr tr) gold_amr) as [dC HC]. rewrite !HC.
  destruct dC as [[[old new]|]|e]; cbn; [|clear HC|done].
  { by same_branch. }
  destruct (tryDependent_decides tr (SM.amr tr) gold_amr) as [dD HD]. rewrite !HD.
  destruct dD as [[[r label]|]|e]; cbn; [|clear HD|done].
  { rewrite Hdep. by same_branch. }
  destruct (tryIntroduce tr (SM.amr tr) gold_amr) as [[[] trI]|e]; cbn; [| |done].
  { by same_branch. }
  destruct (tryLA_decides trI (SM.amr trI) gold_amr) as [dL HL]. rewrite !HL.
  destruct dL as [[labelL|]|e]; cbn; [|clear HL|done].
  { by same_branch. }
  destruct (tryRA_decides trI (SM.amr trI) gold_amr) as [dR HR]. rewrite !HR.
  destruct dR as [[labelR|]|e]; cbn; [|clear HR|done].
  { by same_branch. }
  destruct (tryReduce trI (SM.amr trI) gold_amr) as [[]|e]; cbn; [| |done].
  { by same_branch. }
  destruct (trySWAP trI (SM.amr trI) gold_amr) as [[]|e]; cbn; [| |done].
  { by same_branch. }
  by same_branch.
Qed.

(** The same for the loop, whatever the number of passes. *)
Lemma derive_oracle_independent (fuel : nat) (self1 self2 : Oracle.t) (tr : SM.t)
    (gold_amr : AMR.t) :
  Oracle.dep_id self1 = Oracle.dep_id self2 →
  derive_outcome (derive fuel self1 tr gold_amr)
  = derive_outcome (derive fuel self2 tr gold_amr).
Proof.
  revert self1 self2 tr.
  induction fuel as [|fuel IH]; intros self1 self2 tr Hdep; cbn.
  - by destruct (_ && _).
  - destruct (_ && _); [done|].
    pose proof (step_oracle_independent self1 self2 tr gold_amr Hdep) as Hstep.
    destruct (step self1 tr gold_amr) as [[[flow1 s1] tr1]|e1],
             (step self2 tr gold_amr) as [[[flow2 s2] tr2]|e2]; cbn; try done.
    + destruct Hstep as (<- & <- & Hdep'). destruct flow1 as [a|]; [|done].
      specialize (IH s1 s2 tr1 Hdep').
      destruct (derive fuel s1 tr1 gold_amr) as [[[[ex1 acts1] s1'] tr1']|e1],
               (derive fuel s2 tr1 gold_amr) as [[[[ex2 acts2] s2'] tr2']|e2];
        cbn in *; congruence.
    + by subst.
Qed.

(** C8. The derivation of a sentence is a function of its tokens and gold
    graph: two runs that differ only in what the oracle object holds from
    earlier work (scratch fields, tables, statistics) apply the same
    sequence of actions, end in the same configuration and gold graph, and
    fail alike.  The sets of the source are finite sets here, consulted
    for membership and emptiness only. *)
Theorem derivation_deterministic (fuel : nat) (self1 self2 : Oracle.t) (gold_amr : AMR.t) :
  Oracle.dep_id self1 = Oracle.dep_id self2 →
  sentence_outcome (runOracle_sentence fuel self1 gold_amr)
  = sentence_outcome (runOracle_sentence fuel self2 gold_amr).
Proof.
  intros Hdep. unfold runOracle_sentence.
  destruct (new_machine _ _) as [tr|e]; cbn; [|done].
  destruct (clean_alignments gold_amr) as [gold|e]; cbn; [|done].
  unfold derive_close.
  pose proof (derive_oracle_independent fuel self1 self2 tr (add_root gold) Hdep) as Hrun.
  destruct (derive fuel self1 tr (add_root gold)) as [[[[ex1 acts1] s1] tr1]|e1],
           (derive fuel self2 tr (add_root gold)) as [[[[ex2 acts2] s2] tr2]|e2];
    cbn in Hrun |- *; try discriminate; [|congruence].
  injection Hrun as <- <- <-.
  destruct ex1; cbn; [|done].
  destruct (CLOSE (add_root gold) tr1) as [tr'|e]; cbn; [|done].
  by destruct (AMR.del_node (-1) (add_root gold)).
Qed.

(** A stalled pass changes nothing but the two collections it empties. *)
Lemma stall_step (self : Oracle.t) (tr : SM.t) (gold_amr : AMR.t) :
  stall self tr gold_amr → step self tr gold_amr = Ok (Break, self, SM.clear tr).
Proof.
  intros (Hbuf & _ & Hno). unfold step.
  pose proof (Hno Stats.MERGE) as HM. cbn in HM. injection HM as ->.
  pose proof (Hno Stats.ENTITY) as HE. cbn [holds] in HE.
  destruct (tryEntity_decides tr (SM.amr tr) gold_amr) as [dE HdE]. rewrite HdE in HE |- *.
  destruct dE as [[ty|]|e]; [done| |done]. cbn.
  pose proof (Hno Stats.CONFIRM) as HC. cbn [holds] in HC.
  destruct (tryConfirm_decides tr (SM.amr tr) gold_amr) as [dC HdC]. rewrite HdC in HC |- *.
  destruct dC as [[[old new]|]|e]; [done| |done]. cbn.
  pose proof (Hno Stats.DEPENDENT) as HD. cbn [holds] in HD.
  destruct (tryDependent_decides tr (SM.amr tr) gold_amr) as [dD HdD]. rewrite HdD in HD |- *.
  destruct dD as [[[r label]|]|e]; [done| |done]. cbn.
  pose proof (Hno Stats.INTRODUCE) as HI. cbn [holds] in HI.
  destruct (tryIntroduce tr (SM.amr tr) gold_amr) as [[bI trI]|e] eqn:HtI; [|done].
  pose proof (tryIntroduce_latent _ _ _ _ _ HtI) as HtrI.
  injection HI as ->. subst trI. cbn.
  pose proof (Hno Stats.LA) as HL. cbn [holds] in HL.
  destruct (tryLA_decides tr (SM.amr tr) gold_amr) as [dL HdL]. rewrite HdL in HL |- *.
  destruct dL as [[labelL|]|e]; [done| |done]. cbn.
  pose proof (Hno Stats.RA) as HR. cbn [holds] in HR.
  destruct (tryRA_decides tr (SM.amr tr) gold_amr) as [dR HdR]. rewrite HdR in HR |- *.
  destruct dR as [[labelR|]|e]; [done| |done]. cbn.
  pose proof (Hno Stats.REDUCE) as HRed. pose proof (Hno Stats.SWAP) as HSw.
  cbn [holds] in HRed, HSw. rewrite HRed. cbn. rewrite HSw. cbn.
  by rewrite (bool_decide_eq_true_2 _ Hbuf).
Qed.

(** C4, as the driver has it. In a stall the pass empties stack and buffer
    and leaves the loop, CLOSE is still invoked on the emptied
    configuration, and the oracle object, statistics included, is left
    as it was. *)
Theorem stall_forces_exit (fuel : nat) (self : Oracle.t) (tr : SM.t) (gold_amr : AMR.t) :
  stall self tr gold_amr →
  step self tr gold_amr = Ok (Break, self, SM.clear tr)
  ∧ SM.stack (SM.clear tr) = [] ∧ SM.buffer (SM.clear tr) = []
  ∧ derive_close (S fuel) self tr gold_amr
    = (tr' ← CLOSE gold_amr (SM.clear tr); Ok (Some ([], self, tr'))).
Proof.
  intros Hstall. pose proof (stall_step _ _ _ Hstall) as Hstep.
  destruct Hstall as (_ & Hstack & _).
  repeat split; [done|].
  unfold derive_close. cbn [derive].
  rewrite (bool_decide_eq_false_2 _ Hstack), andb_false_r, Hstep. done.
Qed.

End step_properties.

(** The derivation of "the dog runs" with the reference collaborators. *)
Example dog_runs_derivation :
  ∃ self' tr',
    @derive Model.graph Model.machine 20 Oracle.init
            (Examples.fresh ["the"; "dog"; "runs"]%string) Examples.dog_runs_rooted
    = Ok (true,
          [A_SHIFT; A_CONFIRM "the"; A_REDUCE; A_SHIFT; A_CONFIRM "dog"; A_SHIFT;
           A_CONFIRM "run-01"; A_LA "ARG0"; A_SHIFT; A_CONFIRM "<ROOT>"; A_LA "root";
           A_REDUCE; A_REDUCE; A_REDUCE],
          self', tr')
    ∧ AMR.edges (SM.amr tr') = [(3, "ARG0"%string, 2); (-1, "root"%string, 3)]%Z.
Proof. vm_compute. do 2 eexists. split; reflexivity. Qed.

(** "New York" is merged and then made an entity. *)
Example new_york_derivation :
  ∃ self' tr' gold',
    @runOracle_sentence Model.graph Model.machine 20 Oracle.init Examples.new_york
    = Ok (Some ([A_SHIFT; A_SHIFT; A_MERGE; A_ENTITY "city,name"; A_SHIFT;
                 A_CONFIRM "<ROOT>"; A_LA "root"; A_REDUCE; A_REDUCE],
                self', tr', gold'))
    ∧ Stats.entity (Oracle.stats self') !! "New,York (city,name)"%string = Some 1.
Proof. vm_compute. do 3 eexists. split; reflexivity. Qed.

(** "b" is swapped out of the way of the arc from "c" to "a", and the pair
    is recorded. *)
Example crossing_derivation :
  ∃ self' tr' gold',
    @runOracle_sentence Model.graph Model.machine 30 Oracle.init Examples.crossing
    = Ok (Some ([A_SHIFT; A_CONFIRM "a"; A_SHIFT; A_CONFIRM "b"; A_SHIFT; A_CONFIRM "c";
                 A_SWAP; A_LA ":x"; A_REDUCE; A_REDUCE; A_SHIFT; A_SHIFT; A_CONFIRM "d";
                 A_LA ":y"; A_SHIFT; A_CONFIRM "<ROOT>"; A_LA "root"; A_REDUCE; A_REDUCE;
                 A_REDUCE],
                self', tr', gold'))
    ∧ SM.swapped_words tr' !! 2%Z = Some [3%Z].
Proof. vm_compute. do 3 eexists. split; reflexivity. Qed.

(** The derivation of [Examples.unreachable] reaches [Examples.stalled]. *)
Example unreachable_derivation :
  ∃ self',
    @derive Model.graph Model.machine 6 Oracle.init (Examples.fresh ["a"%string])
            Examples.unreachable
    = Ok (false,
          [A_SHIFT; A_CONFIRM "a-01"; A_SHIFT; A_CONFIRM "<ROOT>"; A_LA "root"; A_REDUCE],
          self', Examples.stalled).
Proof. vm_compute. eexists. reflexivity. Qed.


Lemma dep_id_stays_none_witness :
  ∃ self' tr',
    @derive Model.graph Model.machine 20 Oracle.init (Examples.fresh ["go"%string])
            Examples.not_go
    = Ok (true,
          [A_SHIFT; A_CONFIRM "go-01"; A_DEPENDENT ":polarity" "-" None; A_SHIFT;
           A_CONFIRM "<ROOT>"; A_LA "root"; A_REDUCE; A_REDUCE],
          self', tr')
    ∧ Oracle.dep_id self' = None.
Proof.
  assert (∃ self' tr',
            @derive Model.graph Model.machine 20 Oracle.init (Examples.fresh ["go"%string])
                    Examples.not_go
            = Ok (true,
                  [A_SHIFT; A_CONFIRM "go-01"; A_DEPENDENT ":polarity" "-" None; A_SHIFT;
                   A_CONFIRM "<ROOT>"; A_LA "root"; A_REDUCE; A_REDUCE],
                  self', tr')) as (self' & tr' & Hrun).
  { vm_compute. do 2 eexists. reflexivity. }
  exists self', tr'. split; [exact Hrun|].
  destruct (dep_id_stays_none (G := Model.graph) (M := Model.machine)
              20 Oracle.init _ _ _ _ _ _ eq_refl Hrun) as (_ & _ & Hnone & _).
  exact Hnone.
Defined.

Lemma derivation_deterministic_witness :
  sentence_outcome (@runOracle_sentence Model.graph Model.machine 20 Oracle.init
                                        Examples.dog_runs)
  = sentence_outcome (@runOracle_sentence Model.graph Model.machine 20 Examples.used
                                          Examples.dog_runs).
Proof.
  apply (derivation_deterministic (G := Model.graph) (M := Model.machine)).
  reflexivity.
Defined.

Lemma stall_forces_exit_witness :
  @stall Model.graph Oracle.init Examples.stalled Examples.unreachable
  ∧ @step Model.graph Model.machine Oracle.init Examples.stalled Examples.unreachable
    = Ok (Break, Oracle.init, SM.clear Examples.stalled).
Proof.
  assert (@stall Model.graph Oracle.init Examples.stalled Examples.unreachable) as Hstall.
  { split; [reflexivity|]. split; [discriminate|]. intros []; vm_compute; reflexivity. }
  split; [exact Hstall|].
  apply (stall_forces_exit (G := Model.graph) (M := Model.machine) 0 _ _ _ Hstall).
Defined.

(** C4, as stated, fails: the stalled pass of [Examples.stalled] leaves
    no record in the oracle object. *)
Lemma stall_not_counted :
  ¬ @stated_stall Model.graph Model.machine Oracle.init Examples.stalled Examples.unreachable.
Proof.
  intros Hstated.
  destruct Hstated as (self' & tr' & Hstep & _ & _ & Hcounted).
  { split; [reflexivity|]. split; [discriminate|]. intros []; vm_compute; reflexivity. }
  rewrite (stall_step (G := Model.graph) (M := Model.machine)) in Hstep.
  - injection Hstep as <- _. by apply Hcounted.
  - split; [reflexivity|]. split; [discriminate|]. intros []; vm_compute; reflexivity.
Qed.

(** ** The cleanup of alignments *)

Section cleanup_properties.
Context {G : GraphOps}.

Lemma filter_none {A} (P : A → Prop) `{∀ x, Decision (P x)} (l : list A) :
  Forall (fun x => ¬ P x) l → filter P l = [].
Proof.
  induction 1 as [|x l Hx _ IH]; [done|].
  by rewrite filter_cons_False.
Qed.

(** C3, as the code has it. For a token linked to exactly two nodes with
    no gold edge inside the pair, the cleanup takes one occurrence of the
    token position out of the alignment list of one of the two nodes and
    changes nothing else: the first node's list when the label of the
    second node starts with the first two characters of the token or the
    list of the first node is the longer one, the second node's list
    otherwise. *)
Theorem clean_token_removes_one_link (gold_amr : AMR.t) (i : nat) (tok : string)
    (a0 a1 : Z) (label1 : string) (al0 al1 : list Z) :
  let pos := (Z.of_nat i + 1)%Z in
  ambiguous gold_amr pos a0 a1 →
  AMR.nodes gold_amr !! a1 = Some label1 →
  AMR.alignments gold_amr !! a0 = Some al0 →
  AMR.alignments gold_amr !! a1 = Some al1 →
  pos ∈ al0 → pos ∈ al1 →
  ∃ gold_amr',
    clean_token gold_amr i tok = Ok gold_amr'
    ∧ removes_link gold_amr gold_amr' pos
        (if startswith label1 (slice2 tok) || bool_decide (length al1 < length al0)
         then a0 else a1).
Proof.
  intros pos [Halign Hedges] Hlabel Hal0 Hal1 Hin0 Hin1.
  unfold clean_token. fold pos. rewrite Halign. cbn [length].
  rewrite bool_decide_eq_true_2 by done.
  rewrite (filter_none _ _ Hedges), bool_decide_eq_true_2 by done.
  cbn. rewrite Hlabel. cbn.
  destruct (py_remove_elem _ _ Hin0) as [al0' Hrem0].
  destruct (py_remove_elem _ _ Hin1) as [al1' Hrem1].
  destruct (startswith label1 (slice2 tok)); cbn.
  - rewrite Hal0. cbn. rewrite Hrem0. cbn. eexists. split; [done|].
    by exists al0, al0'.
  - rewrite Hal0, Hal1. cbn. case_bool_decide; cbn.
    + rewrite Hal0. cbn. rewrite Hrem0. cbn. eexists. split; [done|]. by exists al0, al0'.
    + rewrite Hal1. cbn. rewrite Hrem1. cbn. eexists. split; [done|]. by exists al1, al1'.
Qed.

End cleanup_properties.

Lemma clean_token_removes_one_link_witness :
  ∃ gold_amr',
    @clean_token Model.graph Examples.two_nodes 0 "cat" = Ok gold_amr'
    ∧ @removes_link Examples.two_nodes gold_amr' 1 1.
Proof.
  apply (clean_token_removes_one_link (G := Model.graph) Examples.two_nodes 0 "cat"
           1%Z 2%Z "bird" [1; 2]%Z [1%Z]).
  - split; [vm_compute; reflexivity | constructor].
  - vm_compute; reflexivity.
  - vm_compute; reflexivity.
  - vm_compute; reflexivity.
  - by left.
  - by left.
Defined.

(** What the cleanup does with "cat" in [Examples.two_nodes], and what the
    stated rule would choose. *)
Example two_nodes_cleanup :
  @clean_token Model.graph Examples.two_nodes 0 "cat"
  = Ok (AMR.set_alignments (list_to_map [(1, [2]); (2, [1])]%Z) Examples.two_nodes)
  ∧ stated_choice Examples.two_nodes "cat" 1 2 = 2%Z.
Proof. split; vm_compute; reflexivity. Qed.

(** [tok[:2]] counts characters, not bytes: for "éa" it is "éa", with
    which the label "éb" does not start, so that the cleanup unlinks the
    second node. *)
Example accented_cleanup :
  slice2 "éa" = "éa"%string
  ∧ @clean_token Model.graph Examples.accented 0 "éa"
    = Ok (AMR.set_alignments (list_to_map [(1, [1]); (2, [])]%Z) Examples.accented).
Proof. split; vm_compute; reflexivity. Qed.

(** On text without characters of several bytes, [tok[:2]] is the first
    two bytes. *)
Lemma take_chars_ascii (n : nat) (s : string) :
  (∀ i c, String.get i s = Some c → continuation c = false) →
  take_chars n s = String.substring 0 n s.
Proof.
  revert n. induction s as [|c s IH]; intros n Hs; [by destruct n|].
  cbn [take_chars]. rewrite (Hs 0 c eq_refl).
  destruct n as [|n]; [done|]. cbn. f_equal. apply IH.
  intros i c' Hget. by apply (Hs (S i) c').
Qed.

(** C3, as stated, fails on [Examples.two_nodes]: the first node, linked to
    two tokens, has the larger alignment set of the two, and it is its link
    that the cleanup removes. *)
Lemma cleanup_unlinks_larger_alignment :
  ¬ @stated_cleanup Model.graph Examples.two_nodes 0 "cat".
Proof.
  intros Hstated.
  destruct (Hstated 1%Z 2%Z) as (gold_amr' & Hclean & al & al' & _ & _ & ->).
  { split; [vm_compute; reflexivity | constructor]. }
  apply (f_equal (fun r => match r with
                           | Ok g => AMR.alignments g !! 1%Z
                           | Raise _ => None
                           end)) in Hclean.
  vm_compute in Hclean. discriminate.
Qed.

(** * Further properties of the oracle *)

Section more_predicate_properties.
Context {G : GraphOps}.

(** X1. Called without [first] and [second], [tryMerge] answers [True]
    exactly when the stack has two items on top that differ and whose
    alignments share a node; the test for equal alignments adds nothing to
    the test for overlap. *)
Theorem tryMerge_top_two_overlap (transitions : SM.t) (amr gold_amr : AMR.t) :
  tryMerge transitions amr gold_amr None None = true
  ↔ ∃ stack0 stack1,
      py_last (SM.stack transitions) = Some stack0
      ∧ py_last2 (SM.stack transitions) = Some stack1
      ∧ stack0 ≠ stack1
      ∧ ∃ n, n ∈ alignmentsToken2Node gold_amr stack0
             ∧ n ∈ alignmentsToken2Node gold_amr stack1.
Proof.
  unfold tryMerge. cbn.
  destruct (py_last _) as [stack0|]; [|split; [done | by intros (?&?&?&_)]].
  destruct (py_last2 _) as [stack1|]; [|split; [done | by intros (?&?&_&?&_)]].
  case_bool_decide as Hne.
  { split; [done|]. intros (?&?&[= <-]&[= <-]&?&_). done. }
  set (fa := alignmentsToken2Node gold_amr stack0).
  set (sa := alignmentsToken2Node gold_amr stack1).
  assert (Hshare : (∃ n, n ∈ fa ∧ n ∈ sa)
                   ↔ ∃ s0 s1, Some stack0 = Some s0 ∧ Some stack1 = Some s1 ∧ s0 ≠ s1
                       ∧ ∃ n, n ∈ alignmentsToken2Node gold_amr s0
                              ∧ n ∈ alignmentsToken2Node gold_amr s1).
  { split; [intros ?; by exists stack0, stack1 | by intros (?&?&[= <-]&[= <-]&_&?)]. }
  rewrite <- Hshare. clear Hshare.
  destruct (decide (fa = [])) as [Hfa|Hfa].
  { rewrite (bool_decide_eq_true_2 _ Hfa). cbn. rewrite Hfa.
    split; [done | by intros (?&?%elem_of_nil&_)]. }
  rewrite (bool_decide_eq_false_2 _ Hfa). cbn.
  destruct (decide (sa = [])) as [Hsa|Hsa].
  { rewrite (bool_decide_eq_true_2 _ Hsa). rewrite Hsa.
    split; [done | by intros (?&_&?%elem_of_nil)]. }
  rewrite (bool_decide_eq_false_2 _ Hsa).
  case_bool_decide as Heq.
  - split; [intros _|done]. rewrite <- Heq.
    destruct fa as [|n fa']; [done|]. exists n. split; by left.
  - rewrite negb_true_iff, bool_decide_eq_false. apply overlap_shared_node.
Qed.

(** X2. For two aligned items whose gold nodes resolve to [source] and
    [target], [isHead] answers [True] exactly when some gold edge from
    [source] to [target] has no counterpart from [x] to [y] in the
    predicted graph; the label it returns is the label of such an edge, and
    the empty string comes with [False]. *)
Theorem isHead_finds_unpredicted_edge (amr gold_amr : AMR.t) (x y source target : Z) :
  alignmentsToken2Node gold_amr x ≠ [] →
  alignmentsToken2Node gold_amr y ≠ [] →
  head_root gold_amr (alignmentsToken2Node gold_amr x) = Ok source →
  head_root gold_amr (alignmentsToken2Node gold_amr y) = Ok target →
  ∃ b r,
    isHead amr gold_amr x y = Ok (b, r)
    ∧ (b = true ↔ ∃ r', (source, r', target) ∈ AMR.edges gold_amr
                        ∧ (x, r', y) ∉ AMR.edges amr)
    ∧ (b = true → (source, r, target) ∈ AMR.edges gold_amr ∧ (x, r, y) ∉ AMR.edges amr)
    ∧ (b = false → r = ""%string).
Proof.
  intros Hx Hy Hs Ht. unfold isHead.
  rewrite (bool_decide_eq_false_2 _ Hx), (bool_decide_eq_false_2 _ Hy). cbn.
  unfold head_root in Hs, Ht. rewrite Hs, Ht. cbn.
  clear Hx Hy Hs Ht.
  induction (AMR.edges gold_amr) as [|[[s r0] t] rest IH]; cbn.
  - exists false, ""%string. repeat split; try done.
    by intros (?&?%elem_of_nil&_).
  - destruct (bool_decide (source = s) && bool_decide (target = t)
              && negb (bool_decide ((x, r0, y) ∈ AMR.edges amr))) eqn:Hc.
    + apply andb_prop in Hc as [[Hs%bool_decide_eq_true Ht%bool_decide_eq_true]%andb_prop
                                  Hn%negb_true_iff%bool_decide_eq_false].
      subst s t. exists true, r0. repeat split; try done; try by left.
      intros _. exists r0. split; [by left | done].
    + destruct IH as (b & r & -> & Hiff & Htrue & Hfalse).
      exists b, r. split; [done|]. split; [|split; [|done]].
      * rewrite Hiff. split.
        -- intros (r' & Hin & Hout). exists r'. split; [by right | done].
        -- intros (r' & [Heq|Hin]%elem_of_cons & Hout); [|by exists r'].
           injection Heq as -> -> ->.
           rewrite !bool_decide_eq_true_2 in Hc by done.
           by rewrite (bool_decide_eq_false_2 _ Hout) in Hc.
      * intros Hb. destruct (Htrue Hb) as [Hin Hout]. split; [by right | done].
Qed.

(** What a [True] of [isHead] says. *)
Lemma isHead_true (amr gold_amr : AMR.t) (x y : Z) (r : string) :
  isHead amr gold_amr x y = Ok (true, r) →
  ∃ source target,
    head_root gold_amr (alignmentsToken2Node gold_amr x) = Ok source
    ∧ head_root gold_amr (alignmentsToken2Node gold_amr y) = Ok target
    ∧ (source, r, target) ∈ AMR.edges gold_amr
    ∧ (x, r, y) ∉ AMR.edges amr.
Proof.
  unfold isHead, head_root.
  destruct (_ || _); [discriminate|].
  intros (source & Hs & (target & Ht & [= Hscan])%bind_Ok)%bind_Ok.
  apply isHead_scan_unassigned in Hscan as [? ?]. eauto 10.
Qed.

(** X3. A predicate that answers [False] has no side effect: the oracle
    object comes back as it went in, and [tryIntroduce] leaves [latent] and
    the rest of the configuration alone. *)
Theorem failed_predicate_has_no_effect (self : Oracle.t) (transitions : SM.t)
    (amr gold_amr : AMR.t) :
  (∀ self', tryEntity self transitions amr gold_amr = Ok (false, self') → self' = self)
  ∧ (∀ self', tryConfirm self transitions amr gold_amr = Ok (false, self') → self' = self)
  ∧ (∀ self', tryDependent self transitions amr gold_amr = Ok (false, self') → self' = self)
  ∧ (∀ self', tryLA self transitions amr gold_amr = Ok (false, self') → self' = self)
  ∧ (∀ self', tryRA self transitions amr gold_amr = Ok (false, self') → self' = self)
  ∧ (∀ tr', tryIntroduce transitions amr gold_amr = Ok (false, tr') → tr' = transitions).
Proof.
  repeat split.
  - intros self'. destruct (tryEntity_decides transitions amr gold_amr) as [d ->].
    destruct d as [[ty|]|e]; [discriminate| |discriminate]. by intros [= <-].
  - intros self'. destruct (tryConfirm_decides transitions amr gold_amr) as [d ->].
    destruct d as [[[old new]|]|e]; [discriminate| |discriminate]. by intros [= <-].
  - intros self'. destruct (tryDependent_decides transitions amr gold_amr) as [d ->].
    destruct d as [[[r label]|]|e]; [discriminate| |discriminate]. by intros [= <-].
  - intros self'. destruct (tryLA_decides transitions amr gold_amr) as [d ->].
    destruct d as [[label|]|e]; [discriminate| |discriminate]. by intros [= <-].
  - intros self'. destruct (tryRA_decides transitions amr gold_amr) as [d ->].
    destruct d as [[label|]|e]; [discriminate| |discriminate]. by intros [= <-].
  - intros tr' Htry. exact (tryIntroduce_latent _ _ _ _ _ Htry).
Qed.

(** X4. While the stack top and the next buffer item should be merged
    (their alignments overlap), none of LA, RA, SWAP and INTRODUCE is
    offered. *)
Theorem pending_merge_blocks_arcs (self : Oracle.t) (transitions : SM.t)
    (amr gold_amr : AMR.t) (stack0 buffer0 : Z) :
  py_last (SM.stack transitions) = Some stack0 →
  py_last (SM.buffer transitions) = Some buffer0 →
  tryMerge transitions amr gold_amr (Some stack0) (Some buffer0) = true →
  tryLA self transitions amr gold_amr = Ok (false, self)
  ∧ tryRA self transitions amr gold_amr = Ok (false, self)
  ∧ trySWAP transitions amr gold_amr = Ok false
  ∧ tryIntroduce transitions amr gold_amr = Ok (false, transitions).
Proof.
  intros Hs Hb Hm.
  assert (Hp : merge_pending transitions amr gold_amr stack0 = true).
  { unfold merge_pending. by rewrite Hb. }
  unfold tryLA, tryRA, trySWAP, tryIntroduce. rewrite Hs, Hp.
  repeat split.
  - by destruct (py_last2 _).
  - by destruct (py_last2 _).
  - destruct (py_last2 _) as [stack1|]; [|done].
    by repeat (destruct (swapped_past _ _ _); [done|]).
  - by destruct (bool_decide _).
Qed.

(** X5. When [tryLA] answers [True], the label it leaves in [new_edge] is
    the label of a gold edge from the gold node of the stack top to the
    gold node of the item below, the predicted graph has no edge with that
    label from the stack top to the item below, and nothing else in the
    oracle object has changed. *)
Theorem tryLA_offers_missing_gold_edge (self self' : Oracle.t) (transitions : SM.t)
    (amr gold_amr : AMR.t) :
  tryLA self transitions amr gold_amr = Ok (true, self') →
  ∃ stack0 stack1 source target,
    py_last (SM.stack transitions) = Some stack0
    ∧ py_last2 (SM.stack transitions) = Some stack1
    ∧ head_root gold_amr (alignmentsToken2Node gold_amr stack0) = Ok source
    ∧ head_root gold_amr (alignmentsToken2Node gold_amr stack1) = Ok target
    ∧ ((source, Oracle.new_edge self', target) ∈ AMR.edges gold_amr)
    ∧ ((stack0, Oracle.new_edge self', stack1) ∉ AMR.edges amr)
    ∧ self' = Oracle.set_new_edge (Oracle.new_edge self') self.
Proof.
  unfold tryLA.
  destruct (py_last _) as [stack0|]; [|discriminate].
  destruct (py_last2 _) as [stack1|]; [|discriminate].
  destruct (merge_pending _ _ _ _); [discriminate|].
  destruct (isHead amr gold_amr stack0 stack1) as [[[] label]|e] eqn:Hhead; cbn;
    [|discriminate|discriminate].
  intros [= <-]. apply isHead_true in Hhead as (source & target & ? & ? & ? & ?).
  exists stack0, stack1, source, target. by repeat split.
Qed.

(** X6. When [tryRA] answers [True], the label it leaves in [new_edge] is
    the label of a gold edge from the gold node of the second stack item to
    the gold node of the stack top, the predicted graph has no edge with
    that label from the second item to the top, and nothing else in the
    oracle object has changed. *)
Theorem tryRA_offers_missing_gold_edge (self self' : Oracle.t) (transitions : SM.t)
    (amr gold_amr : AMR.t) :
  tryRA self transitions amr gold_amr = Ok (true, self') →
  ∃ stack0 stack1 source target,
    py_last (SM.stack transitions) = Some stack0
    ∧ py_last2 (SM.stack transitions) = Some stack1
    ∧ head_root gold_amr (alignmentsToken2Node gold_amr stack1) = Ok source
    ∧ head_root gold_amr (alignmentsToken2Node gold_amr stack0) = Ok target
    ∧ ((source, Oracle.new_edge self', target) ∈ AMR.edges gold_amr)
    ∧ ((stack1, Oracle.new_edge self', stack0) ∉ AMR.edges amr)
    ∧ self' = Oracle.set_new_edge (Oracle.new_edge self') self.
Proof.
  unfold tryRA.
  destruct (py_last _) as [stack0|]; [|discriminate].
  destruct (py_last2 _) as [stack1|]; [|discriminate].
  destruct (merge_pending _ _ _ _); [discriminate|].
  destruct (isHead amr gold_amr stack1 stack0) as [[[] label]|e] eqn:Hhead; cbn;
    [|discriminate|discriminate].
  intros [= <-]. apply isHead_true in Hhead as (source & target & ? & ? & ? & ?).
  exists stack0, stack1, source, target. by repeat split.
Qed.

(** X7. [tryReduce] answers [True] for a stack top without alignment,
    whatever the two graphs hold; and while the next buffer item carries
    the same non-empty alignment as the stack top it answers [False], the
    pair being one that [tryMerge] accepts. *)
Theorem tryReduce_unaligned_or_deferred (transitions : SM.t) (amr gold_amr : AMR.t)
    (stack0 : Z) :
  py_last (SM.stack transitions) = Some stack0 →
  (alignmentsToken2Node gold_amr stack0 = [] →
   tryReduce transitions amr gold_amr = Ok true)
  ∧ (∀ buffer0,
       py_last (SM.buffer transitions) = Some buffer0 →
       alignmentsToken2Node gold_amr stack0 ≠ [] →
       alignmentsToken2Node gold_amr buffer0 = alignmentsToken2Node gold_amr stack0 →
       tryReduce transitions amr gold_amr = Ok false
       ∧ (stack0 ≠ 0%Z → buffer0 ≠ 0%Z → stack0 ≠ buffer0 →
          tryMerge transitions amr gold_amr (Some stack0) (Some buffer0) = true)).
Proof.
  intros Hs. unfold tryReduce. rewrite Hs. split.
  - intros ->. done.
  - intros buffer0 Hb Hne Heq. rewrite Hb.
    rewrite bool_decide_eq_false_2 by (by destruct (alignmentsToken2Node gold_amr stack0)).
    rewrite (bool_decide_eq_true_2 _ Heq). split; [done|].
    intros H0 Hb0 Hdiff. rewrite tryMerge_explicit by done. cbn zeta.
    rewrite (bool_decide_eq_false_2 _ Hdiff), Heq, (bool_decide_eq_false_2 _ Hne). cbn.
    by rewrite bool_decide_eq_true_2.
Qed.


(** What a [True] of the loop of [tryDependent] says. *)
Lemma dependent_scan_true (self self' : Oracle.t) (amr gold_amr : AMR.t)
    (stack0 source : Z) (tok_alignment : list Z) (gold_edges : list edge) :
  dependent_scan self amr gold_amr stack0 source tok_alignment gold_edges = Ok (true, self') →
  ∃ r t label,
    (source, r, t) ∈ gold_edges
    ∧ r ∈ [":polarity"; ":mode"]%string
    ∧ (∀ t', (stack0, r, t') ∉ AMR.edges amr)
    ∧ (t ∈ tok_alignment ∨ AMR.alignments gold_amr !! t = None
       ∨ AMR.alignments gold_amr !! t = Some [])
    ∧ AMR.nodes gold_amr !! t = Some label
    ∧ self' = Oracle.set_new_node label (Oracle.set_new_edge r self).
Proof.
  induction gold_edges as [|[[s r] t] rest IH]; cbn; [discriminate|].
  destruct (bool_decide (s = source) && bool_decide (r ∈ [":polarity"; ":mode"]%string))
    eqn:Hsel.
  - apply andb_prop in Hsel as [->%bool_decide_eq_true Hr%bool_decide_eq_true].
    case_bool_decide as Hhas.
    { intros (r' & t' & label & Hin & ?)%IH. exists r', t', label. split; [by right|done]. }
    destruct (negb (bool_decide (t ∈ tok_alignment)) && _) eqn:Helse.
    { intros (r' & t' & label & Hin & ?)%IH. exists r', t', label. split; [by right|done]. }
    destruct (AMR.nodes gold_amr !! t) as [label|] eqn:Hlabel; cbn; [|discriminate].
    intros [= <-]. exists r, t, label. repeat split; try done; [by left| |].
    + intros t' Hin. apply Hhas. apply list_elem_of_fmap. by exists (stack0, r, t').
    + apply andb_false_iff in Helse as [Hal|Hal].
      * left. by apply negb_false_iff, bool_decide_eq_true in Hal.
      * right. destruct (AMR.alignments gold_amr !! t) as [l|]; [|by left].
        right. by apply negb_false_iff, bool_decide_eq_true in Hal as ->.
  - intros (r' & t' & label & Hin & ?)%IH. exists r', t', label. split; [by right|done].
Qed.

(** X9. When [tryDependent] answers [True], [new_edge] is [:polarity] or
    [:mode], the gold node of the stack top has a gold edge with that label
    whose target carries the label left in [new_node], the predicted graph
    has no edge with that label out of the stack top yet, and the target is
    aligned to the stack top or to nothing. *)
Theorem tryDependent_offers_unary_edge (self self' : Oracle.t) (transitions : SM.t)
    (amr gold_amr : AMR.t) :
  tryDependent self transitions amr gold_amr = Ok (true, self') →
  ∃ stack0 source t,
    py_last (SM.stack transitions) = Some stack0
    ∧ gold_node gold_amr (alignmentsToken2Node gold_amr stack0) = Ok source
    ∧ ((source, Oracle.new_edge self', t) ∈ AMR.edges gold_amr)
    ∧ Oracle.new_edge self' ∈ [":polarity"; ":mode"]%string
    ∧ AMR.nodes gold_amr !! t = Some (Oracle.new_node self')
    ∧ (∀ t', (stack0, Oracle.new_edge self', t') ∉ AMR.edges amr)
    ∧ (t ∈ alignmentsToken2Node gold_amr stack0
       ∨ AMR.alignments gold_amr !! t = None
       ∨ AMR.alignments gold_amr !! t = Some []).
Proof.
  unfold tryDependent.
  destruct (py_last _) as [stack0|]; [|discriminate].
  destruct (bool_decide _); [discriminate|].
  destruct (gold_node _ _) as [source|e] eqn:Hsource; cbn; [|discriminate].
  intros (r & t & label & ? & ? & ? & ? & ? & ->)%dependent_scan_true.
  exists stack0, source, t. by repeat split.
Qed.

Lemma mapM_Ok {A B} (f : A → result B) (l : list A) (k : list B) :
  mapM f l = Ok k → Forall2 (fun x y => f x = Ok y) l k.
Proof.
  revert k. induction l as [|x l IH]; intros k; cbn.
  - intros [= <-]. constructor.
  - destruct (f x) as [y|e] eqn:Hx; cbn; [|discriminate].
    destruct (mapM f l) as [k'|e]; cbn; [|discriminate].
    intros [= <-]. constructor; [done | by apply IH].
Qed.

Lemma filter_agree {A} (P Q : A → Prop) `{∀ x, Decision (P x)} `{∀ x, Decision (Q x)}
    (l : list A) :
  (∀ x, x ∈ l → P x ↔ Q x) → filter P l = filter Q l.
Proof.
  induction l as [|x l IH]; intros Hag; [done|].
  assert (filter P l = filter Q l) as Hrest.
  { apply IH. intros y Hy. apply Hag. by right. }
  destruct (decide (P x)) as [HP|HP].
  - rewrite !filter_cons_True; [by rewrite Hrest | by apply Hag; [left|] | done].
  - rewrite !filter_cons_False; [done | | done].
    intros HQ. apply HP. apply Hag; [by left | done].
Qed.

(** X10. When [tryEntity] answers [True]: the stack top is no entity yet,
    it is aligned to at least two nodes whose subgraph has an edge, it is
    not to be merged with any buffer item, and [entity_type] is the
    comma-joined list of the labels of the aligned nodes that are the
    source of an edge of the subgraph, in alignment order; that type has
    been counted once more in [possibleEntityTypes]. *)
Theorem tryEntity_names_the_inner_nodes (self self' : Oracle.t) (transitions : SM.t)
    (amr gold_amr : AMR.t) :
  tryEntity self transitions amr gold_amr = Ok (true, self') →
  ∃ stack0 g labels,
    py_last (SM.stack transitions) = Some stack0
    ∧ (stack0 ∉ SM.entities transitions)
    ∧ 2 ≤ length (alignmentsToken2Node gold_amr stack0)
    ∧ findSubGraph gold_amr (alignmentsToken2Node gold_amr stack0) = Ok g
    ∧ SubGraph.edges g ≠ []
    ∧ (∀ id, id ∈ SM.buffer transitions →
             tryMerge transitions amr gold_amr (Some stack0) (Some id) = false)
    ∧ Forall2 (fun n label => AMR.nodes gold_amr !! n = Some label)
              (filter (fun n => Exists (fun e : edge => e.1.1 = n) (SubGraph.edges g))
                      (alignmentsToken2Node gold_amr stack0))
              labels
    ∧ Oracle.entity_type self' = join "," labels
    ∧ Oracle.possibleEntityTypes self' !! join "," labels
      = Some (S (default 0 (Oracle.possibleEntityTypes self !! join "," labels))).
Proof.
  unfold tryEntity.
  destruct (py_last _) as [stack0|]; [|discriminate].
  case_bool_decide as Hent; [discriminate|].
  case_bool_decide as Hlen; [discriminate|].
  destruct (match py_last2 _ with Some _ => _ | None => _ end); [discriminate|].
  destruct (existsb _ _) eqn:Hbuf; [discriminate|].
  destruct (findSubGraph _ _) as [g|e] eqn:Hg; cbn; [|discriminate].
  case_bool_decide as Hedges; [discriminate|].
  destruct (_ && _); [discriminate|].
  destruct (mapM _ _) as [labels|e] eqn:Hlabels; cbn; [|discriminate].
  intros [= <-]. exists stack0, g, labels.
  split; [done|]. split; [done|]. split; [lia|]. split; [done|]. split; [done|].
  split; [|split; [|split]].
  - intros id Hid. destruct (tryMerge _ _ _ _ (Some id)) eqn:Hm; [|done].
    assert (existsb (fun id => tryMerge transitions amr gold_amr (Some stack0) (Some id))
                    (rev (SM.buffer transitions)) = true) as Hex; [|congruence].
    apply existsb_exists. exists id. split; [|done].
    apply (proj1 (in_rev _ _)). by apply list_elem_of_In.
  - apply mapM_Ok in Hlabels.
    erewrite (filter_agree _ (fun n => Exists (fun e : edge => e.1.1 = n) (SubGraph.edges g)))
      in Hlabels.
    + eapply Forall2_impl; [exact Hlabels|]. intros n label.
      cbn beta. destruct (AMR.nodes gold_amr !! n); cbn; [by intros [= ->] | discriminate].
    + intros n Hn. rewrite list_elem_of_filter. split.
      * intros Hnot. destruct (decide (Exists (fun e : edge => e.1.1 = n) (SubGraph.edges g)));
          [done|]. by destruct Hnot.
      * by intros ? [? _].
  - done.
  - cbn. unfold counter_incr. by rewrite lookup_insert_eq.
Qed.

Lemma promote_permutation (latent : list Z) (idx : nat) (l : list Z) :
  promote latent idx = Ok l →
  l ≡ₚ latent ∧ last l = latent !! idx ∧ is_Some (latent !! idx).
Proof.
  unfold promote, py_pop.
  destruct (latent !! idx) as [x|] eqn:Hx; cbn; [|discriminate].
  intros [= <-]. split; [|split; [by rewrite last_snoc | done]].
  rewrite <- (take_drop_middle latent idx x Hx) at 3.
  rewrite <- app_assoc. apply Permutation_app_head.
  by rewrite Permutation_app_comm.
Qed.

(** The loop of [tryIntroduce] walks [latent] from its end with [idx]
    pointing at the item under test. *)
Lemma introduce_scan_true (amr gold_amr : AMR.t) (stack0 : Z) (latent : list Z)
    (n : nat) (rlatent l : list Z) :
  rev (take n latent) = rlatent →
  n ≤ length latent →
  introduce_scan amr gold_amr stack0 latent (n - 1) rlatent = Ok (Some l) →
  l ≡ₚ latent
  ∧ ∃ k r, last l = Some k ∧ k ∈ latent
           ∧ (isHead amr gold_amr stack0 k = Ok (true, r)
              ∨ isHead amr gold_amr k stack0 = Ok (true, r)).
Proof.
  revert n. induction rlatent as [|latentk rest IH]; intros n Hrev Hn; cbn; [discriminate|].
  destruct n as [|m]; [done|].
  destruct (latent !! m) as [x|] eqn:Hm; [|apply lookup_ge_None in Hm; lia].
  rewrite (take_S_r _ _ _ Hm), rev_app_distr in Hrev. cbn in Hrev.
  injection Hrev as -> Hrest.
  replace (S m - 1) with m by lia.
  assert (Hin : latentk ∈ latent) by (by eapply list_elem_of_lookup_2).
  destruct (isHead amr gold_amr stack0 latentk) as [[[] r]|e] eqn:HL; cbn; [| |discriminate].
  { destruct (promote latent m) as [l'|e] eqn:Hp; cbn; [|discriminate].
    intros [= <-]. apply promote_permutation in Hp as (Hperm & Hlast & _).
    split; [done|]. exists latentk, r. rewrite Hlast, Hm. auto. }
  destruct (isHead amr gold_amr latentk stack0) as [[[] r']|e] eqn:HR; cbn; [| |discriminate].
  { destruct (promote latent m) as [l'|e] eqn:Hp; cbn; [|discriminate].
    intros [= <-]. apply promote_permutation in Hp as (Hperm & Hlast & _).
    split; [done|]. exists latentk, r'. rewrite Hlast, Hm. auto. }
  replace (Nat.pred m) with (m - 1) by lia.
  apply IH; [done | lia].
Qed.

(** X11. When [tryIntroduce] answers [True], the configuration differs from
    the one before in [latent] only; the new [latent] holds the same items
    as the old, and its last item, the one INTRODUCE will take, is a gold
    head or a gold dependent of the stack top with the edge still to be
    predicted. *)
Theorem tryIntroduce_promotes_related_item (transitions tr' : SM.t) (amr gold_amr : AMR.t) :
  tryIntroduce transitions amr gold_amr = Ok (true, tr') →
  ∃ stack0 l k r,
    py_last (SM.stack transitions) = Some stack0
    ∧ tr' = SM.set_latent l transitions
    ∧ l ≡ₚ SM.latent transitions
    ∧ last l = Some k
    ∧ (isHead amr gold_amr stack0 k = Ok (true, r)
       ∨ isHead amr gold_amr k stack0 = Ok (true, r)).
Proof.
  unfold tryIntroduce.
  destruct (py_last _) as [stack0|]; [|discriminate].
  destruct (bool_decide _); [discriminate|].
  destruct (merge_pending _ _ _ _); [discriminate|].
  destruct (introduce_scan _ _ _ _ _ _) as [[l|]|e] eqn:Hscan; cbn; [|discriminate|discriminate].
  intros [= <-].
  apply (introduce_scan_true _ _ _ _ (length (SM.latent transitions))) in Hscan
    as (Hperm & k & r & Hlast & _ & Hrel); [|by rewrite firstn_all|done].
  by exists stack0, l, k, r.
Qed.

Lemma top_two_split {A} (l : list A) (a b : A) :
  py_last l = Some a → py_last2 l = Some b → ∃ pre, l = pre ++ [b; a].
Proof.
  unfold py_last, py_last2. intros Ha Hb.
  destruct (rev l) as [|x [|y rl]] eqn:Hrev; try discriminate.
  injection Hb as ->.
  apply (f_equal (@rev A)) in Hrev. rewrite rev_involutive in Hrev. cbn in Hrev.
  rewrite <- app_assoc in Hrev. cbn in Hrev. subst l.
  rewrite (app_assoc _ [b] [x]), last_snoc in Ha. injection Ha as ->.
  by exists (rev rl).
Qed.

Lemma swap_scan_true (amr gold_amr : AMR.t) (stack0 stack1 : Z)
    (tok_alignment toks : list Z) :
  swap_scan amr gold_amr stack0 stack1 tok_alignment toks = Ok true →
  ∃ tok, tok ∈ toks ∧ tok ≠ stack0 ∧ tok ≠ stack1
         ∧ ((∃ r, isHead amr gold_amr stack0 tok = Ok (true, r))
            ∨ (∃ r, isHead amr gold_amr tok stack0 = Ok (true, r))
            ∨ alignmentsToken2Node gold_amr tok = tok_alignment).
Proof.
  induction toks as [|tok rest IH]; cbn; [discriminate|].
  destruct (bool_decide (tok = stack1) || bool_decide (tok = stack0)) eqn:Hskip.
  { intros (tok' & ? & ?)%IH. exists tok'. split; [by right | done]. }
  apply orb_false_iff in Hskip as [H1%bool_decide_eq_false H0%bool_decide_eq_false].
  destruct (isHead amr gold_amr stack0 tok) as [[[] r]|e] eqn:HL; cbn; [| |discriminate].
  { intros _. exists tok. split; [by left|]. eauto 10. }
  destruct (isHead amr gold_amr tok stack0) as [[[] r']|e] eqn:HR; cbn; [| |discriminate].
  { intros _. exists tok. split; [by left|]. eauto 10. }
  case_bool_decide as Heq.
  { intros _. exists tok. split; [by left|]. eauto 10. }
  intros (tok' & ? & ?)%IH. exists tok'. split; [by right | done].
Qed.

(** X12. SWAP is offered only over a third item: when [trySWAP] answers
    [True] the stack holds, below its top two, an item that is a gold head
    or dependent of the stack top with the edge still to be predicted, or
    that has the alignment of the stack top; and the top two are not
    recorded as swapped in either direction. *)
Theorem trySWAP_needs_third_item (transitions : SM.t) (amr gold_amr : AMR.t) :
  trySWAP transitions amr gold_amr = Ok true →
  ∃ pre stack1 stack0 tok,
    SM.stack transitions = pre ++ [stack1; stack0]
    ∧ tok ∈ pre ∧ tok ≠ stack0 ∧ tok ≠ stack1
    ∧ ((∃ r, isHead amr gold_amr stack0 tok = Ok (true, r))
       ∨ (∃ r, isHead amr gold_amr tok stack0 = Ok (true, r))
       ∨ alignmentsToken2Node gold_amr tok = alignmentsToken2Node gold_amr stack0)
    ∧ swapped_past (SM.swapped_words transitions) stack0 stack1 = false
    ∧ swapped_past (SM.swapped_words transitions) stack1 stack0 = false
    ∧ 3 ≤ length (SM.stack transitions).
Proof.
  unfold trySWAP.
  destruct (py_last _) as [stack0|] eqn:H0; [|discriminate].
  destruct (py_last2 _) as [stack1|] eqn:H1; [|discriminate].
  destruct (swapped_past _ stack0 stack1) eqn:Hs01; [discriminate|].
  destruct (swapped_past _ stack1 stack0) eqn:Hs10; [discriminate|].
  destruct (merge_pending _ _ _ _); [discriminate|].
  intros (tok & Hin & Hne0 & Hne1 & Hrel)%swap_scan_true.
  destruct (top_two_split _ _ _ H0 H1) as [pre Hstack].
  exists pre, stack1, stack0, tok. rewrite Hstack in Hin |- *.
  assert (tok ∈ pre) as Hpre.
  { apply elem_of_app in Hin as [?|Hin]; [done|].
    apply elem_of_cons in Hin as [->|Hin]; [done|].
    apply elem_of_cons in Hin as [->|Hin]; [done|]. by apply elem_of_nil in Hin. }
  repeat split; try done.
  rewrite length_app. cbn. destruct pre; [by apply elem_of_nil in Hpre | cbn; lia].
Qed.

End more_predicate_properties.

Lemma isHead_finds_unpredicted_edge_witness :
  ∃ b r,
    @isHead Model.graph (SM.amr Examples.dog_and_runs) Examples.dog_runs_rooted 3 2
    = Ok (b, r)
    ∧ (b = true → (3%Z, r, 2%Z) ∈ AMR.edges Examples.dog_runs_rooted).
Proof.
  destruct (isHead_finds_unpredicted_edge (G := Model.graph)
              (SM.amr Examples.dog_and_runs) Examples.dog_runs_rooted 3 2 3 2)
    as (b & r & Hrun & _ & Htrue & _).
  - vm_compute; discriminate.
  - vm_compute; discriminate.
  - vm_compute; reflexivity.
  - vm_compute; reflexivity.
  - exists b, r. split; [exact Hrun|]. intros Hb. exact (proj1 (Htrue Hb)).
Defined.

Lemma pending_merge_blocks_arcs_witness :
  @tryLA Model.graph Oracle.init Cases.before_merge (SM.amr Cases.before_merge)
         Cases.new_york_rooted
  = Ok (false, Oracle.init)
  ∧ @trySWAP Model.graph Cases.before_merge (SM.amr Cases.before_merge)
             Cases.new_york_rooted
    = Ok false.
Proof.
  destruct (pending_merge_blocks_arcs (G := Model.graph) Oracle.init Cases.before_merge
              (SM.amr Cases.before_merge) Cases.new_york_rooted 1 2)
    as (HLA & _ & HSW & _).
  - reflexivity.
  - reflexivity.
  - vm_compute; reflexivity.
  - split; [exact HLA | exact HSW].
Defined.

Lemma tryLA_offers_missing_gold_edge_witness :
  ∃ self',
    @tryLA Model.graph Oracle.init Examples.dog_and_runs (SM.amr Examples.dog_and_runs)
           Examples.dog_runs_rooted
    = Ok (true, self')
    ∧ (3%Z, Oracle.new_edge self', 2%Z) ∉ AMR.edges (SM.amr Examples.dog_and_runs).
Proof.
  assert (∃ self', @tryLA Model.graph Oracle.init Examples.dog_and_runs
                     (SM.amr Examples.dog_and_runs) Examples.dog_runs_rooted
                   = Ok (true, self')) as [self' Hrun].
  { vm_compute. eexists. reflexivity. }
  exists self'. split; [exact Hrun|].
  destruct (tryLA_offers_missing_gold_edge (G := Model.graph) _ _ _ _ _ Hrun)
    as (s0 & s1 & src & tgt & H0 & H1 & _ & _ & _ & Hout & _).
  injection H0 as <-. injection H1 as <-. exact Hout.
Defined.

Lemma tryRA_offers_missing_gold_edge_witness :
  ∃ self',
    @tryRA Model.graph Oracle.init Cases.runs_and_dog (SM.amr Cases.runs_and_dog)
           Examples.dog_runs_rooted
    = Ok (true, self')
    ∧ (3%Z, Oracle.new_edge self', 2%Z) ∉ AMR.edges (SM.amr Cases.runs_and_dog).
Proof.
  assert (∃ self', @tryRA Model.graph Oracle.init Cases.runs_and_dog
                     (SM.amr Cases.runs_and_dog) Examples.dog_runs_rooted
                   = Ok (true, self')) as [self' Hrun].
  { vm_compute. eexists. reflexivity. }
  exists self'. split; [exact Hrun|].
  destruct (tryRA_offers_missing_gold_edge (G := Model.graph) _ _ _ _ _ Hrun)
    as (s0 & s1 & src & tgt & H0 & H1 & _ & _ & _ & Hout & _).
  injection H0 as <-. injection H1 as <-. exact Hout.
Defined.

Lemma tryReduce_unaligned_or_deferred_witness :
  @tryReduce Model.graph Cases.before_merge (SM.amr Cases.before_merge) Cases.new_york_rooted
  = Ok false
  ∧ @tryMerge Model.graph Cases.before_merge (SM.amr Cases.before_merge)
              Cases.new_york_rooted (Some 1%Z) (Some 2%Z)
    = true.
Proof.
  destruct (proj2 (tryReduce_unaligned_or_deferred (G := Model.graph) Cases.before_merge
                     (SM.amr Cases.before_merge) Cases.new_york_rooted 1 eq_refl)
                  2%Z) as [Hred Hmerge].
  - reflexivity.
  - vm_compute; discriminate.
  - vm_compute; reflexivity.
  - split; [exact Hred|]. apply Hmerge; lia.
Defined.

Lemma tryDependent_offers_unary_edge_witness :
  ∃ self',
    @tryDependent Model.graph Oracle.init Cases.go_confirmed (SM.amr Cases.go_confirmed)
                  Examples.not_go
    = Ok (true, self')
    ∧ Oracle.new_edge self' ∈ [":polarity"; ":mode"]%string.
Proof.
  assert (∃ self', @tryDependent Model.graph Oracle.init Cases.go_confirmed
                     (SM.amr Cases.go_confirmed) Examples.not_go
                   = Ok (true, self')) as [self' Hrun].
  { vm_compute. eexists. reflexivity. }
  exists self'. split; [exact Hrun|].
  destruct (tryDependent_offers_unary_edge (G := Model.graph) _ _ _ _ _ Hrun)
    as (s0 & src & t & _ & _ & _ & Hlabel & _).
  exact Hlabel.
Defined.

Lemma tryEntity_names_the_inner_nodes_witness :
  ∃ self',
    @tryEntity Model.graph Oracle.init Cases.merged (SM.amr Cases.merged) Cases.new_york_rooted
    = Ok (true, self')
    ∧ Oracle.possibleEntityTypes self' !! Oracle.entity_type self' = Some 1.
Proof.
  assert (∃ self', @tryEntity Model.graph Oracle.init Cases.merged (SM.amr Cases.merged)
                     Cases.new_york_rooted = Ok (true, self')) as [self' Hrun].
  { vm_compute. eexists. reflexivity. }
  exists self'. split; [exact Hrun|].
  destruct (tryEntity_names_the_inner_nodes (G := Model.graph) _ _ _ _ _ Hrun)
    as (s0 & g & labels & _ & _ & _ & _ & _ & _ & _ & -> & ->).
  reflexivity.
Defined.

Lemma tryIntroduce_promotes_related_item_witness :
  ∃ tr',
    @tryIntroduce Model.graph Cases.with_latent (SM.amr Cases.with_latent)
                  Examples.dog_runs_rooted = Ok (true, tr')
    ∧ SM.latent tr' ≡ₚ [2; 1]%Z.
Proof.
  assert (∃ tr', @tryIntroduce Model.graph Cases.with_latent (SM.amr Cases.with_latent)
                   Examples.dog_runs_rooted = Ok (true, tr')) as [tr' Hrun].
  { vm_compute. eexists. reflexivity. }
  exists tr'. split; [exact Hrun|].
  destruct (tryIntroduce_promotes_related_item (G := Model.graph) _ _ _ _ Hrun)
    as (s0 & l & k & r & _ & -> & Hperm & _).
  exact Hperm.
Defined.

Lemma trySWAP_needs_third_item_witness :
  @trySWAP Model.graph Cases.blocked_arc (SM.amr Cases.blocked_arc) Cases.crossing_rooted
  = Ok true
  ∧ 3 ≤ length (SM.stack Cases.blocked_arc).
Proof.
  assert (@trySWAP Model.graph Cases.blocked_arc (SM.amr Cases.blocked_arc)
                   Cases.crossing_rooted = Ok true) as Hrun.
  { vm_compute. reflexivity. }
  split; [exact Hrun|].
  destruct (trySWAP_needs_third_item (G := Model.graph) _ _ _ Hrun)
    as (pre & s1 & s0 & tok & _ & _ & _ & _ & _ & _ & _ & Hlen).
  exact Hlen.
Defined.

(** ** Further properties of the driver *)

Section more_driver_properties.
Context {G : GraphOps} {M : MachineOps}.

(** X13. Every pass leaves exactly one mark in the statistics: a pass that
    applies an action other than SHIFT adds one description to the counter
    of that action and to no other, while SHIFT and the forced exit leave
    the oracle object untouched. *)
Theorem step_counts_its_action (self : Oracle.t) (tr : SM.t) (gold_amr : AMR.t)
    (flow : Flow) (self' : Oracle.t) (tr' : SM.t) :
  step self tr gold_amr = Ok (flow, self', tr') →
  match flow with
  | Continue a =>
      match kind_of a with
      | Some k => ∃ descr, Oracle.stats self' = Stats.incr k descr (Oracle.stats self)
      | None => self' = self
      end
  | Break => self' = self
  end.
Proof.
  unfold step.
  destruct (tryMerge tr (SM.amr tr) gold_amr None None).
  { run_branch. intros [= <- <- <-]. cbn. eauto. }
  destruct (tryEntity_decides tr (SM.amr tr) gold_amr) as [dE ->].
  destruct dE as [[ty|]|e]; cbn; [| |discriminate].
  { run_branch; intros [= <- <- <-]; cbn; eauto. }
  destruct (tryConfirm_decides tr (SM.amr tr) gold_amr) as [dC ->].
  destruct dC as [[[old new]|]|e]; cbn; [| |discriminate].
  { run_branch; intros [= <- <- <-]; cbn; eauto. }
  destruct (tryDependent_decides tr (SM.amr tr) gold_amr) as [dD ->].
  destruct dD as [[[r label]|]|e]; cbn; [| |discriminate].
  { run_branch; intros [= <- <- <-]; cbn; eauto. }
  destruct (tryIntroduce tr (SM.amr tr) gold_amr) as [[[] trI]|e]; cbn; [| |discriminate].
  { run_branch; intros [= <- <- <-]; cbn; eauto. }
  destruct (tryLA_decides trI (SM.amr trI) gold_amr) as [dL ->].
  destruct dL as [[labelL|]|e]; cbn; [| |discriminate].
  { run_branch; intros [= <- <- <-]; cbn; eauto. }
  destruct (tryRA_decides trI (SM.amr trI) gold_amr) as [dR ->].
  destruct dR as [[labelR|]|e]; cbn; [| |discriminate].
  { run_branch; intros [= <- <- <-]; cbn; eauto. }
  destruct (tryReduce trI (SM.amr trI) gold_amr) as [[]|e]; cbn; [| |discriminate].
  { run_branch; intros [= <- <- <-]; cbn; eauto. }
  destruct (trySWAP trI (SM.amr trI) gold_amr) as [[]|e]; cbn; [| |discriminate].
  { run_branch; intros [= <- <- <-]; cbn; eauto. }
  run_branch; intros [= <- <- <-]; done.
Qed.

(** The forced exit hands back the configuration with both collections
    emptied. *)
Lemma step_break_clears (self : Oracle.t) (tr : SM.t) (gold_amr : AMR.t)
    (self' : Oracle.t) (tr' : SM.t) :
  step self tr gold_amr = Ok (Break, self', tr') → tr' = SM.clear tr.
Proof.
  unfold step.
  destruct (tryMerge tr (SM.amr tr) gold_amr None None).
  { run_branch. discriminate. }
  destruct (tryEntity_decides tr (SM.amr tr) gold_amr) as [dE ->].
  destruct dE as [[ty|]|e]; cbn; [| |discriminate].
  { run_branch; discriminate. }
  destruct (tryConfirm_decides tr (SM.amr tr) gold_amr) as [dC ->].
  destruct dC as [[[old new]|]|e]; cbn; [| |discriminate].
  { run_branch; discriminate. }
  destruct (tryDependent_decides tr (SM.amr tr) gold_amr) as [dD ->].
  destruct dD as [[[r label]|]|e]; cbn; [| |discriminate].
  { run_branch; discriminate. }
  destruct (tryIntroduce tr (SM.amr tr) gold_amr) as [[bI trI]|e] eqn:HI; cbn; [|discriminate].
  pose proof (tryIntroduce_latent _ _ _ _ _ HI) as HtrI.
  destruct bI.
  { run_branch; discriminate. }
  subst trI.
  destruct (tryLA_decides tr (SM.amr tr) gold_amr) as [dL ->].
  destruct dL as [[labelL|]|e]; cbn; [| |discriminate].
  { run_branch; discriminate. }
  destruct (tryRA_decides tr (SM.amr tr) gold_amr) as [dR ->].
  destruct dR as [[labelR|]|e]; cbn; [| |discriminate].
  { run_branch; discriminate. }
  destruct (tryReduce tr (SM.amr tr) gold_amr) as [[]|e]; cbn; [| |discriminate].
  { run_branch; discriminate. }
  destruct (trySWAP tr (SM.amr tr) gold_amr) as [[]|e]; cbn; [| |discriminate].
  { run_branch; discriminate. }
  run_branch; [discriminate|]. by intros [= _ <-].
Qed.

(** X14. However the loop is left, by its condition or by the forced exit,
    stack and buffer are both empty, so that CLOSE always works on an
    emptied configuration; and a loop that is still running has applied
    one action in each pass. *)
Theorem derive_leaves_nothing_behind (fuel : nat) (self : Oracle.t) (tr : SM.t)
    (gold_amr : AMR.t) (exited : bool) (acts : list Action) (self' : Oracle.t)
    (tr' : SM.t) :
  derive fuel self tr gold_amr = Ok (exited, acts, self', tr') →
  length acts ≤ fuel
  ∧ if exited then SM.stack tr' = [] ∧ SM.buffer tr' = []
    else length acts = fuel ∧ ¬ (SM.buffer tr' = [] ∧ SM.stack tr' = []).
Proof.
  revert self tr exited acts self' tr'.
  induction fuel as [|fuel IH]; intros self tr exited acts self' tr'; cbn.
  - destruct (bool_decide (SM.buffer tr = [])) eqn:Hb, (bool_decide (SM.stack tr = [])) eqn:Hs;
      cbn; intros [= <- <- <- <-]; cbn; (split; [lia|]);
      try apply bool_decide_eq_true in Hb; try apply bool_decide_eq_true in Hs;
      try apply bool_decide_eq_false in Hb; try apply bool_decide_eq_false in Hs;
      try done; split; try done; by intros [? ?].
  - destruct (bool_decide (SM.buffer tr = [])) eqn:Hb, (bool_decide (SM.stack tr = [])) eqn:Hs;
      cbn.
    { intros [= <- <- <- <-]. cbn. split; [lia|].
      by apply bool_decide_eq_true in Hb, Hs. }
    all: destruct (step self tr gold_amr) as [[[flow self1] tr1]|e] eqn:Hstep; cbn;
      [|discriminate].
    all: destruct flow as [a|].
    all: try (destruct (derive fuel self1 tr1 gold_amr) as [[[[ex1 acts1] self2] tr2]|e]
                eqn:Hrest; cbn; [|discriminate];
              intros [= <- <- <- <-]; destruct (IH _ _ _ _ _ _ Hrest) as [Hlen Hend];
              cbn; split; [lia|]; destruct ex1; [done|];
              destruct Hend as [-> ?]; done).
    all: intros [= <- <- <- <-]; cbn; split; [lia|].
    all: apply step_break_clears in Hstep as ->; done.
Qed.

End more_driver_properties.

Lemma step_counts_its_action_witness :
  ∃ self' tr' descr,
    @step Model.graph Model.machine Oracle.init Examples.after_shift Examples.dog_runs_rooted
    = Ok (Continue (A_CONFIRM "the"), self', tr')
    ∧ Oracle.stats self' = Stats.incr Stats.CONFIRM descr (Oracle.stats Oracle.init).
Proof.
  assert (∃ self' tr',
            @step Model.graph Model.machine Oracle.init Examples.after_shift
                  Examples.dog_runs_rooted
            = Ok (Continue (A_CONFIRM "the"), self', tr')) as (self' & tr' & Hstep).
  { vm_compute. do 2 eexists. reflexivity. }
  destruct (step_counts_its_action (G := Model.graph) (M := Model.machine)
              _ _ _ _ _ _ Hstep) as [descr Hstats].
  by exists self', tr', descr.
Defined.

Lemma derive_leaves_nothing_behind_witness :
  ∃ acts self' tr',
    @derive Model.graph Model.machine 7 Oracle.init (Examples.fresh ["a"%string])
            Examples.unreachable
    = Ok (true, acts, self', tr')
    ∧ SM.stack tr' = [] ∧ SM.buffer tr' = [].
Proof.
  assert (∃ acts self' tr',
            @derive Model.graph Model.machine 7 Oracle.init (Examples.fresh ["a"%string])
                    Examples.unreachable
            = Ok (true, acts, self', tr')) as (acts & self' & tr' & Hrun).
  { vm_compute. do 3 eexists. reflexivity. }
  exists acts, self', tr'. split; [exact Hrun|].
  exact (proj2 (derive_leaves_nothing_behind (G := Model.graph) (M := Model.machine)
                  _ _ _ _ _ _ _ _ Hrun)).
Defined.

(** ** Further properties of the preprocessing and of the tables *)

Lemma py_remove_sublist (x : Z) (l l' : list Z) :
  py_remove x l = Ok l' → sublist l' l ∧ length l = S (length l').
Proof.
  revert l'. induction l as [|y l IH]; intros l'; cbn; [discriminate|].
  case_bool_decide.
  - intros [= <-]. split; [by apply sublist_cons | done].
  - destruct (py_remove x l) as [l''|e]; cbn; [|discriminate].
    intros [= <-]. destruct (IH l'' eq_refl) as [Hsub Hlen].
    split; [by apply sublist_skip | cbn; lia].
Qed.

Lemma only_unlinked_refl (gold_amr : AMR.t) : only_unlinked gold_amr gold_amr.
Proof.
  repeat split. intros n. by destruct (AMR.alignments gold_amr !! n).
Qed.

Lemma only_unlinked_trans (g1 g2 g3 : AMR.t) :
  only_unlinked g1 g2 → only_unlinked g2 g3 → only_unlinked g1 g3.
Proof.
  intros (Ht1 & Hn1 & He1 & Hr1 & Ha1) (Ht2 & Hn2 & He2 & Hr2 & Ha2).
  repeat split; try congruence.
  intros n. specialize (Ha1 n). specialize (Ha2 n).
  destruct (AMR.alignments g3 !! n), (AMR.alignments g2 !! n), (AMR.alignments g1 !! n);
    try done.
  by etrans.
Qed.

Section more_cleanup_properties.
Context {G : GraphOps}.

Lemma clean_token_only_unlinked (gold_amr gold_amr' : AMR.t) (i : nat) (tok : string) :
  clean_token gold_amr i tok = Ok gold_amr' → only_unlinked gold_amr gold_amr'.
Proof.
  unfold clean_token.
  destruct (bool_decide _); [|intros [= <-]; apply only_unlinked_refl].
  destruct (bool_decide _); [|intros [= <-]; apply only_unlinked_refl].
  intros (a0 & _ & (a1 & _ & (label1 & _ & (first & _ & Hrest)%bind_Ok)%bind_Ok)%bind_Ok)%bind_Ok.
  apply bind_Ok in Hrest as (node & _ & (al & Hal & (al' & Hrem & [= <-])%bind_Ok)%bind_Ok).
  destruct (AMR.alignments gold_amr !! node) as [al0|] eqn:Hnode; [|discriminate].
  injection Hal as ->. apply py_remove_sublist in Hrem as [Hsub _].
  repeat split. intros n. cbn.
  destruct (decide (node = n)) as [<-|Hne].
  - by rewrite lookup_insert_eq, Hnode.
  - rewrite lookup_insert_ne by done. by destruct (AMR.alignments gold_amr !! n).
Qed.

Lemma clean_from_only_unlinked (i : nat) (toks : list string) (gold_amr gold_amr' : AMR.t) :
  clean_from i toks gold_amr = Ok gold_amr' → only_unlinked gold_amr gold_amr'.
Proof.
  revert i gold_amr. induction toks as [|tok rest IH]; intros i gold_amr; cbn.
  - intros [= <-]. apply only_unlinked_refl.
  - intros (g1 & Htok & Hrest)%bind_Ok.
    eapply only_unlinked_trans; [by eapply clean_token_only_unlinked | by eapply IH].
Qed.

(** X15. The cleanup pass over all tokens changes nothing in the gold
    graph but alignment lists, and these only by taking positions out:
    tokens, nodes, edges and root are kept, no node gains or loses its
    entry in [alignments], and every list after the pass is a sublist of
    the list before. *)
Theorem clean_alignments_only_unlinks (gold_amr gold_amr' : AMR.t) :
  clean_alignments gold_amr = Ok gold_amr' → only_unlinked gold_amr gold_amr'.
Proof. apply clean_from_only_unlinked. Qed.

End more_cleanup_properties.

Lemma clean_alignments_only_unlinks_witness :
  ∃ gold_amr',
    @clean_alignments Model.graph Examples.two_nodes = Ok gold_amr'
    ∧ only_unlinked Examples.two_nodes gold_amr'.
Proof.
  assert (∃ gold_amr', @clean_alignments Model.graph Examples.two_nodes = Ok gold_amr')
    as [gold_amr' Hclean].
  { vm_compute. eexists. reflexivity. }
  exists gold_amr'. split; [exact Hclean|].
  exact (clean_alignments_only_unlinks (G := Model.graph) _ _ Hclean).
Defined.

Section more_sentence_properties.
Context {G : GraphOps} {M : MachineOps}.

(** X16. After the run of a sentence the gold graph is not the one that
    came in: [del gold_amr.nodes[-1]] takes the root node out again, but
    the root token, the edge from the sentinel to the root and the
    alignment of the sentinel stay, so that the graph handed back has an
    edge whose source is no node. *)
Theorem sentence_leaves_root_edge (fuel : nat) (self self' : Oracle.t)
    (gold_amr gold_amr' : AMR.t) (acts : list Action) (tr' : SM.t) :
  runOracle_sentence fuel self gold_amr = Ok (Some (acts, self', tr', gold_amr')) →
  AMR.nodes gold_amr' !! (-1)%Z = None
  ∧ AMR.edges gold_amr' = AMR.edges gold_amr ++ [((-1)%Z, "root"%string, AMR.root gold_amr)]
  ∧ AMR.tokens gold_amr' = AMR.tokens gold_amr ++ ["<ROOT>"%string]
  ∧ AMR.alignments gold_amr' !! (-1)%Z = Some [(-1)%Z].
Proof.
  unfold runOracle_sentence.
  intros (tr & _ & (gold & Hclean & Hrest)%bind_Ok)%bind_Ok.
  apply clean_from_only_unlinked in Hclean as (Htok & _ & Hedges & Hroot & _).
  apply bind_Ok in Hrest as ([[[acts1 self1] tr1]|] & _ & Hdel); [|discriminate].
  apply bind_Ok in Hdel as (g' & Hdel & [= <- <- <- <-]).
  unfold AMR.del_node in Hdel.
  destruct (AMR.nodes (add_root gold) !! (-1)%Z); [|discriminate].
  injection Hdel as <-. cbn.
  rewrite lookup_delete_eq, lookup_insert_eq, Htok, Hedges, Hroot. done.
Qed.

End more_sentence_properties.

Lemma sentence_leaves_root_edge_witness :
  ∃ acts self' tr' gold_amr',
    @runOracle_sentence Model.graph Model.machine 20 Oracle.init Examples.dog_runs
    = Ok (Some (acts, self', tr', gold_amr'))
    ∧ AMR.nodes gold_amr' !! (-1)%Z = None
    ∧ ((-1)%Z, "root"%string, 3%Z) ∈ AMR.edges gold_amr'.
Proof.
  assert (∃ acts self' tr' gold_amr',
            @runOracle_sentence Model.graph Model.machine 20 Oracle.init Examples.dog_runs
            = Ok (Some (acts, self', tr', gold_amr')))
    as (acts & self' & tr' & gold_amr' & Hrun).
  { vm_compute. do 4 eexists. reflexivity. }
  exists acts, self', tr', gold_amr'. split; [exact Hrun|].
  destruct (sentence_leaves_root_edge (G := Model.graph) (M := Model.machine)
              _ _ _ _ _ _ _ Hrun) as (Hnode & Hedges & _).
  split; [exact Hnode|]. rewrite Hedges. apply elem_of_app. right. by left.
Defined.

Section more_table_properties.
Context {G : GraphOps}.

Lemma numbered_setdefault (m : gmap string nat) (k : string) :
  numbered m →
  numbered (match m !! k with
            | None => <[k := size m]> m
            | Some _ => m
            end).
Proof.
  intros [Hlt Hinj]. destruct (m !! k) eqn:Hk; [done|]. split.
  - intros k' v. rewrite map_size_insert_None by done.
    destruct (decide (k = k')) as [<-|Hne].
    + rewrite lookup_insert_eq. intros [= <-]. lia.
    + rewrite lookup_insert_ne by done. intros ?%Hlt. lia.
  - intros k1 k2 v.
    destruct (decide (k = k1)) as [<-|H1], (decide (k = k2)) as [<-|H2]; try done.
    + rewrite lookup_insert_eq, lookup_insert_ne by done.
      intros [= <-] ?%Hlt. lia.
    + rewrite lookup_insert_eq, lookup_insert_ne by done.
      intros ?%Hlt [= <-]. lia.
    + rewrite !lookup_insert_ne by done. apply Hinj.
Qed.

(** X17. The bookkeeping of a successful [tryConfirm]: [preds2Ints] stays
    a numbering without gaps or repetitions, keeps the numbers it had and
    has one for the confirmed label; and in [possiblePredicates] the count
    of that label under the old label of the stack top has gone up by
    one. *)
Theorem tryConfirm_keeps_its_tables (self self' : Oracle.t) (transitions : SM.t)
    (amr gold_amr : AMR.t) :
  numbered (Oracle.preds2Ints self) →
  tryConfirm self transitions amr gold_amr = Ok (true, self') →
  numbered (Oracle.preds2Ints self')
  ∧ is_Some (Oracle.preds2Ints self' !! Oracle.new_node self')
  ∧ (∀ k v, Oracle.preds2Ints self !! k = Some v → Oracle.preds2Ints self' !! k = Some v)
  ∧ ∃ stack0 old_node counts,
      py_last (SM.stack transitions) = Some stack0
      ∧ AMR.nodes amr !! stack0 = Some old_node
      ∧ Oracle.possiblePredicates self' !! old_node = Some counts
      ∧ counts !! Oracle.new_node self'
        = Some (S (default 0 (Oracle.possiblePredicates self !! old_node
                                ≫= fun c => c !! Oracle.new_node self'))).
Proof.
  intros Hnum. unfold tryConfirm.
  destruct (py_last _) as [stack0|]; [|discriminate].
  destruct (py_last (SM.actions transitions)); cbn; [|discriminate].
  destruct (_ && _); [discriminate|].
  destruct (bool_decide _); [discriminate|].
  destruct (gold_node _ _) as [gold_id|e]; cbn; [|discriminate].
  destruct (negb _); [|discriminate].
  destruct (AMR.nodes gold_amr !! gold_id) as [new_node|]; cbn; [|discriminate].
  destruct (AMR.nodes amr !! stack0) as [old_node|] eqn:Hold; cbn; [|discriminate].
  intros [= <-]. cbn.
  split; [by apply numbered_setdefault|]. split; [|split].
  - destruct (Oracle.preds2Ints self !! new_node) eqn:Hk; [by rewrite Hk|].
    by rewrite lookup_insert_eq.
  - intros k v Hkv. destruct (Oracle.preds2Ints self !! new_node) eqn:Hk; [done|].
    rewrite lookup_insert_ne; [done|]. congruence.
  - exists stack0, old_node. eexists. split; [done|]. split; [done|].
    rewrite lookup_insert_eq. split; [done|].
    unfold counter_incr. rewrite lookup_insert_eq. do 2 f_equal.
    destruct (Oracle.possiblePredicates self !! old_node) as [c|] eqn:Hc; cbn.
    + by rewrite Hc.
    + rewrite lookup_insert_eq. cbn. by rewrite lookup_empty.
Qed.

End more_table_properties.

Lemma tryConfirm_keeps_its_tables_witness :
  ∃ self',
    @tryConfirm Model.graph Oracle.init Examples.after_shift (SM.amr Examples.after_shift)
                Examples.dog_runs_rooted = Ok (true, self')
    ∧ numbered (Oracle.preds2Ints self').
Proof.
  assert (∃ self', @tryConfirm Model.graph Oracle.init Examples.after_shift
                     (SM.amr Examples.after_shift) Examples.dog_runs_rooted
                   = Ok (true, self')) as [self' Hrun].
  { vm_compute. eexists. reflexivity. }
  exists self'. split; [exact Hrun|].
  refine (proj1 (tryConfirm_keeps_its_tables (G := Model.graph) _ _ _ _ _ _ Hrun)).
  split; [intros k v Hkv | intros k1 k2 v Hkv]; cbn in Hkv; by rewrite lookup_empty in Hkv.
Defined.

(** ** The corpus loop *)

Section corpus_properties.
Context {G : GraphOps} {M : MachineOps}.

Lemma derive_dep_id (fuel : nat) (self : Oracle.t) (tr : SM.t) (gold_amr : AMR.t)
    (exited : bool) (acts : list Action) (self' : Oracle.t) (tr' : SM.t) :
  Oracle.dep_id self = None →
  derive fuel self tr gold_amr = Ok (exited, acts, self', tr') →
  Oracle.dep_id self' = None.
Proof.
  revert self tr exited acts self' tr'.
  induction fuel as [|fuel IH]; intros self tr exited acts self' tr' Hdep; cbn.
  - by destruct (_ && _); intros [= <- <- <- <-].
  - destruct (_ && _); [by intros [= <- <- <- <-]|].
    destruct (step self tr gold_amr) as [[[flow self1] tr1]|e] eqn:Hstep; cbn; [|discriminate].
    destruct (step_dep_id _ _ _ _ _ _ Hdep Hstep) as [Hdep1 _].
    destruct flow as [a|]; [|by intros [= <- <- <- <-]].
    destruct (derive fuel self1 tr1 gold_amr) as [[[[ex1 acts1] self2] tr2]|e] eqn:Hrest;
      cbn; [|discriminate].
    intros [= <- <- <- <-]. by eapply IH.
Qed.

(** A sentence run on a used oracle object ends as it does on a fresh one,
    and leaves [dep_id] at [None]. *)
Lemma sentence_as_if_fresh (fuel : nat) (self self' : Oracle.t) (gold_amr gold_amr' : AMR.t)
    (acts : list Action) (tr' : SM.t) :
  Oracle.dep_id self = None →
  runOracle_sentence fuel self gold_amr = Ok (Some (acts, self', tr', gold_amr')) →
  Oracle.dep_id self' = None
  ∧ sentence_outcome (runOracle_sentence fuel Oracle.init gold_amr)
    = Ok (Some (acts, tr', gold_amr')).
Proof.
  intros Hdep. unfold runOracle_sentence.
  destruct (new_machine _ _) as [tr|e]; cbn; [|discriminate].
  destruct (clean_alignments gold_amr) as [gold|e]; cbn; [|discriminate].
  unfold derive_close.
  pose proof (derive_oracle_independent fuel self Oracle.init tr (add_root gold) Hdep) as Hsame.
  destruct (derive fuel self tr (add_root gold)) as [[[[ex1 acts1] s1] tr1]|e1] eqn:Hrun;
    cbn; [|discriminate].
  destruct (derive fuel Oracle.init tr (add_root gold)) as [[[[ex2 acts2] s2] tr2]|e2];
    cbn in Hsame |- *; [|discriminate].
  injection Hsame as <- <- <-.
  destruct ex1; cbn; [|discriminate].
  destruct (CLOSE (add_root gold) tr1) as [trc|e]; cbn; [|discriminate].
  destruct (AMR.del_node (-1) (add_root gold)) as [g'|e]; cbn; [|discriminate].
  intros [= <- <- <- <-]. split; [|done].
  by eapply derive_dep_id.
Qed.

(** X18. In a run over a corpus the sentences do not influence each other:
    what the run yields for the sentence at any place of the corpus
    (actions, final configuration, gold graph) is what that sentence
    yields when it is run alone on a newly created oracle. *)
Theorem runOracle_sentences_independent (fuel : nat) (self self' : Oracle.t)
    (gold_amrs : list AMR.t) (outs : list (list Action * SM.t * AMR.t)) :
  Oracle.dep_id self = None →
  runOracle fuel self gold_amrs = Ok (Some (outs, self')) →
  length outs = length gold_amrs
  ∧ ∀ i gold_amr out,
      gold_amrs !! i = Some gold_amr → outs !! i = Some out →
      sentence_outcome (runOracle_sentence fuel Oracle.init gold_amr) = Ok (Some out).
Proof.
  revert self outs. induction gold_amrs as [|gold_amr rest IH]; intros self outs Hdep; cbn.
  - intros [= <- <-]. split; [done|]. intros i ?? Hi. by rewrite lookup_nil in Hi.
  - destruct (runOracle_sentence fuel self gold_amr) as [[[[[acts1 self1] tr1] g1]|]|e]
      eqn:Hsent; cbn; [| discriminate | discriminate].
    destruct (sentence_as_if_fresh _ _ _ _ _ _ _ Hdep Hsent) as [Hdep1 Hfresh].
    destruct (runOracle fuel self1 rest) as [[[outs1 self2]|]|e] eqn:Hrest; cbn;
      [| discriminate | discriminate].
    intros [= <- <-]. destruct (IH _ _ Hdep1 Hrest) as [Hlen Hall].
    split; [cbn; lia|].
    intros [|i] g out; cbn.
    + by intros [= <-] [= <-].
    + apply Hall.
Qed.

End corpus_properties.

Lemma runOracle_sentences_independent_witness :
  ∃ outs self',
    @runOracle Model.graph Model.machine 30 Oracle.init
               [Examples.dog_runs; Examples.new_york]
    = Ok (Some (outs, self'))
    ∧ length outs = 2.
Proof.
  assert (∃ outs self',
            @runOracle Model.graph Model.machine 30 Oracle.init
                       [Examples.dog_runs; Examples.new_york]
            = Ok (Some (outs, self'))) as (outs & self' & Hrun).
  { vm_compute. do 2 eexists. reflexivity. }
  exists outs, self'. split; [exact Hrun|].
  exact (proj1 (runOracle_sentences_independent (G := Model.graph) (M := Model.machine)
                  30 Oracle.init _ _ _ eq_refl Hrun)).
Defined.

(** * Properties of the alignment utilities *)

Lemma outcome_bind_Ok {A B} (m : Align.outcome A) (f : A → Align.outcome B) (b : B) :
  (m ≫= f) = Align.Ok b → ∃ a, m = Align.Ok a ∧ f a = Align.Ok b.
Proof. destruct m as [a|e]; [eauto | discriminate]. Qed.

Lemma outcome_mapM_Ok {A B} (f : A → Align.outcome B) (l : list A) (k : list B) :
  mapM f l = Align.Ok k → Forall2 (fun x y => f x = Align.Ok y) l k.
Proof.
  revert k. induction l as [|x l IH]; intros k; cbn.
  - intros [= <-]. constructor.
  - destruct (f x) as [y|e] eqn:Hx; cbn; [|discriminate].
    destruct (mapM f l) as [k'|e]; cbn; [|discriminate].
    intros [= <-]. constructor; [done | by apply IH].
Qed.

Section dict_properties.
Context {K : Type} `{EqDecision K}.

Lemma get_elem {V} (d : list (K * V)) (k : K) (v : V) :
  Align.get d k = Align.Ok v → (k, v) ∈ d.
Proof.
  induction d as [|[k' v'] d IH]; cbn; [discriminate|].
  destruct (decide (k = k')) as [->|Hne]; [intros [= ->]; by left|].
  intros ?%IH. by right.
Qed.

Lemma get_dict {V} (d : list (K * V)) (k : K) (v : V) :
  is_dict d → (k, v) ∈ d → Align.get d k = Align.Ok v.
Proof.
  unfold is_dict. induction d as [|[k' v'] d IH]; cbn; [by intros _ ?%elem_of_nil|].
  intros [Hnotin Hnodup]%NoDup_cons [[= -> ->]|Hin]%elem_of_cons.
  - by rewrite decide_True.
  - rewrite decide_False; [by apply IH|].
    intros ->. apply Hnotin. apply list_elem_of_fmap. by exists (k', v).
Qed.

Lemma del_dict {V} (d : list (K * V)) (k : K) : is_dict d → is_dict (Align.del d k).
Proof.
  unfold is_dict, Align.del. intros Hd.
  apply (sublist_NoDup _ (fst <$> d)); [exact Hd|].
  apply (fmap_sublist fst), sublist_filter.
Qed.

End dict_properties.

Section safe_read_properties.
Context {K : Type} `{EqDecision K}.

Lemma prune_keys_sound (nodes : list (K * string)) (node_ids : list K)
    (al al' : list (K * option (list Z))) :
  is_dict al →
  Align.prune_keys nodes node_ids al = Align.Ok al' →
  al' ⊆ al
  ∧ is_dict al'
  ∧ ∀ k v, (k, v) ∈ al' → k ∈ node_ids → is_Some v ∧ k ∈ map fst nodes.
Proof.
  revert al al'. induction node_ids as [|k rest IH]; intros al al' Hd; cbn.
  - intros [= <-]. split; [done|]. split; [done|]. by intros ?? _ ?%elem_of_nil.
  - destruct (Align.get al k) as [v|e] eqn:Hget; cbn; [|discriminate].
    assert (Hdel : ∀ al'', Align.prune_keys nodes rest (Align.del al k) = Align.Ok al'' →
              al'' ⊆ al ∧ is_dict al''
              ∧ ∀ k0 v0, (k0, v0) ∈ al'' → k0 ∈ k :: rest → is_Some v0 ∧ k0 ∈ map fst nodes).
    { intros al'' (Hsub & Hd' & Hgood)%IH; [|by apply del_dict].
      split; [|split; [done|]].
      - intros kv Hkv. apply Hsub in Hkv. by apply list_elem_of_filter in Hkv as [_ ?].
      - intros k0 v0 Hin [->|Hrest]%elem_of_cons; [|by apply Hgood].
        apply Hsub in Hin. by apply list_elem_of_filter in Hin as [? _]. }
    destruct v as [l|]; [|exact (Hdel al')].
    unfold Align.has. case_bool_decide as Hnode; [|exact (Hdel al')].
    intros (Hsub & Hd' & Hgood)%IH; [|done].
    split; [done|]. split; [done|].
    intros k0 v0 Hin [->|Hrest]%elem_of_cons; [|by apply Hgood].
    apply Hsub in Hin. apply (get_dict _ _ _ Hd) in Hin.
    rewrite Hget in Hin. injection Hin as <-. by split.
Qed.

Lemma prune_alignments_sound (amr amr' : Align.graph K) :
  (∀ al, Align.g_alignments amr = Some al → is_dict al) →
  Align.prune_alignments amr = Align.Ok amr' →
  Align.g_tokens amr' = Align.g_tokens amr
  ∧ Align.g_nodes amr' = Align.g_nodes amr
  ∧ Align.g_edges amr' = Align.g_edges amr
  ∧ Align.g_root amr' = Align.g_root amr
  ∧ ∃ al', Align.g_alignments amr' = Some al'
           ∧ Forall (fun kv => is_Some kv.2 ∧ kv.1 ∈ map fst (Align.g_nodes amr')) al'.
Proof.
  intros Hd. unfold Align.prune_alignments.
  destruct (Align.g_alignments amr) as [al|]; [|discriminate].
  intros (al' & Hprune & [= <-])%outcome_bind_Ok. cbn.
  repeat split. exists al'. split; [done|].
  apply prune_keys_sound in Hprune as (Hsub & _ & Hgood); [|by apply Hd].
  apply Forall_forall. intros [k v] Hin. apply (Hgood k v Hin).
  apply Hsub in Hin. apply list_elem_of_fmap. by exists (k, v).
Qed.

(** The graphs that the first three blocks of [safe_read] let through. *)
Lemma stage_corpus_sound (corpus : list (Align.graph K)) (max_length : Z)
    (check_for_edges remove_none_edges : bool) :
  length (Align.stage_corpus max_length check_for_edges remove_none_edges corpus)
  ≤ length corpus
  ∧ Forall (fun amr =>
              ((0 < max_length)%Z → (Z.of_nat (length (Align.g_tokens amr)) ≤ max_length)%Z)
              ∧ (remove_none_edges = true →
                 Forall (fun e : K * string * K => e.2 ∈ map fst (Align.g_nodes amr))
                        (Align.g_edges amr))
              ∧ ∃ amr0, amr0 ∈ corpus
                        ∧ Align.g_alignments amr = Align.g_alignments amr0)
           (Align.stage_corpus max_length check_for_edges remove_none_edges corpus).
Proof.
  unfold Align.stage_corpus. cbn zeta.
  set (c1 := if bool_decide (0 < max_length)%Z then _ else corpus).
  set (c2 := if check_for_edges then _ else c1).
  assert (H1 : length c1 ≤ length corpus
               ∧ Forall (fun amr =>
                   ((0 < max_length)%Z →
                    (Z.of_nat (length (Align.g_tokens amr)) ≤ max_length)%Z)
                   ∧ amr ∈ corpus) c1).
  { unfold c1. case_bool_decide as Hm.
    - split; [apply length_filter|]. apply Forall_forall.
      intros amr [Hlen Hin]%list_elem_of_filter. split; [lia | done].
    - split; [done|]. apply Forall_forall. intros amr Hin. by split. }
  assert (H2 : length c2 ≤ length corpus
               ∧ Forall (fun amr =>
                   ((0 < max_length)%Z →
                    (Z.of_nat (length (Align.g_tokens amr)) ≤ max_length)%Z)
                   ∧ amr ∈ corpus) c2).
  { unfold c2. destruct check_for_edges; [|done]. destruct H1 as [Hlen Hall]. split.
    - etrans; [apply length_filter | done].
    - apply Forall_forall. intros amr [_ Hin]%list_elem_of_filter.
      by apply (proj1 (Forall_forall _ _) Hall). }
  clearbody c2. clear c1 H1.
  destruct H2 as [Hlen Hall]. destruct remove_none_edges.
  - split; [by rewrite length_map|].
    apply Forall_forall. intros amr' (amr & -> & Hin)%list_elem_of_fmap.
    destruct (proj1 (Forall_forall _ _) Hall amr Hin) as [Hmax Hcorpus].
    split; [done|]. split.
    + intros _. cbn. apply Forall_forall. intros e [He _]%list_elem_of_filter.
      unfold Align.has in He. by apply bool_decide_eq_true in He.
    + by exists amr.
  - split; [done|].
    eapply Forall_impl; [exact Hall|]. intros amr [Hmax Hcorpus].
    split; [done|]. split; [done|]. by exists amr.
Qed.

(** What the fourth block of [safe_read] does to a corpus of graphs whose
    alignments are dictionaries. *)
Lemma prune_corpus_sound (remove_empty_align : bool) (corpus pruned : list (Align.graph K)) :
  Forall (fun amr => ∀ al, Align.g_alignments amr = Some al → is_dict al) corpus →
  Align.prune_corpus remove_empty_align corpus = Align.Ok pruned →
  (remove_empty_align = true → pruned ≠ [])
  ∧ Forall2 (fun amr amr' =>
               Align.g_tokens amr' = Align.g_tokens amr
               ∧ Align.g_nodes amr' = Align.g_nodes amr
               ∧ Align.g_edges amr' = Align.g_edges amr
               ∧ Align.g_root amr' = Align.g_root amr) corpus pruned
  ∧ (remove_empty_align = true →
     ∀ amr0 rest, pruned = amr0 :: rest → is_Some (Align.g_alignments amr0) →
       Forall (fun amr =>
                 ∃ al, Align.g_alignments amr = Some al
                       ∧ Forall (fun kv => is_Some kv.2 ∧ kv.1 ∈ map fst (Align.g_nodes amr)) al)
              pruned).
Proof.
  intros Hdicts. unfold Align.prune_corpus.
  assert (Hid : Forall2 (fun amr amr' : Align.graph K =>
                   Align.g_tokens amr' = Align.g_tokens amr
                   ∧ Align.g_nodes amr' = Align.g_nodes amr
                   ∧ Align.g_edges amr' = Align.g_edges amr
                   ∧ Align.g_root amr' = Align.g_root amr) corpus corpus).
  { apply Forall_Forall2_diag. by apply Forall_true. }
  destruct remove_empty_align; [|intros [= <-]; by repeat split].
  destruct corpus as [|amr0 rest] eqn:Hc; [discriminate|]. rewrite <- Hc in *.
  destruct (Align.g_alignments amr0) as [al0|] eqn:Hal0.
  - intros Hprune%outcome_mapM_Ok.
    assert (Hall : Forall2 (fun amr amr' =>
               (Align.g_tokens amr' = Align.g_tokens amr
                ∧ Align.g_nodes amr' = Align.g_nodes amr
                ∧ Align.g_edges amr' = Align.g_edges amr
                ∧ Align.g_root amr' = Align.g_root amr)
               ∧ ∃ al, Align.g_alignments amr' = Some al
                       ∧ Forall (fun kv => is_Some kv.2
                                           ∧ kv.1 ∈ map fst (Align.g_nodes amr')) al)
             corpus pruned).
    { clear Hc Hid. induction Hprune as [|amr amr' l l' Hone _ IH]; [constructor|].
      apply Forall_cons in Hdicts as [Hd Hds].
      constructor; [|by apply IH].
      apply prune_alignments_sound in Hone as (?&?&?&?&?); by repeat split. }
    split; [|split].
    + intros _ ->. rewrite Hc in Hall. by apply Forall2_nil_inv_r in Hall.
    + eapply Forall2_impl; [exact Hall|]. by intros ?? [? _].
    + intros _ ? ? _ _. apply (Forall2_Forall_r _ _ _ _ Hall).
      apply Forall_true. by intros ? ? [_ ?].
  - intros [= <-]. split; [by rewrite Hc|]. split; [done|].
    intros _ amr0' rest' Heq. rewrite Hc in Heq. injection Heq as <- <-.
    rewrite Hal0. by intros [? [=]].
Qed.

Lemma check_sound (amr : Align.graph K) (u : unit) :
  Align.check amr = Align.Ok u → Align.g_tokens amr ≠ [] ∧ is_Some (Align.g_root amr).
Proof.
  unfold Align.check. case_bool_decide as Hlen; [|discriminate].
  destruct (Align.g_root amr); [|discriminate]. intros _.
  split; [|done]. intros Hnil. rewrite Hnil in Hlen. cbn in Hlen. lia.
Qed.

(** X19. What [safe_read] guarantees about the corpus it returns: every
    graph has at least one token and a root; with [max_length > 0] no
    graph has more than [max_length] tokens; with [remove_none_edges] the
    target of every edge is a node; no graph is added; and with
    [remove_empty_align] the corpus returned is never empty. *)
Theorem safe_read_guarantees (corpus out : list (Align.graph K)) (max_length : Z)
    (check_for_edges remove_empty_align remove_none_edges : bool) :
  Forall (fun amr => ∀ al, Align.g_alignments amr = Some al → is_dict al) corpus →
  Align.safe_read corpus max_length check_for_edges remove_empty_align remove_none_edges
  = Align.Ok out →
  length out ≤ length corpus
  ∧ (remove_empty_align = true → out ≠ [])
  ∧ Forall (fun amr =>
              Align.g_tokens amr ≠ []
              ∧ is_Some (Align.g_root amr)
              ∧ ((0 < max_length)%Z →
                 (Z.of_nat (length (Align.g_tokens amr)) ≤ max_length)%Z)
              ∧ (remove_none_edges = true →
                 Forall (fun e : K * string * K => e.2 ∈ map fst (Align.g_nodes amr))
                        (Align.g_edges amr))) out.
Proof.
  intros Hdicts. unfold Align.safe_read.
  destruct (stage_corpus_sound corpus max_length check_for_edges remove_none_edges)
    as [Hlen Hstaged].
  intros (pruned & Hprune & (units & Hcheck & [= <-])%outcome_bind_Ok)%outcome_bind_Ok.
  apply prune_corpus_sound in Hprune as (Hne & Hsame & _).
  2: { eapply Forall_impl; [exact Hstaged|]. intros amr (_ & _ & amr0 & Hin & ->).
       by apply (proj1 (Forall_forall _ _) Hdicts). }
  split; [by rewrite <- (Forall2_length _ _ _ Hsame)|]. split; [done|].
  apply outcome_mapM_Ok in Hcheck.
  assert (Forall (fun amr => Align.g_tokens amr ≠ [] ∧ is_Some (Align.g_root amr)) pruned)
    as Hchecked.
  { eapply Forall2_Forall_l; [exact Hcheck|]. apply Forall_true.
    intros u amr. apply check_sound. }
  assert (Forall (fun amr =>
                    ((0 < max_length)%Z →
                     (Z.of_nat (length (Align.g_tokens amr)) ≤ max_length)%Z)
                    ∧ (remove_none_edges = true →
                       Forall (fun e : K * string * K => e.2 ∈ map fst (Align.g_nodes amr))
                              (Align.g_edges amr))) pruned) as Hkept.
  { eapply Forall2_Forall_r; [exact Hsame|].
    eapply Forall_impl; [exact Hstaged|].
    intros amr (Hmax & Hedges & _) amr' (Ht & Hn & He & _).
    rewrite Ht, Hn, He. by split. }
  apply Forall_forall. intros amr Hin.
  destruct (proj1 (Forall_forall _ _) Hchecked amr Hin) as [? ?].
  destruct (proj1 (Forall_forall _ _) Hkept amr Hin) as [? ?]. by repeat split.
Qed.

(** X20. With [remove_empty_align], when the first graph that passes the
    filters has alignments, every graph returned has alignments in which
    each node is a node of the graph and no node is aligned to [None]. *)
Theorem safe_read_prunes_alignments (corpus out : list (Align.graph K)) (max_length : Z)
    (check_for_edges remove_none_edges : bool) (amr0 : Align.graph K)
    (rest : list (Align.graph K)) :
  Forall (fun amr => ∀ al, Align.g_alignments amr = Some al → is_dict al) corpus →
  Align.safe_read corpus max_length check_for_edges true remove_none_edges
  = Align.Ok (amr0 :: rest) →
  is_Some (Align.g_alignments amr0) →
  Forall (fun amr =>
            ∃ al, Align.g_alignments amr = Some al
                  ∧ Forall (fun kv => is_Some kv.2 ∧ kv.1 ∈ map fst (Align.g_nodes amr)) al)
         (amr0 :: rest).
Proof.
  intros Hdicts. unfold Align.safe_read.
  destruct (stage_corpus_sound corpus max_length check_for_edges remove_none_edges)
    as [_ Hstaged].
  intros (pruned & Hprune & (units & _ & [= ->])%outcome_bind_Ok)%outcome_bind_Ok Hsome.
  apply prune_corpus_sound in Hprune as (_ & _ & Hgood).
  - exact (Hgood eq_refl amr0 rest eq_refl Hsome).
  - eapply Forall_impl; [exact Hstaged|]. intros amr (_ & _ & amr1 & Hin & ->).
    by apply (proj1 (Forall_forall _ _) Hdicts).
Qed.

(** X21. [safe_read] reads [corpus[0]] before it looks at any alignment:
    with [remove_empty_align], a corpus that is empty, or whose graphs are
    all dropped by [max_length] or by [check_for_edges], ends in an
    [IndexError] instead of an empty result. *)
Theorem safe_read_empty_corpus (corpus : list (Align.graph K)) (max_length : Z)
    (check_for_edges remove_none_edges : bool) :
  corpus = []
  ∨ ((0 < max_length)%Z
     ∧ Forall (fun amr => (max_length < Z.of_nat (length (Align.g_tokens amr)))%Z) corpus)
  ∨ (check_for_edges = true ∧ Forall (fun amr => Align.g_edges amr = []) corpus) →
  Align.safe_read corpus max_length check_for_edges true remove_none_edges
  = Align.Raise Align.IndexError.
Proof.
  intros Hempty. unfold Align.safe_read.
  assert (Align.stage_corpus max_length check_for_edges remove_none_edges corpus = [])
    as ->; [|done].
  unfold Align.stage_corpus. cbn zeta.
  assert (∀ l : list (Align.graph K), l = [] →
            (if remove_none_edges then map Align.prune_edges l else l) = []) as Hlast.
  { intros l ->. by destruct remove_none_edges. }
  apply Hlast.
  assert (∀ l : list (Align.graph K), l = [] →
            (if check_for_edges
             then filter (fun amr => length (Align.g_edges amr) ≠ 0) l else l) = [])
    as Hmid.
  { intros l ->. by destruct check_for_edges. }
  destruct Hempty as [->|[[Hmax Hlong]|[-> Hnone]]].
  - apply Hmid. by case_bool_decide.
  - apply Hmid. rewrite bool_decide_eq_true_2 by done.
    apply filter_none. eapply Forall_impl; [exact Hlong|]. cbn. intros amr ? ?. lia.
  - apply filter_none.
    assert (Forall (fun amr : Align.graph K => Align.g_edges amr = [])
              (if bool_decide (0 < max_length)%Z
               then filter (fun amr =>
                              ¬ (max_length < Z.of_nat (length (Align.g_tokens amr)))%Z) corpus
               else corpus)) as Hstill.
    { case_bool_decide; [|done]. apply Forall_forall.
      intros amr [_ Hin]%list_elem_of_filter.
      by apply (proj1 (Forall_forall _ _) Hnone). }
    eapply Forall_impl; [exact Hstill|]. cbn. intros amr -> ?. done.
Qed.

End safe_read_properties.

Lemma safe_read_guarantees_witness :
  ∃ out,
    Align.safe_read Cases.read_corpus 3 true true true = Align.Ok out
    ∧ length out ≤ 3 ∧ out ≠ [].
Proof.
  assert (∃ out, Align.safe_read Cases.read_corpus 3 true true true = Align.Ok out)
    as [out Hrun].
  { vm_compute. eexists. reflexivity. }
  exists out. split; [exact Hrun|].
  destruct (safe_read_guarantees Cases.read_corpus out 3 true true true) as (Hlen & Hne & _).
  - repeat constructor; intros al [= <-]; apply (bool_decide_unpack _); vm_compute;
      reflexivity.
  - exact Hrun.
  - split; [exact Hlen | by apply Hne].
Defined.

Lemma safe_read_prunes_alignments_witness :
  ∃ amr0 rest,
    Align.safe_read Cases.read_corpus 3 true true true = Align.Ok (amr0 :: rest)
    ∧ Forall (fun amr : Align.graph string =>
                ∃ al, Align.g_alignments amr = Some al
                      ∧ Forall (fun kv => is_Some kv.2 ∧ kv.1 ∈ map fst (Align.g_nodes amr)) al)
             (amr0 :: rest).
Proof.
  assert (∃ amr0 rest,
            Align.safe_read Cases.read_corpus 3 true true true = Align.Ok (amr0 :: rest)
            ∧ is_Some (Align.g_alignments amr0)) as (amr0 & rest & Hrun & Hsome).
  { vm_compute. do 2 eexists. split; [reflexivity | by eexists]. }
  exists amr0, rest. split; [exact Hrun|].
  apply (safe_read_prunes_alignments Cases.read_corpus (amr0 :: rest) 3 true true amr0 rest).
  - repeat constructor; intros al [= <-]; apply (bool_decide_unpack _); vm_compute;
      reflexivity.
  - exact Hrun.
  - exact Hsome.
Defined.

Lemma safe_read_empty_corpus_witness :
  Align.safe_read (K := string) [] 0 false true true = Align.Raise Align.IndexError.
Proof. apply safe_read_empty_corpus. by left. Defined.

(** ** The recall metrics *)

(** Runs the reads of one pass of a metric loop that came through. *)
Ltac read_pass :=
  repeat match goal with
  | |- (mbind _ ?m) = Align.Ok _ → _ =>
      let H := fresh "Hread" in destruct m eqn:H; cbn; [|discriminate]
  | |- (if bool_decide ?P then _ else Align.Raise _) = Align.Ok _ → _ =>
      let H := fresh "Hassert" in
      destruct (bool_decide P) eqn:H; cbn; [|discriminate]
  end.

Section metric_properties.
Context {K : Type} `{EqDecision K}.

Lemma first_Ok (l : list Z) (x : Z) : Align.first l = Align.Ok x → l ≠ [].
Proof. by destruct l. Qed.

Lemma first_nonempty (l : list Z) : l ≠ [] → ∃ x, Align.first l = Align.Ok x.
Proof. destruct l as [|x l]; [done | by exists x]. Qed.

Lemma corpus_recall_loop_counts (gold_align pred_align : list (K * list Z)) (keys : list K)
    (total0 correct0 total correct : Z) :
  Align.corpus_recall_loop gold_align pred_align keys total0 correct0
  = Align.Ok (total, correct) →
  (total = total0 + Z.of_nat (length keys))%Z
  ∧ (correct0 ≤ correct ≤ correct0 + Z.of_nat (length keys))%Z.
Proof.
  revert total0 correct0.
  induction keys as [|k rest IH]; intros total0 correct0; cbn [Align.corpus_recall_loop].
  - intros [= <- <-]. cbn. lia.
  - read_pass. intros [Ht Hc]%IH. cbn [length]. case_bool_decide; lia.
Qed.

Lemma corpus_recall_loop_runs (gold_align pred_align : list (K * list Z)) (keys : list K)
    (total0 correct0 : Z) :
  (∃ r, Align.corpus_recall_loop gold_align pred_align keys total0 correct0 = Align.Ok r)
  ↔ Forall (fun k => (∃ pl, Align.get pred_align k = Align.Ok pl ∧ pl ≠ [])
                     ∧ (∃ gl, Align.get gold_align k = Align.Ok gl ∧ gl ≠ [])) keys.
Proof.
  revert total0 correct0.
  induction keys as [|k rest IH]; intros total0 correct0; cbn [Align.corpus_recall_loop].
  - split; [constructor | by eexists].
  - split.
    + intros [r Hr]. revert Hr. read_pass. intros Hrest.
      constructor; [|eapply IH; by eexists].
      split; eexists; (split; [done|]); by eapply first_Ok.
    + intros [[(pl & -> & Hpl) (gl & -> & Hgl)] Hrest]%Forall_cons. cbn.
      destruct (first_nonempty _ Hpl) as [p0 ->], (first_nonempty _ Hgl) as [g0 ->]. cbn.
      by apply IH.
Qed.

(** X22. [CorpusRecall.update] appends to [total] the number of gold nodes
    and to [correct] a number between 0 and that total; and it comes
    through exactly when every gold node has a non-empty alignment both in
    the gold graph and in the prediction (a node missing from the
    prediction is a [KeyError], an empty alignment an [IndexError]). *)
Theorem CorpusRecall_update_counts (s : Align.state) (gold pred : Align.amr K) :
  (∀ s', Align.CorpusRecall_update s gold pred = Align.Ok s' →
     ∃ correct,
       (0 ≤ correct ≤ Z.of_nat (length (Align.alignments gold)))%Z
       ∧ s' = Align.record "correct" correct
                (Align.record "total" (Z.of_nat (length (Align.alignments gold))) s))
  ∧ ((∃ s', Align.CorpusRecall_update s gold pred = Align.Ok s')
     ↔ Forall (fun k =>
                 (∃ pl, Align.get (Align.alignments pred) k = Align.Ok pl ∧ pl ≠ [])
                 ∧ (∃ gl, Align.get (Align.alignments gold) k = Align.Ok gl ∧ gl ≠ []))
              (map fst (Align.alignments gold))).
Proof.
  unfold Align.CorpusRecall_update. split.
  - intros s' ([total correct] & Hloop & [= <-])%outcome_bind_Ok.
    apply corpus_recall_loop_counts in Hloop as [-> Hc].
    rewrite length_map in Hc |- *. exists correct. split; [lia|]. cbn. by rewrite Z.add_0_l.
  - rewrite <- (corpus_recall_loop_runs _ _ _ 0 0). split.
    + intros [s' (r & Hloop & _)%outcome_bind_Ok]. by exists r.
    + intros [r ->]. cbn. by eexists.
Qed.

Lemma exclude_loop_counts (exclude : list string) (gold : Align.amr K)
    (pred_align : list (K * list Z)) (keys : list K)
    (total0 correct0 skipped0 total correct skipped : Z) :
  Align.exclude_loop exclude gold pred_align keys total0 correct0 skipped0
  = Align.Ok (total, correct, skipped) →
  ((total - total0) + (skipped - skipped0) = Z.of_nat (length keys))%Z
  ∧ (0 ≤ correct - correct0 ≤ total - total0)%Z
  ∧ (0 ≤ skipped - skipped0)%Z.
Proof.
  revert total0 correct0 skipped0.
  induction keys as [|k rest IH]; intros total0 correct0 skipped0; cbn [Align.exclude_loop].
  - intros [= <- <- <-]. cbn. lia.
  - destruct (Align.get (Align.nodes gold) k) as [node_name|e]; cbn; [|discriminate].
    case_bool_decide.
    + intros (? & ? & ?)%IH. cbn [length]. lia.
    + read_pass. intros (? & ? & ?)%IH. cbn [length]. case_bool_decide; lia.
Qed.

(** X23. [CorpusRecall_ExcludeNode.update] accounts for every gold node
    once: the [total] and the [skipped] it appends add up to the number of
    gold nodes, and the [correct] it appends lies between 0 and [total]. *)
Theorem ExcludeNode_update_counts (exclude : list string) (s s' : Align.state)
    (gold pred : Align.amr K) :
  Align.ExcludeNode_update exclude s gold pred = Align.Ok s' →
  ∃ total correct skipped,
    s' = Align.record "skipped" skipped
           (Align.record "correct" correct (Align.record "total" total s))
    ∧ (total + skipped = Z.of_nat (length (Align.alignments gold)))%Z
    ∧ (0 ≤ correct ≤ total)%Z ∧ (0 ≤ skipped)%Z.
Proof.
  unfold Align.ExcludeNode_update.
  intros ([[total correct] skipped] & Hloop & [= <-])%outcome_bind_Ok.
  apply exclude_loop_counts in Hloop as (Hsum & Hc & Hs). rewrite length_map in Hsum.
  exists total, correct, skipped. split; [done|]. lia.
Qed.

Lemma duplicate_loop_refines (gold : Align.amr K) (pred_align : list (K * list Z))
    (keys : list K) (total0 correct0 duplicate0 fixed0 total correct duplicate fixed : Z)
    (plain0 : Z) :
  Align.duplicate_loop gold pred_align keys total0 correct0 duplicate0 fixed0
  = Align.Ok (total, correct, duplicate, fixed) →
  ∃ plain,
    Align.corpus_recall_loop (Align.alignments gold) pred_align keys total0 plain0
    = Align.Ok (total, plain)
    ∧ (correct - correct0 = (plain - plain0) + (fixed - fixed0))%Z
    ∧ (0 ≤ fixed - fixed0 ≤ duplicate - duplicate0)%Z
    ∧ (duplicate - duplicate0 ≤ total - total0)%Z
    ∧ (total - total0 = Z.of_nat (length keys))%Z.
Proof.
  revert total0 correct0 duplicate0 fixed0 plain0.
  induction keys as [|k rest IH]; intros total0 correct0 duplicate0 fixed0 plain0;
    cbn [Align.duplicate_loop Align.corpus_recall_loop].
  - intros [= <- <- <- <-]. exists plain0. split; [done|]. cbn. lia.
  - destruct (Align.get pred_align k) as [pl|e]; cbn; [|discriminate].
    destruct (Align.first pl) as [p0|e]; cbn; [|discriminate].
    destruct (Align.get (Align.alignments gold) k) as [gl|e]; cbn; [|discriminate].
    destruct (Align.first gl) as [g0|e]; cbn; [|discriminate].
    destruct (py_index (Align.tokens gold) (g0 - 1)) as [text_name|]; cbn; [|discriminate].
    set (dup := bool_decide (1 < Align.text_count (Align.tokens gold) text_name)).
    intros Hloop.
    eapply (IH _ _ _ _ (if bool_decide ((p0 - 1)%Z = (g0 - 1)%Z) then (plain0 + 1)%Z
                        else plain0)) in Hloop as (plain & -> & Hc & Hf & Hd & Ht).
    exists plain. split; [done|]. cbn [length].
    destruct dup; cbn in *; repeat case_bool_decide; cbn in *;
      repeat case_bool_decide; try lia; try done.
Qed.

(** X24. [CorpusRecall_DuplicateText.update] never scores below
    [CorpusRecall.update]: whenever it comes through, so does the plain
    metric on the same graphs, with the same [total]; its [correct] is the
    plain [correct] plus [fixed], and [fixed] is at most [duplicate], which
    is at most [total]. *)
Theorem DuplicateText_update_adds_fixed (s s' : Align.state) (gold pred : Align.amr K) :
  Align.DuplicateText_update s gold pred = Align.Ok s' →
  ∃ total correct duplicate fixed plain,
    s' = Align.record "fixed" fixed
           (Align.record "duplicate" duplicate
              (Align.record "correct" correct (Align.record "total" total s)))
    ∧ Align.CorpusRecall_update s gold pred
      = Align.Ok (Align.record "correct" plain (Align.record "total" total s))
    ∧ correct = (plain + fixed)%Z
    ∧ (0 ≤ fixed ≤ duplicate)%Z ∧ (duplicate ≤ total)%Z
    ∧ total = Z.of_nat (length (Align.alignments gold)).
Proof.
  unfold Align.DuplicateText_update, Align.CorpusRecall_update.
  intros ([[[total correct] duplicate] fixed] & Hloop & [= <-])%outcome_bind_Ok.
  apply (duplicate_loop_refines _ _ _ _ _ _ _ _ _ _ _ 0%Z) in Hloop
    as (plain & -> & Hc & Hf & Hd & Ht).
  rewrite length_map in Ht.
  exists total, correct, duplicate, fixed, plain. cbn. repeat split; lia.
Qed.

Lemma final_Ok_first (l : list Z) (b : Z) :
  Align.final l = Align.Ok b → ∃ a, Align.first l = Align.Ok a.
Proof. destruct l as [|a l]; [discriminate | by exists a]. Qed.

Lemma spans_loop_refines (gold_align pred_align : list (K * list Z)) (keys : list K)
    (total0 correct0 total correct plain0 : Z) :
  Forall (fun kv : K * list Z =>
            ∀ a b, Align.first kv.2 = Align.Ok a → Align.final kv.2 = Align.Ok b → (a ≤ b)%Z)
         gold_align →
  Align.spans_loop gold_align pred_align keys total0 correct0 = Align.Ok (total, correct) →
  ∃ plain,
    Align.corpus_recall_loop gold_align pred_align keys total0 plain0
    = Align.Ok (total, plain)
    ∧ (plain - plain0 ≤ correct - correct0)%Z.
Proof.
  intros Hsorted. revert total0 correct0 plain0.
  induction keys as [|k rest IH]; intros total0 correct0 plain0;
    cbn [Align.spans_loop Align.corpus_recall_loop].
  - intros [= <- <-]. exists plain0. split; [done | lia].
  - destruct (Align.get pred_align k) as [pl|e]; cbn; [|discriminate].
    case_bool_decide; [|discriminate].
    destruct (Align.first pl) as [p0|e]; cbn; [|discriminate].
    destruct (Align.get gold_align k) as [gl|e] eqn:Hgl; cbn; [|discriminate].
    destruct (Align.first gl) as [g0|e] eqn:Hg0; cbn; [|discriminate].
    destruct (Align.final gl) as [g1|e] eqn:Hg1; cbn; [|discriminate].
    assert (g0 ≤ g1)%Z as Hle.
    { apply get_elem in Hgl.
      exact (proj1 (Forall_forall _ _) Hsorted _ Hgl g0 g1 Hg0 Hg1). }
    intros Hloop.
    eapply (IH _ _ (if bool_decide ((p0 - 1)%Z = (g0 - 1)%Z) then (plain0 + 1)%Z
                    else plain0)) in Hloop as (plain & -> & Hc).
    exists plain. split; [done|].
    repeat case_bool_decide; cbn in *; lia.
Qed.

(** X25. When the positions of every gold alignment are listed with the
    first not above the last, [CorpusRecall_WithGoldSpans.update] never
    scores below [CorpusRecall.update]: whenever it comes through, so does
    the plain metric, with the same [total] and a [correct] that is not
    larger. *)
Theorem WithGoldSpans_update_is_lenient (s s' : Align.state) (gold pred : Align.amr K) :
  Forall (fun kv : K * list Z =>
            ∀ a b, Align.first kv.2 = Align.Ok a → Align.final kv.2 = Align.Ok b → (a ≤ b)%Z)
         (Align.alignments gold) →
  Align.WithGoldSpans_update s gold pred = Align.Ok s' →
  ∃ total correct plain,
    s' = Align.record "correct" correct (Align.record "total" total s)
    ∧ Align.CorpusRecall_update s gold pred
      = Align.Ok (Align.record "correct" plain (Align.record "total" total s))
    ∧ (plain ≤ correct)%Z.
Proof.
  intros Hsorted. unfold Align.WithGoldSpans_update, Align.CorpusRecall_update.
  intros ([total correct] & Hloop & [= <-])%outcome_bind_Ok.
  apply (spans_loop_refines _ _ _ _ _ _ _ 0%Z Hsorted) in Hloop as (plain & -> & Hc).
  exists total, correct, plain. cbn. repeat split. lia.
Qed.

Lemma dups_spans_loop_flags (gold : Align.amr K) (pred_align : list (K * list Z))
    (keys : list K) (total0 correct0 total correct : Z) (fl0 fl : Align.flags) :
  Align.dups_spans_loop gold pred_align keys total0 correct0 fl0
  = Align.Ok (total, correct, fl) →
  (total - total0 = Z.of_nat (length keys))%Z
  ∧ (0 ≤ correct - correct0 ≤ total - total0)%Z
  ∧ Align.is_span fl = (if keys is [] then Align.is_span fl0 else true).
Proof.
  revert total0 correct0 fl0.
  induction keys as [|k rest IH]; intros total0 correct0 fl0; cbn [Align.dups_spans_loop].
  - intros [= <- <- <-]. cbn. split; [lia|]. split; [lia | done].
  - destruct (Align.get pred_align k) as [pl|e]; cbn; [|discriminate].
    case_bool_decide; [|discriminate].
    destruct (Align.first pl) as [p0|e]; cbn; [|discriminate].
    destruct (Align.get (Align.alignments gold) k) as [gl|e] eqn:Hgl; cbn; [|discriminate].
    destruct (Align.first gl) as [g0|e] eqn:Hg0; cbn; [|discriminate].
    destruct (Align.final gl) as [g1|e]; cbn; [|discriminate].
    destruct (py_index (Align.tokens gold) (g0 - 1)) as [text_name|]; cbn; [|discriminate].
    intros (Ht & Hc & Hspan)%IH. cbn [length].
    split; [lia|]. split.
    + destruct (if bool_decide (1 < Align.text_count (Align.tokens gold) text_name)
                then true else _); lia.
    + rewrite Hspan. destruct rest; [|done]. cbn.
      apply first_Ok in Hg0. rewrite bool_decide_eq_true_2; [done|].
      destruct gl; [done | cbn; lia].
Qed.

(** X26. The flag [is_span] of [CorpusRecall_WithDupsAndSpans.update] does
    not tell spans from single positions: it is set as soon as the gold
    graph has an aligned node, so that the number appended to [is_span] is
    1 for every graph with alignments and [is_both] repeats
    [is_duplicate]; [total] and [correct] are as in the other metrics. *)
Theorem WithDupsAndSpans_update_flags (s s' : Align.state) (gold pred : Align.amr K) :
  Align.WithDupsAndSpans_update s gold pred = Align.Ok s' →
  ∃ total correct fl,
    Align.dups_spans_loop gold (Align.alignments pred) (map fst (Align.alignments gold)) 0 0
                          (Align.mk_flags false false false)
    = Align.Ok (total, correct, fl)
    ∧ total = Z.of_nat (length (Align.alignments gold))
    ∧ (0 ≤ correct ≤ total)%Z
    ∧ Align.is_span fl = bool_decide (Align.alignments gold ≠ [])
    ∧ s' !! "is_span"%string
      = Some (default [] (s !! "is_span"%string)
              ++ [Align.to_int (bool_decide (Align.alignments gold ≠ []))])
    ∧ (Align.alignments gold ≠ [] →
       s' !! "is_both"%string
       = Some (default [] (s !! "is_both"%string) ++ [Align.to_int (Align.is_duplicate fl)])).
Proof.
  unfold Align.WithDupsAndSpans_update.
  intros ([[total correct] fl] & Hloop & [= <-])%outcome_bind_Ok.
  pose proof (dups_spans_loop_flags _ _ _ _ _ _ _ _ _ Hloop) as (Ht & Hc & Hspan).
  rewrite length_map in Ht.
  assert (Align.is_span fl = bool_decide (Align.alignments gold ≠ [])) as Hflag.
  { rewrite Hspan. by destruct (Align.alignments gold). }
  exists total, correct, fl. split; [done|]. split; [lia|]. split; [lia|].
  split; [done|]. cbn. unfold Align.record. split.
  - rewrite lookup_insert_ne by done. rewrite lookup_insert_ne by done.
    rewrite lookup_insert_eq. rewrite !lookup_insert_ne by done. by rewrite Hflag.
  - intros Hne. rewrite lookup_insert_ne by done. rewrite lookup_insert_eq.
    rewrite !lookup_insert_ne by done.
    by rewrite Hflag, (bool_decide_eq_true_2 _ Hne).
Qed.

End metric_properties.

Lemma CorpusRecall_update_counts_witness :
  ∃ s', Align.CorpusRecall_update ∅ Cases.gold_alignment Cases.pred_alignment = Align.Ok s'.
Proof.
  apply (proj2 (CorpusRecall_update_counts ∅ Cases.gold_alignment Cases.pred_alignment)).
  repeat constructor; by eexists.
Defined.

Lemma ExcludeNode_update_counts_witness :
  ∃ s',
    Align.ExcludeNode_update ["dog"; "name"]%string ∅ Cases.gold_alignment Cases.pred_alignment
    = Align.Ok s'
    ∧ ∃ total correct skipped,
        s' = Align.record "skipped" skipped
               (Align.record "correct" correct (Align.record "total" total ∅))
        ∧ (total + skipped = 4)%Z ∧ (0 ≤ correct ≤ total)%Z ∧ (0 ≤ skipped)%Z.
Proof.
  eexists. split; [reflexivity|].
  apply (ExcludeNode_update_counts ["dog"; "name"]%string ∅ _
           Cases.gold_alignment Cases.pred_alignment).
  reflexivity.
Defined.

Lemma DuplicateText_update_adds_fixed_witness :
  ∃ s',
    Align.DuplicateText_update ∅ Cases.gold_alignment Cases.pred_alignment = Align.Ok s'
    ∧ ∃ total correct duplicate fixed plain,
        s' = Align.record "fixed" fixed
               (Align.record "duplicate" duplicate
                  (Align.record "correct" correct (Align.record "total" total ∅)))
        ∧ Align.CorpusRecall_update ∅ Cases.gold_alignment Cases.pred_alignment
          = Align.Ok (Align.record "correct" plain (Align.record "total" total ∅))
        ∧ correct = (plain + fixed)%Z
        ∧ (0 ≤ fixed ≤ duplicate)%Z ∧ (duplicate ≤ total)%Z
        ∧ total = 4%Z.
Proof.
  eexists. split; [reflexivity|].
  apply (DuplicateText_update_adds_fixed ∅ _ Cases.gold_alignment Cases.pred_alignment).
  reflexivity.
Defined.

Lemma WithGoldSpans_update_is_lenient_witness :
  ∃ s',
    Align.WithGoldSpans_update ∅ Cases.gold_alignment Cases.pred_alignment = Align.Ok s'
    ∧ ∃ total correct plain,
        s' = Align.record "correct" correct (Align.record "total" total ∅)
        ∧ Align.CorpusRecall_update ∅ Cases.gold_alignment Cases.pred_alignment
          = Align.Ok (Align.record "correct" plain (Align.record "total" total ∅))
        ∧ (plain ≤ correct)%Z.
Proof.
  eexists. split; [reflexivity|].
  apply (WithGoldSpans_update_is_lenient ∅ _ Cases.gold_alignment Cases.pred_alignment);
    [|reflexivity].
  repeat constructor; cbn; intros a b [= <-] [= <-]; lia.
Defined.

Lemma WithDupsAndSpans_update_flags_witness :
  ∃ s',
    Align.WithDupsAndSpans_update ∅ Cases.gold_alignment Cases.pred_alignment = Align.Ok s'
    ∧ ∃ total correct fl,
        Align.dups_spans_loop Cases.gold_alignment (Align.alignments Cases.pred_alignment)
          (map fst (Align.alignments Cases.gold_alignment)) 0 0
          (Align.mk_flags false false false)
        = Align.Ok (total, correct, fl)
        ∧ total = 4%Z
        ∧ (0 ≤ correct ≤ total)%Z
        ∧ Align.is_span fl = true
        ∧ s' !! "is_span"%string = Some [1%Z]
        ∧ (Align.alignments Cases.gold_alignment ≠ [] →
           s' !! "is_both"%string = Some [Align.to_int (Align.is_duplicate fl)]).
Proof.
  eexists. split; [reflexivity|].
  exact (WithDupsAndSpans_update_flags ∅ _ Cases.gold_alignment Cases.pred_alignment
           eq_refl).
Defined.

(** ** The spanning tree of [get_tree_edges] *)

Section tree_properties.
Context {K : Type} `{EqDecision K}.

Lemma get_has {V} (d : list (K * V)) (k : K) :
  Align.has d k = true ↔ ∃ v, Align.get d k = Align.Ok v.
Proof.
  unfold Align.has. rewrite bool_decide_eq_true.
  induction d as [|[k' v'] d IH]; cbn.
  - split; [by intros ?%elem_of_nil | by intros [? ?]].
  - destruct (decide (k = k')) as [->|Hne].
    + split; [by eexists | by left].
    + rewrite elem_of_cons, IH. split; [|by right]. by intros [?|?].
Qed.

Lemma get_append_at {V} (d : list (K * list V)) (s k : K) (v : V) :
  Align.get (Align.append_at d s v) k
  = if decide (k = s)
    then Align.Ok (match Align.get d k with Align.Ok vs => vs | Align.Raise _ => [] end ++ [v])
    else Align.get d k.
Proof.
  induction d as [|[k' vs] d IH]; cbn.
  - by destruct (decide (k = s)).
  - destruct (decide (s = k')) as [->|Hne]; cbn.
    + by destruct (decide (k = k')).
    + destruct (decide (k = k')) as [->|Hne']; [|exact IH].
      by rewrite decide_False by done.
Qed.

(** A [defaultdict(list)] filled by a loop: the entry of a key lists what
    the loop appended under it, in the order of the loop, and a key under
    which nothing was appended has no entry. *)
Lemma append_at_loop {A V} (key : A → K) (val : A → V) (l : list A) (k : K) :
  match Align.get (foldl (fun d x => Align.append_at d (key x) (val x)) [] l) k with
  | Align.Ok vs => vs = map val (filter (fun x => key x = k) l) ∧ vs ≠ []
  | Align.Raise _ => filter (fun x => key x = k) l = []
  end.
Proof.
  induction l as [|x l IH] using rev_ind; [done|].
  rewrite foldl_app, filter_app. cbn [foldl]. rewrite get_append_at.
  destruct (decide (k = key x)) as [->|Hne].
  - rewrite filter_cons_True by done. rewrite map_app. cbn.
    split; [|by intros [_ [=]]%app_nil].
    destruct (Align.get _ _); [by destruct IH as [-> _] | by rewrite IH].
  - rewrite filter_cons_False by done. by rewrite app_nil_r.
Qed.

Lemma node_TO_edges_get (edges : list (K * string * K)) (k : K) :
  match Align.get (Align.node_TO_edges edges) k with
  | Align.Ok es => es = filter (fun e => e.1.1 = k) edges ∧ es ≠ []
  | Align.Raise _ => filter (fun e : K * string * K => e.1.1 = k) edges = []
  end.
Proof.
  pose proof (append_at_loop (fun e : K * string * K => e.1.1) id edges k) as Hloop.
  unfold Align.node_TO_edges. destruct (Align.get _ k); [|done].
  by rewrite map_id in Hloop.
Qed.

Lemma get_setitem {V} (d : list (K * V)) (k k' : K) (v : V) :
  Align.get (Align.setitem d k v) k'
  = if decide (k' = k) then Align.Ok v else Align.get d k'.
Proof.
  induction d as [|[k0 v0] d IH]; cbn.
  - by destruct (decide (k' = k)).
  - destruct (decide (k = k0)) as [->|Hne]; cbn.
    + by destruct (decide (k' = k0)).
    + destruct (decide (k' = k0)) as [->|Hne']; [|exact IH].
      by rewrite decide_False by done.
Qed.

Section graph.
Variables (edges : list (K * string * K)) (r0 : K).

Lemma seen_of_elem (out : list (K * string * K * string * string)) (t : K) :
  t ∈ seen_of r0 out ↔ t ∈ r0 :: map Align.target out.
Proof.
  unfold seen_of. rewrite elem_of_app, list_elem_of_singleton.
  rewrite (elem_of_cons (map Align.target out) t r0).
  assert (t ∈ rev (map Align.target out) ↔ t ∈ map Align.target out) as ->; [|tauto].
  rewrite !list_elem_of_In. symmetry. apply in_rev.
Qed.

Lemma seen_of_snoc (out : list (K * string * K * string * string))
    (e : K * string * K * string * string) :
  seen_of r0 (out ++ [e]) = Align.target e :: seen_of r0 out.
Proof. unfold seen_of. by rewrite map_app, rev_app_distr. Qed.

Lemma hangs_mono (l k : list (K * string * K * string * string)) (s : K) (a : string) :
  hangs r0 l s a → hangs r0 (l ++ k) s a.
Proof.
  intros [?|(s' & y' & a' & Hin)]; [by left|].
  right. exists s', y', a'. apply elem_of_app. by left.
Qed.

Lemma closed_mono (out k : list (K * string * K * string * string)) (v : K) :
  closed edges r0 out v → closed edges r0 (out ++ k) v.
Proof.
  intros Hc y t Hin. specialize (Hc y t Hin).
  rewrite map_app. rewrite elem_of_cons in Hc |- *. rewrite elem_of_app. tauto.
Qed.

Lemma grown_snoc (out : list (K * string * K * string * string)) (s : K) (y : string)
    (t : K) (a : string) (i : nat) :
  grown edges r0 out →
  filter (fun e : K * string * K => e.1.1 = s) edges !! i = Some (s, y, t) →
  t ∉ r0 :: map Align.target out → hangs r0 out s a →
  grown edges r0 (out ++ [(s, y, t, a, (a +:+ "." +:+ pretty.pretty i)%string)]).
Proof.
  intros (Hfrom & Hnodup & Hpre) Hidx Hnew Hhangs.
  pose proof (list_elem_of_lookup_2 _ _ _ Hidx) as [_ Hin]%list_elem_of_filter.
  split; [|split].
  - intros s1 y1 t1 a1 b1 [Hold|[= -> -> -> -> ->]%list_elem_of_singleton]%elem_of_app;
      [by eapply Hfrom | done].
  - rewrite map_app. cbn. rewrite app_comm_cons.
    apply NoDup_app. split; [done|]. split; [|apply NoDup_singleton].
    intros x Hx ->%list_elem_of_singleton. by apply Hnew.
  - intros l1 s1 y1 t1 a1 b1 l2 Heq.
    destruct l2 as [|e l2 _] using rev_ind.
    + apply app_inj_tail in Heq as [<- [= <- <- <- <- <-]]. split; [by exists i | done].
    + rewrite app_comm_cons, app_assoc in Heq. apply app_inj_tail in Heq as [-> _].
      by eapply Hpre.
Qed.

Lemma grown_length (out : list (K * string * K * string * string)) :
  grown edges r0 out → length out ≤ length edges.
Proof.
  intros (Hfrom & Hnodup & _). apply NoDup_cons in Hnodup as [_ Hnodup].
  rewrite <- (length_map Align.target out), <- (length_map (fun e : K * string * K => e.2) edges).
  apply submseteq_length, NoDup_submseteq; [done|].
  intros t ([[[[s y] t'] a] b] & -> & Hin)%list_elem_of_fmap.
  apply list_elem_of_fmap. exists (s, y, t'). split; [done|]. by eapply Hfrom.
Qed.

Lemma visit_spec (depth : nat)
    (h : K → string → Align.visited K → option (Align.outcome (Align.visited K)))
    (root : K) (prefix : string) (es : list (K * string * K)) :
  helper_spec edges r0 depth h →
  ∀ (i : nat) out,
    drop i (filter (fun e : K * string * K => e.1.1 = root) edges) = es →
    grown edges r0 out → hangs r0 out root prefix → length edges < S depth + length out →
    ∃ ext,
      Align.visit h root prefix es i (seen_of r0 out, out)
      = Some (Align.Ok (seen_of r0 (out ++ ext), out ++ ext))
      ∧ grown edges r0 (out ++ ext)
      ∧ Forall (fun e => e.2 ∈ r0 :: map Align.target (out ++ ext)) es
      ∧ ∀ v, v ∈ map Align.target ext → closed edges r0 (out ++ ext) v.
Proof.
  intros Hh. induction es as [|[[s y] t] rest IH]; intros i out Hes Hgrown Hhangs Hdepth.
  - exists []. rewrite app_nil_r. cbn. split; [done|]. split; [done|].
    split; [constructor|]. by intros v ?%elem_of_nil.
  - assert (filter (fun e : K * string * K => e.1.1 = root) edges !! i = Some (s, y, t))
      as Hidx by by rewrite <- (Nat.add_0_r i), <- lookup_drop, Hes.
    assert (drop (S i) (filter (fun e : K * string * K => e.1.1 = root) edges) = rest)
      as Hrest by (rewrite (drop_S _ _ _ Hidx) in Hes; by injection Hes).
    pose proof (list_elem_of_lookup_2 _ _ _ Hidx) as [Hs _]%list_elem_of_filter.
    cbn in Hs. subst s. cbn [Align.visit]. rewrite decide_True by done. cbn [fst snd].
    case_bool_decide as Hseen.
    + destruct (IH (S i) out Hrest Hgrown Hhangs Hdepth) as (ext & -> & Hg & Hall & Hcl).
      exists ext. split; [done|]. split; [done|]. split; [|done].
      constructor; [|done]. cbn. apply seen_of_elem in Hseen.
      rewrite map_app. rewrite elem_of_cons in Hseen |- *. rewrite elem_of_app. tauto.
    + rewrite seen_of_elem in Hseen.
      set (e := (root, y, t, prefix, (prefix +:+ "." +:+ pretty.pretty i)%string)).
      assert (grown edges r0 (out ++ [e])) as Hgrown1 by by apply grown_snoc.
      replace (t :: seen_of r0 out) with (seen_of r0 (out ++ [e])) by apply seen_of_snoc.
      destruct (Hh t (prefix +:+ "." +:+ pretty.pretty i)%string (out ++ [e]) Hgrown1)
        as (ext1 & -> & Hgrown2 & Hclosed_t & Hclosed1).
      { right. exists root, y, prefix. apply elem_of_app. right. by left. }
      { rewrite length_app. cbn. lia. }
      destruct (IH (S i) ((out ++ [e]) ++ ext1) Hrest Hgrown2)
        as (ext2 & -> & Hgrown3 & Hall & Hclosed2).
      { rewrite <- app_assoc. by apply hangs_mono. }
      { rewrite !length_app. cbn. lia. }
      exists ([e] ++ ext1 ++ ext2).
      replace (out ++ [e] ++ ext1 ++ ext2) with (((out ++ [e]) ++ ext1) ++ ext2)
        by by rewrite <- !app_assoc.
      split; [done|]. split; [done|]. split.
      * constructor; [|done]. cbn. rewrite !map_app. cbn.
        rewrite elem_of_cons, !elem_of_app, list_elem_of_singleton. tauto.
      * intros v. rewrite !map_app. cbn.
        intros [->|[Hv|Hv]%elem_of_app]%elem_of_cons.
        -- by apply closed_mono.
        -- by apply closed_mono, Hclosed1.
        -- by apply Hclosed2.
Qed.

Lemma helper_grows (depth : nat) :
  helper_spec edges r0 depth (Align.helper depth (Align.node_TO_edges edges)).
Proof.
  induction depth as [|depth IH]; intros root prefix out Hgrown Hhangs Hdepth.
  - apply grown_length in Hgrown. lia.
  - cbn [Align.helper].
    pose proof (node_TO_edges_get edges root) as Hget.
    destruct (Align.has _ root) eqn:Hhas.
    + apply get_has in Hhas as [es Hes]. rewrite Hes in Hget |- *. destruct Hget as [-> _].
      destruct (visit_spec depth _ root prefix
                  (filter (fun e : K * string * K => e.1.1 = root) edges) IH 0 out)
        as (ext & -> & Hgrown' & Hall & Hclosed); [done..|].
      exists ext. split; [done|]. split; [done|]. split; [|done].
      intros y t Hin.
      apply (proj1 (Forall_forall _ _) Hall (root, y, t)).
      apply list_elem_of_filter. by split.
    + exists []. rewrite app_nil_r. split; [done|]. split; [done|].
      split; [|by intros v ?%elem_of_nil].
      intros y t Hin. exfalso.
      destruct (Align.get _ root) as [es|e] eqn:Hes.
      * assert (Align.has (Align.node_TO_edges edges) root = true) as Htrue
          by (apply get_has; by eexists).
        by rewrite Htrue in Hhas.
      * assert ((root, y, t) ∈ filter (fun e : K * string * K => e.1.1 = root) edges) as Hf
          by (apply list_elem_of_filter; by split).
        rewrite Hget in Hf. by apply elem_of_nil in Hf.
Qed.

Lemma grown_nil : grown edges r0 [].
Proof.
  split; [|split].
  - by intros s y t a b ?%elem_of_nil.
  - cbn. apply NoDup_singleton.
  - intros l1 s y t a b l2 Heq. by destruct l1.
Qed.

End graph.

(** What [get_tree_edges] returns, for the three properties below. *)
Lemma get_tree_edges_grown (depth : nat) (amr : Align.graph K) :
  length (Align.g_edges amr) < depth →
  ∃ out,
    Align.get_tree_edges depth amr = Some (Align.Ok out)
    ∧ match Align.g_root amr with
      | Some root =>
          grown (Align.g_edges amr) root out
          ∧ ∀ v, v ∈ root :: map Align.target out → closed (Align.g_edges amr) root out v
      | None => out = []
      end.
Proof.
  intros Hdepth. unfold Align.get_tree_edges.
  destruct (Align.g_root amr) as [root|]; [|by exists []].
  destruct (helper_grows (Align.g_edges amr) root depth root "0"%string [])
    as (out & Hrun & Hgrown & Hroot & Hnew).
  { apply grown_nil. } { by left. } { cbn. lia. }
  cbn in Hrun. rewrite Hrun. cbn in *. exists out. split; [done|]. split; [done|].
  intros v [->|Hv]%elem_of_cons; [done | by apply Hnew].
Qed.

(** X27. [get_tree_edges] returns on every graph, also one with cycles,
    as soon as the calls of [helper] may nest deeper than the graph has
    edges, and its assertion never fails.  Every tuple returned stems from
    an edge of the graph, no node is the target of two tuples, and the
    root is the target of none. *)
Theorem get_tree_edges_returns (depth : nat) (amr : Align.graph K) :
  length (Align.g_edges amr) < depth →
  ∃ out,
    Align.get_tree_edges depth amr = Some (Align.Ok out)
    ∧ (∀ s y t a b, (s, y, t, a, b) ∈ out → (s, y, t) ∈ Align.g_edges amr)
    ∧ NoDup (map Align.target out)
    ∧ ∀ root, Align.g_root amr = Some root → root ∉ map Align.target out.
Proof.
  intros Hdepth. destruct (get_tree_edges_grown depth amr Hdepth) as (out & Hrun & Hout).
  exists out. split; [done|].
  destruct (Align.g_root amr) as [root|].
  - destruct Hout as [(Hfrom & [Hroot Hnodup]%NoDup_cons & _) _].
    split; [done|]. split; [done|]. by intros ? [= <-].
  - subst out. split; [by intros s y t a b ?%elem_of_nil|]. split; [constructor | done].
Qed.

(** X28. The tuples come in the order of a walk from the root.  The new
    prefix of a tuple is its prefix followed by a dot and the position
    that its edge has in [node_TO_edges] among the edges of its source,
    which are the edges of the graph leaving that node, in the order of
    the graph.  The prefix is ['0'] for an edge that leaves the root, and
    for every other tuple the new prefix of an earlier tuple, the one that
    reached its source. *)
Theorem get_tree_edges_preorder (depth : nat) (amr : Align.graph K)
    (out l1 l2 : list (K * string * K * string * string)) (s : K) (y : string) (t : K)
    (a b : string) :
  Align.get_tree_edges depth amr = Some (Align.Ok out) →
  length (Align.g_edges amr) < depth →
  out = l1 ++ (s, y, t, a, b) :: l2 →
  (∃ (i : nat) es,
     Align.get (Align.node_TO_edges (Align.g_edges amr)) s = Align.Ok es
     ∧ es = filter (fun e : K * string * K => e.1.1 = s) (Align.g_edges amr)
     ∧ es !! i = Some (s, y, t)
     ∧ b = (a +:+ "." +:+ pretty.pretty i)%string)
  ∧ ((Align.g_root amr = Some s ∧ a = "0"%string) ∨ ∃ s' y' a', (s', y', s, a', a) ∈ l1).
Proof.
  intros Hrun Hdepth Heq.
  destruct (get_tree_edges_grown depth amr Hdepth) as (out' & Hrun' & Hout).
  rewrite Hrun in Hrun'. injection Hrun' as <-.
  destruct (Align.g_root amr) as [root|]; [|subst out; by destruct l1].
  destruct Hout as [(_ & _ & Hpre) _].
  destruct (Hpre l1 s y t a b l2 Heq) as [(i & Hb & Hidx) Hhangs]. split.
  - exists i, (filter (fun e : K * string * K => e.1.1 = s) (Align.g_edges amr)).
    split; [|done].
    pose proof (node_TO_edges_get (Align.g_edges amr) s) as Hget.
    destruct (Align.get _ s) as [es|e]; [by destruct Hget as [-> _]|].
    rewrite Hget in Hidx. by rewrite lookup_nil in Hidx.
  - destruct Hhangs as [[-> ->]|Hearlier]; [by left | by right].
Qed.

(** X29. The tuples returned span what the root reaches: every node that
    can be reached from the root along edges of the graph is the root or
    the target of a tuple. *)
Theorem get_tree_edges_spans (depth : nat) (amr : Align.graph K)
    (out : list (K * string * K * string * string)) (root v : K) :
  Align.get_tree_edges depth amr = Some (Align.Ok out) →
  length (Align.g_edges amr) < depth →
  Align.g_root amr = Some root →
  Align.reaches (Align.g_edges amr) root v →
  v = root ∨ v ∈ map Align.target out.
Proof.
  intros Hrun Hdepth Hroot Hreach.
  destruct (get_tree_edges_grown depth amr Hdepth) as (out' & Hrun' & Hout).
  rewrite Hrun in Hrun'. injection Hrun' as <-. rewrite Hroot in Hout.
  destruct Hout as [_ Hclosed]. apply elem_of_cons.
  assert (∀ u, Align.reaches (Align.g_edges amr) u v →
               u ∈ root :: map Align.target out → v ∈ root :: map Align.target out)
    as Hgen.
  { intros u Hr. unfold Align.reaches in Hr.
    induction Hr as [u|u w v [y Hedge] _ IH]; [done|].
    intros Hu. apply IH; [done|]. by eapply Hclosed. }
  apply (Hgen root Hreach). by left.
Qed.

End tree_properties.

(** ** The tree of [convert_amr_to_tree] *)

Lemma leb_extension (a x : string) : String.leb a (a +:+ x) = true.
Proof.
  unfold String.leb. induction a as [|c a IH].
  - by destruct x.
  - change (String c a +:+ x) with (String c (a +:+ x)).
    change (String.compare (String c a) (String c (a +:+ x)))
      with (match Ascii.compare c c with
            | Eq => String.compare a (a +:+ x) | Lt => Lt | Gt => Gt end).
    assert (Ascii.compare c c = Eq) as ->; [|exact IH].
    pose proof (Ascii.compare_antisym c c) as Hc. by destruct (Ascii.compare c c).
Qed.

Lemma insert_by_perm {A} (lt : A → A → bool) (x : A) (l : list A) :
  Align.insert_by lt x l ≡ₚ x :: l.
Proof.
  induction l as [|y l IH]; cbn; [done|].
  destruct (lt x y); [done|]. rewrite IH. apply Permutation_swap.
Qed.

Lemma sorted_by_perm {A} (lt : A → A → bool) (l : list A) : Align.sorted_by lt l ≡ₚ l.
Proof.
  unfold Align.sorted_by. induction l as [|x l IH] using rev_ind; [done|].
  rewrite foldl_app. cbn. rewrite insert_by_perm, IH. apply Permutation_cons_append.
Qed.

Lemma tree_loop_runs (es : list (string * string * string * string * string))
    (tr : Align.tree) :
  Forall (fun e => String.leb e.1.2 e.2 = true) es →
  ∃ tr',
    Align.tree_loop es tr = Align.Ok tr'
    ∧ Align.t_root tr' = Align.t_root tr
    ∧ Align.t_node_ids tr' = Align.t_node_ids tr
    ∧ Align.t_edges tr' = Align.t_edges tr ++ map (fun e => (e.1.1.1.1, e.1.1.2)) es
    ∧ Align.t_edge_to_label tr'
      = foldl (fun d e => Align.setitem d (e.1.1.1.1, e.1.1.2) e.1.1.1.2)
              (Align.t_edge_to_label tr) es
    ∧ Align.t_node_to_children tr'
      = foldl (fun d e => Align.append_at d e.1.1.1.1 e.1.1.2)
              (Align.t_node_to_children tr) es.
Proof.
  revert tr. induction es as [|[[[[s y] t] a] b] es IH]; intros tr Hall.
  - exists tr. cbn. by rewrite app_nil_r.
  - apply Forall_cons in Hall as [Hab Hall]. cbn in Hab. cbn [Align.tree_loop].
    rewrite Hab.
    destruct (IH (Align.mk_tree (Align.t_root tr)
                    (Align.append_at (Align.t_node_to_children tr) s t)
                    (Align.setitem (Align.t_edge_to_label tr) (s, t) y)
                    (Align.t_edges tr ++ [(s, t)])
                    (Align.t_node_ids tr)) Hall)
      as (tr' & -> & Hroot & Hids & Hedges & Hlabels & Hch).
    exists tr'. cbn in *. by rewrite <- app_assoc in Hedges.
Qed.

Lemma setitem_loop {A} (key : A → string * string) (val : A → string) (l : list A) (x : A) :
  NoDup (map key l) → x ∈ l →
  Align.get (foldl (fun d x => Align.setitem d (key x) (val x)) [] l) (key x)
  = Align.Ok (val x).
Proof.
  induction l as [|x' l IH] using rev_ind; [by intros _ ?%elem_of_nil|].
  rewrite map_app, foldl_app. cbn. rewrite get_setitem.
  intros (Hnodup & Hnotin & _)%NoDup_app [Hin|Hlast]%elem_of_app.
  - rewrite decide_False; [by apply IH|].
    intros Heq. apply (Hnotin (key x)); [|rewrite Heq; by left].
    apply list_elem_of_fmap. by exists x.
  - apply list_elem_of_singleton in Hlast as ->. by rewrite decide_True.
Qed.

(** X30. [convert_amr_to_tree] returns on every graph: the assertion
    [a <= b] never fails, since a new prefix extends its prefix.  In the
    tree returned no node is the child of two edges and the root is no
    child; every edge [(s, t)] of [tree['edges']] stems from an edge of the
    graph, whose label is [tree['edge_to_label'][(s, t)]], and [t] is
    listed in [tree['node_to_children'][s]]. *)
Theorem convert_amr_to_tree_returns (depth : nat) (amr : Align.graph string) :
  length (Align.g_edges amr) < depth →
  ∃ tr,
    Align.convert_amr_to_tree depth amr = Some (Align.Ok tr)
    ∧ Align.t_root tr = Align.g_root amr
    ∧ NoDup (map snd (Align.t_edges tr))
    ∧ (∀ root, Align.g_root amr = Some root → root ∉ map snd (Align.t_edges tr))
    ∧ ∀ s t, (s, t) ∈ Align.t_edges tr →
        (∃ y, (s, y, t) ∈ Align.g_edges amr
              ∧ Align.get (Align.t_edge_to_label tr) (s, t) = Align.Ok y)
        ∧ ∃ ts, Align.get (Align.t_node_to_children tr) s = Align.Ok ts ∧ t ∈ ts.
Proof.
  intros Hdepth. unfold Align.convert_amr_to_tree.
  destruct (get_tree_edges_grown depth amr Hdepth) as (out & -> & Hout).
  pose proof (sorted_by_perm Align.sortkey_lt out) as Hperm.
  set (es := Align.sorted_by Align.sortkey_lt out) in *.
  assert (from_graph (Align.g_edges amr) es
          ∧ NoDup (map Align.target es)
          ∧ (∀ root, Align.g_root amr = Some root → root ∉ map Align.target es)
          ∧ Forall (fun e => String.leb e.1.2 e.2 = true) es)
    as (Hfrom & Hnodup & Hroot & Hleb).
  { destruct (Align.g_root amr) as [root|].
    - destruct Hout as [(Hfrom & [Hroot Hnodup]%NoDup_cons & Hpre) _].
      split; [|split; [|split]].
      + intros s y t a b Hin. rewrite Hperm in Hin. by eapply Hfrom.
      + by rewrite Hperm.
      + intros ? [= <-]. by rewrite Hperm.
      + apply Forall_forall. intros [[[[s y] t] a] b] Hin. rewrite Hperm in Hin.
        apply list_elem_of_split in Hin as (l1 & l2 & Heq).
        destruct (Hpre l1 s y t a b l2 Heq) as [(i & -> & _) _]. apply leb_extension.
    - subst out. apply Permutation_nil_r in Hperm. rewrite Hperm.
      split; [by intros s y t a b ?%elem_of_nil|]. split; [constructor|].
      split; [done | constructor]. }
  destruct (tree_loop_runs es
              (Align.mk_tree (Align.g_root amr) [] [] [] (Align.get_node_ids amr)) Hleb)
    as (tr & Hrun & Htr_root & _ & Hedges & Hlabels & Hchildren).
  cbn in Htr_root, Hedges, Hlabels, Hchildren.
  assert (map snd (Align.t_edges tr) = map Align.target es) as Htargets.
  { rewrite Hedges, map_map. by apply map_ext. }
  exists tr. split; [by rewrite Hrun|]. split; [done|].
  rewrite Htargets. split; [done|]. split; [done|].
  intros s t Hin. rewrite Hedges in Hin.
  apply list_elem_of_fmap in Hin as ([[[[s' y] t'] a] b] & [= -> ->] & Hin). split.
  - exists y. split; [by eapply Hfrom|]. rewrite Hlabels.
    apply (setitem_loop (fun e : string * string * string * string * string =>
                           (e.1.1.1.1, e.1.1.2))
                        (fun e => e.1.1.1.2) es (s', y, t', a, b)); [|done].
    apply (NoDup_fmap_1 snd). by rewrite <- list_fmap_compose.
  - pose proof (append_at_loop
                  (fun e : string * string * string * string * string => e.1.1.1.1)
                  (fun e => e.1.1.2) es s') as Hloop.
    rewrite Hchildren.
    assert ((s', y, t', a, b) ∈ filter
              (fun e : string * string * string * string * string => e.1.1.1.1 = s') es)
      as Hfilter by (apply list_elem_of_filter; by split).
    destruct (Align.get _ s') as [ts|e].
    + destruct Hloop as [-> _]. exists (map (fun e => e.1.1.2)
        (filter (fun e : string * string * string * string * string => e.1.1.1.1 = s') es)).
      split; [done|]. apply list_elem_of_fmap. by exists (s', y, t', a, b).
    + rewrite Hloop in Hfilter. by apply elem_of_nil in Hfilter.
Qed.

Lemma get_tree_edges_returns_witness :
  ∃ out,
    Align.get_tree_edges 6 Cases.cyclic = Some (Align.Ok out)
    ∧ (∀ s y t a b, (s, y, t, a, b) ∈ out → (s, y, t) ∈ Align.g_edges Cases.cyclic)
    ∧ NoDup (map Align.target out)
    ∧ ∀ root, Align.g_root Cases.cyclic = Some root → root ∉ map Align.target out.
Proof. apply get_tree_edges_returns. cbn. lia. Defined.

Lemma get_tree_edges_preorder_witness :
  (∃ (i : nat) es,
     Align.get (Align.node_TO_edges (Align.g_edges Cases.cyclic)) "b"%string = Align.Ok es
     ∧ es = filter (fun e : string * string * string => e.1.1 = "b"%string)
                   (Align.g_edges Cases.cyclic)
     ∧ es !! i = Some ("b", ":ARG1", "c")%string
     ∧ "0.0.1"%string = ("0.0" +:+ "." +:+ pretty.pretty i)%string)
  ∧ ((Align.g_root Cases.cyclic = Some "b"%string ∧ "0.0"%string = "0"%string)
     ∨ ∃ s' y' a', (s', y', "b", a', "0.0")%string ∈ [("a", ":op1", "b", "0", "0.0")%string]).
Proof.
  apply (get_tree_edges_preorder 6 Cases.cyclic
           [("a", ":op1", "b", "0", "0.0"); ("b", ":ARG1", "c", "0.0", "0.0.1");
            ("c", ":mod", "d", "0.0.1", "0.0.1.0")]%string
           [("a", ":op1", "b", "0", "0.0")%string]
           [("c", ":mod", "d", "0.0.1", "0.0.1.0")%string]
           "b" ":ARG1" "c" "0.0" "0.0.1");
    [reflexivity | cbn; lia | reflexivity].
Defined.

Lemma get_tree_edges_spans_witness :
  "d"%string = "a"%string
  ∨ "d"%string ∈ map Align.target
                   [("a", ":op1", "b", "0", "0.0"); ("b", ":ARG1", "c", "0.0", "0.0.1");
                    ("c", ":mod", "d", "0.0.1", "0.0.1.0")]%string.
Proof.
  apply (get_tree_edges_spans 6 Cases.cyclic _ "a" "d");
    [reflexivity | cbn; lia | reflexivity |].
  unfold Align.reaches.
  apply (rtc_l _ _ "c"%string); [exists ":op2"%string; cbn; do 2 right; by left|].
  apply rtc_once. exists ":mod"%string. cbn. do 4 right. by left.
Defined.

Lemma convert_amr_to_tree_returns_witness :
  ∃ tr,
    Align.convert_amr_to_tree 6 Cases.cyclic = Some (Align.Ok tr)
    ∧ Align.t_root tr = Align.g_root Cases.cyclic
    ∧ NoDup (map snd (Align.t_edges tr))
    ∧ (∀ root, Align.g_root Cases.cyclic = Some root → root ∉ map snd (Align.t_edges tr))
    ∧ ∀ s t, (s, t) ∈ Align.t_edges tr →
        (∃ y, (s, y, t) ∈ Align.g_edges Cases.cyclic
              ∧ Align.get (Align.t_edge_to_label tr) (s, t) = Align.Ok y)
        ∧ ∃ ts, Align.get (Align.t_node_to_children tr) s = Align.Ok ts ∧ t ∈ ts.
Proof. apply convert_amr_to_tree_returns. cbn. lia. Defined.
